(** * Frosty Audio Fixer: probe / convert batches and the job controller

    A shallow embedding of [src/audio/probe.py], [src/audio/convert.py] and
    of the job-execution part of [src/app/window.py], with the properties
    the specification states about them.

    Conventions of the embedding.
    - A Python [str] is a [string]; each [ascii] stands for one code point
      below 256.
    - A Python [int] is a [Z]; [float] values are kept abstract (class
      [Host]), only the success or failure of a conversion matters here.
    - A function that may raise returns an [outcome]; a function with
      effects (directories created, subprocesses spawned, signals emitted)
      is a state transformer over [World] that logs each effect in order.
    - The external tools ([ffprobe], [ffmpeg]) and [json.loads] are fields
      of the class [Host]: every theorem holds for all their behaviours. *)

From Stdlib Require Import ZArith DecimalString Ascii.
From stdpp Require Import gmap strings list.

Local Open Scope Z_scope.
Set Warnings "-register-all".

(** ** Python strings *)

Module Str.

Definition code (c : ascii) : Z := Z.of_nat (Ascii.nat_of_ascii c).

(** [str.isspace] on one character (code points below 256). *)
Definition isspace (c : ascii) : bool :=
  let n := code c in
  ((9 <=? n) && (n <=? 13)) || ((28 <=? n) && (n <=? 32))
  || (n =? 133) || (n =? 160).

Fixpoint lstrip (s : string) : string :=
  match s with
  | EmptyString => EmptyString
  | String c r => if isspace c then lstrip r else s
  end.

Fixpoint rstrip (s : string) : string :=
  match s with
  | EmptyString => EmptyString
  | String c r =>
      match rstrip r with
      | EmptyString => if isspace c then EmptyString else String c EmptyString
      | r' => String c r'
      end
  end.

(** [s.strip()] *)
Definition strip (s : string) : string := rstrip (lstrip s).

(** [c.lower()] on one character. *)
Definition lower_char (c : ascii) : ascii :=
  let n := code c in
  if ((65 <=? n) && (n <=? 90))
     || ((192 <=? n) && (n <=? 222) && negb (n =? 215))
  then Ascii.ascii_of_nat (Z.to_nat (n + 32)) else c.

(** [s.lower()] *)
Fixpoint lower (s : string) : string :=
  match s with
  | EmptyString => EmptyString
  | String c r => String (lower_char c) (lower r)
  end.

Definition len (s : string) : Z := Z.of_nat (String.length s).

(** [s.rfind(c)]: the highest index of [c] in [s], or [-1]. *)
Fixpoint rfind (c : ascii) (s : string) : Z :=
  match s with
  | EmptyString => -1
  | String a r =>
      let i := rfind c r in
      if 0 <=? i then i + 1
      else if Ascii.eqb a c then 0 else -1
  end.

(** [s[i:]] and [s[:i]] for [0 <= i]. *)
Definition from (i : Z) (s : string) : string :=
  String.substring (Z.to_nat i) (String.length s - Z.to_nat i)%nat s.
Definition upto (i : Z) (s : string) : string :=
  String.substring 0 (Z.to_nat i) s.

(** [a or b] on strings: the empty string is falsy. *)
Definition or_ (a b : string) : string :=
  match a with EmptyString => b | _ => a end.

(** [sub in s] *)
Fixpoint contains (sub s : string) : bool :=
  String.prefix sub s
  || match s with
     | EmptyString => false
     | String _ r => contains sub r
     end.

(** [str(n)] for an [int]. *)
Definition of_Z (n : Z) : string := NilEmpty.string_of_int (Z.to_int n).

(** [sep.join(l)] *)
Fixpoint join (sep : string) (l : list string) : string :=
  match l with
  | [] => EmptyString
  | [x] => x
  | x :: r => x +:+ sep +:+ join sep r
  end.

(** [s.split(c)] for a one-character separator. *)
Fixpoint split (c : ascii) (s : string) : list string :=
  match s with
  | EmptyString => [EmptyString]
  | String a r =>
      if Ascii.eqb a c then EmptyString :: split c r
      else match split c r with
           | [] => [String a EmptyString]
           | x :: xs => String a x :: xs
           end
  end.

(** [c in s] for a character. *)
Fixpoint mem (c : ascii) (s : string) : bool :=
  match s with
  | EmptyString => false
  | String a r => Ascii.eqb a c || mem c r
  end.

(** [s.strip() == ""]: every character of [s] is white space. *)
Fixpoint blank (s : string) : bool :=
  match s with
  | EmptyString => true
  | String c r => isspace c && blank r
  end.

End Str.

(** ** [pathlib.Path] (POSIX flavour, Python 3.8 to 3.13)

    A path is kept the way [pathlib] keeps it after parsing: a root
    ([""], ["/"] or ["//"]) and the list of its components. *)

Record Path := mkPath { root : string; parts : list string }.

Global Instance Path_eq_dec : EqDecision Path.
Proof. solve_decision. Defined.

Global Instance Path_countable : Countable Path.
Proof.
  refine (inj_countable' (fun p => (root p, parts p))
                         (fun x => mkPath (fst x) (snd x)) _).
  by intros [].
Defined.

Module PurePath.

Definition slash : ascii := "/"%char.
Definition dot : ascii := "."%char.

Fixpoint leading_slashes (s : string) : nat :=
  match s with
  | String c r => if Ascii.eqb c slash then S (leading_slashes r) else O
  | EmptyString => O
  end.

(** [Path(s)]: empty and ["."] components are dropped; exactly two
    leading slashes are kept, any other number collapses to one. *)
Definition parse (s : string) : Path :=
  let r := match leading_slashes s with
           | O => ""
           | 2%nat => "//"
           | _ => "/"
           end in
  mkPath r
    (filter (fun c => c <> "" /\ c <> ".") (Str.split slash s)).

(** [str(p)] *)
Definition str (p : Path) : string :=
  match root p, parts p with
  | EmptyString, [] => "."
  | r, l => r +:+ Str.join "/" l
  end.

(** [p.name]: the final component, [""] when there is none. *)
Definition name (p : Path) : string := List.last (parts p) "".

(** [p.suffix] *)
Definition suffix (p : Path) : string :=
  let nm := name p in
  let i := Str.rfind dot nm in
  if (0 <? i) && (i <? Str.len nm - 1) then Str.from i nm else "".

(** [p.stem] *)
Definition stem (p : Path) : string :=
  let nm := name p in
  let i := Str.rfind dot nm in
  if (0 <? i) && (i <? Str.len nm - 1) then Str.upto i nm else nm.

(** [p / s] for a string [s]: an absolute [s] replaces [p]. *)
Definition joinpath (p : Path) (s : string) : Path :=
  let q := parse s in
  match root q with
  | EmptyString => mkPath (root p) (parts p ++ parts q)
  | _ => q
  end.

(** [p.parent] *)
Definition parent (p : Path) : Path :=
  mkPath (root p) (removelast (parts p)).

Fixpoint prefixes (l : list string) : list (list string) :=
  match l with
  | [] => [[]]
  | x :: r => [] :: map (cons x) (prefixes r)
  end.

(** [p.parents] followed by [p]: all ancestors of the path, outermost
    first, then the path itself. *)
Definition chain (p : Path) : list Path :=
  map (mkPath (root p)) (prefixes (parts p)).

(** A string that can be the single, final component of a path. *)
Definition component (s : string) : Prop :=
  s <> "" /\ s <> "." /\ Str.mem slash s = false.

(** The paths [pathlib] builds: a root and proper components. *)
Definition wf (p : Path) : Prop :=
  root p ∈ [""; "/"; "//"] /\ Forall component (parts p).

End PurePath.

(** ** Exceptions and outcomes

    [exn] lists the exceptions the code raises or meets; all of them are
    subclasses of [Exception]. *)

Inductive exn :=
| FFprobeError (msg : string)      (* probe.py, class FFprobeError *)
| FFmpegError (msg : string)       (* convert.py, class FFmpegError *)
| ValueError (msg : string)
| JSONDecodeError                  (* json.loads on malformed text *)
| TypeError
| AttributeError
| KeyError
| OSError (msg : string).          (* mkdir or process creation failed *)

Inductive outcome (A : Type) :=
| Returned (a : A)
| Raised (e : exn).
Arguments Returned {A} a.
Arguments Raised {A} e.

(** ** JSON values, as [json.loads] builds them

    An object is the association list of its [dict]; [get] takes the first
    binding of a key. *)

Inductive json (F : Type) :=
| JNull
| JBool (b : bool)
| JInt (z : Z)
| JFloat (f : F)
| JStr (s : string)
| JArr (l : list (json F))
| JObj (d : list (string * json F)).
Arguments JNull {F}.
Arguments JBool {F} b.
Arguments JInt {F} z.
Arguments JFloat {F} f.
Arguments JStr {F} s.
Arguments JArr {F} l.
Arguments JObj {F} d.

(** ** The world a job acts on *)

(** [window.py], class ProgressEvent *)
Record ProgressEvent := mkProgressEvent {
  done : Z;
  total : Z;
  message : string
}.

Global Instance ProgressEvent_eq_dec : EqDecision ProgressEvent.
Proof. solve_decision. Defined.

(** What [subprocess.run(..., stdout=PIPE, stderr=PIPE, text=True)]
    returns. *)
Record CompletedProcess := mkCompletedProcess {
  returncode : Z;
  stdout : string;
  stderr : string
}.

Inductive effect :=
| Mkdir (p : Path)                  (* out_dir.mkdir(parents=True, exist_ok=True) *)
| Spawn (cmd : list string)         (* subprocess.run(cmd, ...) *)
| Progressed (ev : ProgressEvent).  (* controller.progressed.emit(ev) *)

Global Instance effect_eq_dec : EqDecision effect.
Proof. solve_decision. Defined.

(** Directories and regular files that exist, and the effects performed so
    far, oldest first. *)
Record World := mkWorld {
  dirs : gset Path;
  files : gset Path;
  log : list effect
}.

Definition record (e : effect) (w : World) : World :=
  mkWorld (dirs w) (files w) (log w ++ [e]).

(** The effects performed between two worlds. *)
Definition since (w w' : World) : list effect :=
  drop (length (log w)) (log w').

Definition progress_of (l : list effect) : list ProgressEvent :=
  omap (fun e => match e with Progressed ev => Some ev | _ => None end) l.

(** [w'] is [w] after the effects [d]. *)
Definition extends (w w' : World) (d : list effect) : Prop :=
  log w' = log w ++ d.

(** The collaborators the code calls but does not define. *)
Class Host := {
  pyfloat : Type;
  (** [float(s)] for a string, [None] when it raises [ValueError] *)
  float_of_str : string -> option pyfloat;
  (** [float(n)] for an int, [None] when it raises [OverflowError] *)
  float_of_int : Z -> option pyfloat;
  (** [int(x)] for a float, [None] for a NaN or an infinity *)
  int_of_float : pyfloat -> option Z;
  (** [bool(x)] for a float *)
  float_truthy : pyfloat -> bool;
  (** [json.loads], [None] when it raises [JSONDecodeError] *)
  json_loads : string -> option (json pyfloat);
  (** what running a command yields in a given world; [Raised] when the
      process cannot be created *)
  subprocess_run : World -> list string -> outcome CompletedProcess
}.

(** ** Computations with effects and exceptions *)

Definition M (A : Type) : Type := World -> outcome A * World.

Definition ret {A} (a : A) : M A := fun w => (Returned a, w).
Definition raise {A} (e : exn) : M A := fun w => (Raised e, w).
Definition bind {A B} (m : M A) (k : A -> M B) : M B :=
  fun w =>
    match m w with
    | (Returned a, w') => k a w'
    | (Raised e, w') => (Raised e, w')
    end.
Definition lift {A} (o : outcome A) : M A := fun w => (o, w).

Notation "'let*' x ':=' m 'in' k" := (bind m (fun x => k))
  (at level 10, x name, m at level 100, k at level 200).

(** [p.mkdir(parents=True, exist_ok=True)]: fails when the path or one of
    its ancestors is a regular file, otherwise the path and its ancestors
    are directories afterwards. *)
Definition mkdir (p : Path) : M unit :=
  fun w =>
    let w1 := record (Mkdir p) w in
    if bool_decide (Exists (fun q => q ∈ files w) (PurePath.chain p))
    then (Raised (OSError "mkdir"), w1)
    else (Returned tt,
          mkWorld (dirs w1 ∪ list_to_set (PurePath.chain p)) (files w1) (log w1)).

(** Whether [mkdir] finds a regular file in its way. *)
Definition blocked (p : Path) (w : World) : Prop :=
  Exists (fun q => q ∈ files w) (PurePath.chain p).

(** The world after a successful [mkdir p]. *)
Definition made (p : Path) (w : World) : World :=
  mkWorld (dirs w ∪ list_to_set (PurePath.chain p)) (files w)
          (log w ++ [Mkdir p]).

(** [subprocess.run(cmd, stdout=PIPE, stderr=PIPE, text=True)] *)
Definition run_process `{Host} (cmd : list string) : M CompletedProcess :=
  fun w => (subprocess_run w cmd, record (Spawn cmd) w).

(** [signal.emit(ev)] on the controller's [progressed] signal *)
Definition emit_progressed (ev : ProgressEvent) : M unit :=
  fun w => (Returned tt, record (Progressed ev) w).

(** [out = []; for p in paths: out.append(op(p)); return out], the loop
    of [probe_files] and [convert_files]; [out] is the list built so far. *)
Fixpoint collect {A} (op : Path -> M A) (paths : list Path) (out : list A)
  : M (list A) :=
  match paths with
  | [] => ret out
  | p :: rest =>
      let* x := op p in
      collect op rest (out ++ [x])
  end.

Definition obind {A B} (o : outcome A) (k : A -> outcome B) : outcome B :=
  match o with
  | Returned a => k a
  | Raised e => Raised e
  end.

Notation "'let?' x ':=' o 'in' k" := (obind o (fun x => k))
  (at level 10, x name, o at level 100, k at level 200).

(** ** The operations of Python the code relies on *)

Module Py.

Definition digit (c : ascii) : option Z :=
  let n := Str.code c in
  if (48 <=? n) && (n <=? 57) then Some (n - 48) else None.

(** The digits after the first one; single underscores may separate
    digits. *)
Fixpoint digits (acc : Z) (s : string) : option Z :=
  match s with
  | EmptyString => Some acc
  | String c r =>
      match digit c with
      | Some d => digits (10 * acc + d) r
      | None =>
          if Ascii.eqb c "_" then
            match r with
            | String c' r' =>
                match digit c' with
                | Some d => digits (10 * acc + d) r'
                | None => None
                end
            | EmptyString => None
            end
          else None
      end
  end.

Definition unsigned (s : string) : option Z :=
  match s with
  | String c r => match digit c with Some d => digits d r | None => None end
  | EmptyString => None
  end.

(** [int(s)] for a string, [None] when it raises [ValueError]. *)
Definition int_of_str (s : string) : option Z :=
  match Str.strip s with
  | String c r =>
      if Ascii.eqb c "-" then Z.opp <$> unsigned r
      else if Ascii.eqb c "+" then unsigned r
      else unsigned (String c r)
  | EmptyString => None
  end.

Section WithHost.
Context `{Host}.

Definition value : Type := json pyfloat.

(** [int(v)], [None] when it raises. *)
Definition int (v : value) : option Z :=
  match v with
  | JStr s => int_of_str s
  | JInt z => Some z
  | JBool b => Some (if b then 1 else 0)
  | JFloat f => int_of_float f
  | JNull | JArr _ | JObj _ => None
  end.

(** [float(v)], [None] when it raises. *)
Definition float (v : value) : option pyfloat :=
  match v with
  | JStr s => float_of_str s
  | JInt z => float_of_int z
  | JBool b => float_of_int (if b then 1 else 0)
  | JFloat f => Some f
  | JNull | JArr _ | JObj _ => None
  end.

(** [bool(v)] *)
Definition truthy (v : value) : bool :=
  match v with
  | JNull => false
  | JBool b => b
  | JInt z => negb (z =? 0)
  | JFloat f => float_truthy f
  | JStr s => negb (String.eqb s "")
  | JArr l => match l with [] => false | _ => true end
  | JObj d => match d with [] => false | _ => true end
  end.

(** [a or b] *)
Definition or_ (a b : value) : value := if truthy a then a else b.

Fixpoint lookup (k : string) (d : list (string * value)) : option value :=
  match d with
  | [] => None
  | (k', v) :: r => if String.eqb k' k then Some v else lookup k r
  end.

(** [v.get(k, dflt)]: only a dict has the method. *)
Definition get (v : value) (k : string) (dflt : value) : outcome value :=
  match v with
  | JObj d => Returned (default dflt (lookup k d))
  | _ => Raised AttributeError
  end.

(** [v == s] for a string [s] *)
Definition eq_str (v : value) (s : string) : bool :=
  match v with
  | JStr t => String.eqb t s
  | _ => false
  end.

(** [k in v]: a key of a dict, a substring of a string, an element of
    a list; anything else is not iterable. *)
Definition contains (k : string) (v : value) : outcome bool :=
  match v with
  | JObj d => Returned (bool_decide (is_Some (lookup k d)))
  | JStr s => Returned (Str.contains k s)
  | JArr l => Returned (existsb (fun x => eq_str x k) l)
  | JNull | JBool _ | JInt _ | JFloat _ => Raised TypeError
  end.

(** [v[k]] for a string key [k]; guarded by [k in v] at each use. *)
Definition getitem (v : value) (k : string) : outcome value :=
  match v with
  | JObj d =>
      match lookup k d with
      | Some x => Returned x
      | None => Raised KeyError
      end
  | _ => Raised TypeError
  end.

(** [for s in v]: the elements of a list, the keys of a dict, the
    characters of a string. *)
Definition iter (v : value) : outcome (list value) :=
  match v with
  | JArr l => Returned l
  | JObj d => Returned (map (fun kv => JStr (fst kv)) d)
  | JStr s =>
      Returned (map (fun c => JStr (String c EmptyString))
                    (String.list_ascii_of_string s))
  | JNull | JBool _ | JInt _ | JFloat _ => Raised TypeError
  end.

(** [try: x = conv(item) except Exception: x = None] *)
Definition try_conv {A} (conv : value -> option A) (item : outcome value)
  : option A :=
  match item with
  | Returned v => conv v
  | Raised _ => None
  end.

End WithHost.
End Py.

(** ** [src/audio/convert.py] *)

Record ConvertOptions := mkConvertOptions {
  out_dir : Path;
  sample_rate : Z;
  channels : Z;
  bit_depth : Z;
  overwrite : bool;
  force_wav : bool
}.

Definition _pcm_codec (bit_depth : Z) : outcome string :=
  let m : gmap Z string :=
    {[ 16 := "pcm_s16le"; 24 := "pcm_s24le"; 32 := "pcm_s32le" ]} in
  match m !! bit_depth with
  | None => Raised (ValueError "bit_depth must be one of 16, 24, 32")
  | Some c => Returned c
  end.

Section Convert.
Context `{Host}.

Definition out_ext_of (in_path : Path) (opts : ConvertOptions) : string :=
  if force_wav opts then ".wav" else PurePath.suffix in_path.

Definition out_path_of (in_path : Path) (opts : ConvertOptions) : Path :=
  PurePath.joinpath (out_dir opts)
    (PurePath.stem in_path +:+ out_ext_of in_path opts).

(** The argument vector up to, and without, the codec selection. *)
Definition ffmpeg_head (in_path : Path) (opts : ConvertOptions) : list string :=
  ["ffmpeg"]
  ++ [if overwrite opts then "-y" else "-n"]
  ++ ["-i"; PurePath.str in_path; "-vn";
      "-ac"; Str.of_Z (channels opts); "-ar"; Str.of_Z (sample_rate opts)].

Definition convert_file (in_path : Path) (opts : ConvertOptions) : M Path :=
  let* _ := mkdir (out_dir opts) in
  let out_ext := out_ext_of in_path opts in
  let out_path := out_path_of in_path opts in
  let cmd := ffmpeg_head in_path opts in
  let* cmd :=
    (if String.eqb (Str.lower out_ext) ".wav"
     then let* c := lift (_pcm_codec (bit_depth opts)) in
          ret (cmd ++ ["-c:a"; c])
     else ret (cmd ++ ["-c:a"; "copy"])) in
  let cmd := cmd ++ [PurePath.str out_path] in
  let* p := run_process cmd in
  if negb (returncode p =? 0)
  then raise (FFmpegError (Str.or_ (Str.strip (stderr p)) "ffmpeg failed"))
  else ret out_path.

Definition convert_files (paths : list Path) (opts : ConvertOptions)
  : M (list Path) :=
  collect (fun p => convert_file p opts) paths [].

(** The codec argument [convert_file] settles on, or the error of
    [_pcm_codec]. *)
Definition codec_arg (in_path : Path) (opts : ConvertOptions) : outcome string :=
  if String.eqb (Str.lower (out_ext_of in_path opts)) ".wav"
  then _pcm_codec (bit_depth opts)
  else Returned "copy".

(** The full argument vector for a codec argument. *)
Definition ffmpeg_cmd (in_path : Path) (opts : ConvertOptions) (c : string)
  : list string :=
  (ffmpeg_head in_path opts ++ ["-c:a"; c])
    ++ [PurePath.str (out_path_of in_path opts)].

End Convert.

(** ** [src/audio/probe.py] *)

Module AudioInfo.
(** [F] is the type of floats.  [codec] holds whatever [codec_name] is in
    the tool's output; [JNull] is Python's [None]. *)
Record t (F : Type) := mk {
  path : Path;
  duration_s : F;
  sample_rate : option Z;
  channels : option Z;
  codec : json F;
  bit_rate : option Z
}.
Arguments mk {F} path duration_s sample_rate channels codec bit_rate.
Arguments path {F} t.
Arguments duration_s {F} t.
Arguments sample_rate {F} t.
Arguments channels {F} t.
Arguments codec {F} t.
Arguments bit_rate {F} t.
End AudioInfo.

Section Probe.
Context `{Host}.

Definition _run (cmd : list string) : M string :=
  let* p := run_process cmd in
  if negb (returncode p =? 0)
  then raise (FFprobeError (Str.or_ (Str.strip (stderr p)) "ffprobe failed"))
  else ret (stdout p).

Definition ffprobe_cmd (path : Path) : list string :=
  ["ffprobe"; "-v"; "error"; "-print_format"; "json";
   "-show_format"; "-show_streams"; PurePath.str path].

(** [x = None; if key in d: try: x = conv(d[key]) except Exception: x = None] *)
Definition optional_field {A} (conv : Py.value -> option A)
    (d : Py.value) (key : string) : outcome (option A) :=
  let? present := Py.contains key d in
  Returned (if present then Py.try_conv conv (Py.getitem d key) else None).

(** The loop over the streams, lines 63-79: the result is
    [(sr, ch, codec)]. *)
Fixpoint scan_streams (streams : list Py.value)
  : outcome (option Z * option Z * Py.value) :=
  match streams with
  | [] => Returned (None, None, JNull)
  | s :: rest =>
      let? ct := Py.get s "codec_type" JNull in
      if Py.eq_str ct "audio" then
        let? codec := Py.get s "codec_name" JNull in
        let? sr := optional_field Py.int s "sample_rate" in
        let? ch := optional_field Py.int s "channels" in
        Returned (sr, ch, codec)
      else scan_streams rest
  end.

(** [probe_file] from line 46 on: what is made of the parsed output. *)
Definition probe_file_data (path : Path) (data : Py.value)
  : outcome (AudioInfo.t pyfloat) :=
  let? fmt0 := Py.get data "format" JNull in
  let fmt := Py.or_ fmt0 (JObj []) in
  let? duration := optional_field Py.float fmt "duration" in
  match duration with
  | None => Raised (FFprobeError "Could not determine duration")
  | Some duration =>
      let? bit_rate := optional_field Py.int fmt "bit_rate" in
      let? streams := Py.get data "streams" (JArr []) in
      let? l := Py.iter streams in
      let? r := scan_streams l in
      let '(sr, ch, codec) := r in
      Returned (AudioInfo.mk path duration sr ch codec bit_rate)
  end.

Definition loads (raw : string) : outcome Py.value :=
  match json_loads raw with
  | Some data => Returned data
  | None => Raised JSONDecodeError
  end.

Definition probe_file (path : Path) : M (AudioInfo.t pyfloat) :=
  let cmd := ffprobe_cmd path in
  let* raw := _run cmd in
  let* data := lift (loads raw) in
  lift (probe_file_data path data).

Definition probe_files (paths : list Path) : M (list (AudioInfo.t pyfloat)) :=
  collect probe_file paths [].

(** A stream object whose [codec_type] is ["audio"]. *)
Definition is_audio (v : Py.value) : bool :=
  match v with
  | JObj s => Py.eq_str (default JNull (Py.lookup "codec_type" s)) "audio"
  | _ => false
  end.

Definition is_object (v : Py.value) : Prop := exists s, v = JObj s.

(** A stream object of another type (video, subtitle, ...). *)
Definition other_stream (v : Py.value) : Prop :=
  is_object v /\ is_audio v = false.

End Probe.

(** ** [src/app/window.py]: the batch functions and the worker *)

(** [ProgressEvent(idx, total, f"{idx}/{total} {verb} {p.name}")] *)
Definition progress_event (verb : string) (total idx : Z) (p : Path)
  : ProgressEvent :=
  mkProgressEvent idx total
    (Str.of_Z idx +:+ "/" +:+ Str.of_Z total +:+ " " +:+ verb +:+ " "
     +:+ PurePath.name p).

(** The loop both [fn] closures run (ProbeTab._run, ConvertTab._run):
    [for idx, p in enumerate(paths, start=1)] with the operation, the
    append and the progress emission; [idx] is the index of the head of
    [paths], [out] the list built so far. *)
Fixpoint batch_loop {A} (op : Path -> M A) (verb : string) (total idx : Z)
    (paths : list Path) (out : list A) : M (list A) :=
  match paths with
  | [] => ret out
  | p :: rest =>
      let* x := op p in
      let out := out ++ [x] in
      let* _ := emit_progressed (progress_event verb total idx p) in
      batch_loop op verb total (idx + 1) rest out
  end.

Section Batch.
Context {A : Type} (op : Path -> M A) (verb : string).

(** An operation that only adds to the log, and no progress event. *)
Definition quiet : Prop :=
  forall p w o w', op p w = (o, w') ->
    exists d, extends w w' d /\ progress_of d = [].

(** [x] is what the operation returns for [p] in some world. *)
Definition produced (p : Path) (x : A) : Prop :=
  exists wi wi', op p wi = (Returned x, wi').

(** The events of a complete pass over [paths], the first item having
    index [idx]. *)
Fixpoint events (total idx : Z) (paths : list Path) : list ProgressEvent :=
  match paths with
  | [] => []
  | p :: rest => progress_event verb total idx p :: events total (idx + 1) rest
  end.

(** Every item of [paths] succeeds when its turn comes: the operation
    returns for the head in the world [w], and so on for the rest in the
    world left by the head and its progress event. *)
Inductive succeed_in_turn (total : Z) : Z -> list Path -> World -> Prop :=
| succeed_nil idx w : succeed_in_turn total idx [] w
| succeed_cons idx p rest w x w1 :
    op p w = (Returned x, w1) ->
    succeed_in_turn total (idx + 1) rest
      (record (Progressed (progress_event verb total idx p)) w1) ->
    succeed_in_turn total idx (p :: rest) w.

End Batch.

(** The progress events of a complete pass over [paths]: one per item, the
    [i]-th (from 0) being the event of item [i] with [done = i + 1] and
    [total] the number of items, the last one with [done = total]. *)
Definition ordered_progress (verb : string) (paths : list Path)
    (evs : list ProgressEvent) : Prop :=
  let n := Z.of_nat (length paths) in
  length evs = length paths
  /\ (forall i p, paths !! i = Some p ->
      evs !! i = Some (progress_event verb n (Z.of_nat i + 1) p))
  /\ (forall i ev, evs !! i = Some ev -> done ev = Z.of_nat i + 1 /\ total ev = n)
  /\ (exists ev, last evs = Some ev /\ done ev = n /\ total ev = n).

Section Window.
Context `{Host}.

(** [fn] of ProbeTab._run, for the captured [paths]. *)
Definition ProbeTab_fn (paths : list Path) : M (list (AudioInfo.t pyfloat)) :=
  let total := Z.of_nat (length paths) in
  batch_loop probe_file "Probed" total 1 paths [].

(** [fn] of ConvertTab._run, for the captured [paths] and [opts]. *)
Definition ConvertTab_fn (paths : list Path) (opts : ConvertOptions)
  : M (list Path) :=
  let total := Z.of_nat (length paths) in
  batch_loop (fun p => convert_file p opts) "Converted" total 1 paths [].

End Window.

(** What a job emits: progress events on the controller's [progressed]
    signal, and the worker's [finished(result, error)]. *)
Inductive emission (R : Type) :=
| Emit_progressed (ev : ProgressEvent)
| Emit_finished (result : option R) (error : option exn).
Arguments Emit_progressed {R} ev.
Arguments Emit_finished {R} result error.

(** The [finished] emission that reports an outcome. *)
Definition outcome_emission {R} (o : outcome R) : emission R :=
  match o with
  | Returned out => Emit_finished (Some out) None
  | Raised e => Emit_finished None (Some e)
  end.

(** [Worker.run]: the signals emitted while it runs [fn] in world [w], in
    order, and the world afterwards.  [except Exception] catches every
    [exn]. *)
Definition Worker_run {R} (fn : M R) (w : World) : list (emission R) * World :=
  match fn w with
  | (Returned out, w') =>
      (map Emit_progressed (progress_of (since w w'))
         ++ [Emit_finished (Some out) None], w')
  | (Raised e, w') =>
      (map Emit_progressed (progress_of (since w w'))
         ++ [Emit_finished None (Some e)], w')
  end.

(** ** [src/app/window.py]: the job controller

    The controller, the Qt objects it creates, their signal connections and
    the threads of control are a transition system.  A worker thread runs
    one job; what it emits for a receiver that lives in the interactive
    thread is posted to the event queue of that thread, whose loop hands
    the posted calls to their slots one at a time.

    The thread and the worker of a job have no parent, and the
    controller's two fields hold the only references to them.  Qt and
    PySide6 then behave as follows, and the model with them:
    - an object is destroyed when the last reference to it is dropped,
      and by [deleteLater], from the event loop of the thread it lives in;
    - destroying an object removes its connections and the calls queued
      for it;
    - destroying a [QThread] that is still running aborts the process;
    - calling a method of a destroyed object raises [RuntimeError]. *)

Module JobController.

Inductive signal :=
| Thread_started (t : nat)
| Thread_finished (t : nat)
| Worker_progressed (w : nat)
| Worker_finished (w : nat)
| Controller_progressed
| Controller_finished.

Inductive slot :=
| Worker_run_slot (w : nat)        (* w.run *)
| Thread_quit (t : nat)            (* t.quit *)
| Worker_deleteLater (w : nat)
| Thread_deleteLater (t : nat)
| Forward (s : signal)             (* a signal connected to a signal *)
| Tab_on_progress                  (* the tab's _on_progress *)
| Tab_on_finished.                 (* the tab's _on_finished *)

Global Instance signal_eq_dec : EqDecision signal.
Proof. solve_decision. Defined.
Global Instance slot_eq_dec : EqDecision slot.
Proof. solve_decision. Defined.

Definition connection : Type := signal * slot.

(** The objects that send and receive: the thread and the worker of each
    job, named by the number of the job, the controller and the tab. *)
Inductive object :=
| Thread_obj (id : nat)
| Worker_obj (id : nat)
| Controller_obj
| Tab_obj.

Global Instance object_eq_dec : EqDecision object.
Proof. solve_decision. Defined.

Definition sender (sig : signal) : object :=
  match sig with
  | Thread_started t | Thread_finished t => Thread_obj t
  | Worker_progressed w | Worker_finished w => Worker_obj w
  | Controller_progressed | Controller_finished => Controller_obj
  end.

Definition receiver (sl : slot) : object :=
  match sl with
  | Worker_run_slot w | Worker_deleteLater w => Worker_obj w
  | Thread_quit t | Thread_deleteLater t => Thread_obj t
  | Forward sig => sender sig
  | Tab_on_progress | Tab_on_finished => Tab_obj
  end.

(** A connection from or to the object [o]. *)
Definition involves (o : object) (c : connection) : Prop :=
  sender (fst c) = o \/ receiver (snd c) = o.

Global Instance involves_dec o c : Decision (involves o c).
Proof. unfold involves. apply _. Defined.

(** The fields of a [JobController]: references to the thread and the
    worker of a job. *)
Record t := mk { _thread : option nat; _worker : option nat }.

(** A [QThread]: started and not finished yet; finished, the object still
    there; destroyed. *)
Inductive thread_state := Running | Finished | Destroyed.

Global Instance thread_state_eq_dec : EqDecision thread_state.
Proof. solve_decision. Defined.

(** How a call made in the interactive thread ends: it returns, it
    raises [RuntimeError], or the process is aborted under it. *)
Inductive ending := Done | RuntimeError | Aborted.

Section WithResult.
Context {R : Type}.

(** A call on its way to a slot: the job whose emission caused it,
    the slot, and the arguments. *)
Definition call : Type := nat * slot * emission R.

Record System := mkSystem {
  controller : t;
  connections : list connection;
  jobs : list (M R * World);               (* fn of each job started, and the world it runs in *)
  threads : gmap nat thread_state;         (* the thread of each job *)
  workers : gmap nat (list (emission R));  (* what each worker has still to emit *)
  gone : gset nat;                         (* workers destroyed *)
  quit_requested : list nat;               (* threads told to quit *)
  posted : list call;                      (* queue of the interactive thread *)
  delivered : list call;                   (* calls the tab's slots received *)
  aborted : bool                           (* the process was aborted *)
}.

(** The number of jobs started, which names the next one. *)
Definition fresh (s : System) : nat := length (jobs s).

(** A tab connects its two slots to the controller's signals when it
    is built (ProbeTab.__init__, ConvertTab.__init__). *)
Definition init : System :=
  mkSystem (mk None None)
    [(Controller_progressed, Tab_on_progress);
     (Controller_finished, Tab_on_finished)]
    [] ∅ ∅ ∅ [] [] [] false.

Definition targets (conns : list connection) (sig : signal) : list slot :=
  map snd (filter (fun c => fst c = sig) conns).

Definition is_tab_slot (sl : slot) : bool :=
  match sl with
  | Tab_on_progress | Tab_on_finished => true
  | _ => false
  end.

Definition disconnect (o : object) (conns : list connection)
  : list connection :=
  filter (fun c => ~ involves o c) conns.

Definition unpost (o : object) (q : list call) : list call :=
  filter (fun c : call => receiver (snd (fst c)) <> o) q.

(** The object [o] is destroyed. *)
Definition destroy (o : object) (s : System) : System :=
  mkSystem (controller s) (disconnect o (connections s)) (jobs s)
    (match o with
     | Thread_obj th => <[th := Destroyed]> (threads s)
     | _ => threads s
     end)
    (workers s)
    (match o with
     | Worker_obj w => {[w]} ∪ gone s
     | _ => gone s
     end)
    (quit_requested s) (unpost o (posted s)) (delivered s) (aborted s).

(** The process is aborted. *)
Definition abort (s : System) : System :=
  mkSystem (controller s) (connections s) (jobs s) (threads s) (workers s)
    (gone s) (quit_requested s) (posted s) (delivered s) true.

(** [th.quit()] *)
Definition quit (th : nat) (s : System) : System :=
  mkSystem (controller s) (connections s) (jobs s) (threads s) (workers s)
    (gone s) (quit_requested s ++ [th]) (posted s) (delivered s) (aborted s).

(** The thread [th] is destroyed, by [deleteLater] or with the last
    reference to it. *)
Definition destroy_thread (th : nat) (s : System) : System :=
  match threads s !! th with
  | Some Running => abort s
  | _ => destroy (Thread_obj th) s
  end.

(** [self._worker = None]: the last reference to the worker goes. *)
Definition release_worker (s : System) : System :=
  match _worker (controller s) with
  | Some w => if decide (w ∈ gone s) then s else destroy (Worker_obj w) s
  | None => s
  end.

Definition clear (s : System) : System :=
  mkSystem (mk None None) (connections s) (jobs s) (threads s) (workers s)
    (gone s) (quit_requested s) (posted s) (delivered s) (aborted s).

(** [JobController.stop], lines 79 to 83: [quit()] on the thread if
    there is one, then the two references are dropped.  A running thread
    does not end between the two statements: [quit()] only asks its event
    loop to return.  A thread that has ended and is not destroyed yet is
    destroyed with its reference, which does no harm. *)
Definition stop (s : System) : ending * System :=
  match _thread (controller s) with
  | None => (Done, clear (release_worker s))
  | Some th =>
      match threads s !! th with
      | Some Running => (Aborted, abort (quit th s))
      | Some Finished =>
          (Done, clear (release_worker (destroy (Thread_obj th) (quit th s))))
      | _ => (RuntimeError, s)
      end
  end.

(** The connections [start] makes for job [id], lines 69 to 74. *)
Definition job_connections (id : nat) : list connection :=
  [(Thread_started id, Worker_run_slot id);
   (Worker_progressed id, Forward Controller_progressed);
   (Worker_finished id, Forward Controller_finished);
   (Worker_finished id, Thread_quit id);
   (Worker_finished id, Worker_deleteLater id);
   (Thread_finished id, Thread_deleteLater id)].

(** [JobController.start(fn)], lines 64 to 77; [fn] will run in the world
    [w].  What [stop] raises passes through.  [t.start()] makes the new
    thread run [w.run], which will emit what [Worker.run] emits for
    [fn]. *)
Definition start (fn : M R) (w : World) (s : System) : ending * System :=
  match stop s with
  | (Done, s1) =>
      let id := fresh s1 in
      (Done,
       mkSystem (mk (Some id) (Some id))
         (connections s1 ++ job_connections id)
         (jobs s1 ++ [(fn, w)])
         (<[id := Running]> (threads s1))
         (<[id := fst (Worker_run fn w)]> (workers s1))
         (gone s1) (quit_requested s1) (posted s1) (delivered s1)
         (aborted s1))
  | r => r
  end.

(** The signal an emission of job [id] is made on: [fn] emits on the
    controller's own [progressed], [Worker.run] on the worker's
    [finished]. *)
Definition signal_of (id : nat) (e : emission R) : signal :=
  match e with
  | Emit_progressed _ => Controller_progressed
  | Emit_finished _ _ => Worker_finished id
  end.

(** A slot of an object that lives in another thread than the worker of
    job [id]: the call is queued.  Only the worker itself lives in its
    thread. *)
Definition queued_from (id : nat) (sl : slot) : Prop :=
  receiver sl <> Worker_obj id.

Global Instance queued_from_dec id sl : Decision (queued_from id sl).
Proof. unfold queued_from. apply _. Defined.

(** The worker of job [id] makes its next emission: one call per
    connected slot is posted to the interactive thread.  Its own
    [deleteLater] is called at once and takes effect when [run] has
    returned, see [thread_step]. *)
Definition worker_step (id : nat) (s : System) : System :=
  match threads s !! id, workers s !! id with
  | Some Running, Some (e :: rest) =>
      mkSystem (controller s) (connections s) (jobs s) (threads s)
        (<[id := rest]> (workers s)) (gone s) (quit_requested s)
        (posted s ++
           map (fun sl => (id, sl, e))
               (filter (queued_from id)
                       (targets (connections s) (signal_of id e))))
        (delivered s) (aborted s)
  | _, _ => s
  end.

(** The event loop of the thread of job [id] has control again, [run]
    having returned: it destroys the worker if [deleteLater] was called
    on it, and else ends the thread if that was told to quit.  The
    thread's [finished] is connected to its own [deleteLater], see
    [reap]. *)
Definition thread_step (id : nat) (s : System) : System :=
  match threads s !! id, workers s !! id with
  | Some Running, Some [] =>
      if decide ((id ∉ gone s)
                 /\ (Worker_finished id, Worker_deleteLater id) ∈ connections s)
      then destroy (Worker_obj id) s
      else if decide (id ∈ quit_requested s)
      then mkSystem (controller s) (connections s) (jobs s)
             (<[id := Finished]> (threads s)) (workers s) (gone s)
             (quit_requested s) (posted s) (delivered s) (aborted s)
      else s
  | _, _ => s
  end.

(** The interactive thread handles the [deleteLater] that the [finished]
    signal of the thread of job [id] has called: the thread object is
    destroyed.  This touches nothing but the thread's own connections, so
    its order among the calls still queued does not matter. *)
Definition reap (id : nat) (s : System) : System :=
  match threads s !! id with
  | Some Finished =>
      if decide ((Thread_finished id, Thread_deleteLater id) ∈ connections s)
      then destroy (Thread_obj id) s
      else s
  | _ => s
  end.

(** The interactive thread handles the oldest posted call. *)
Definition dispatch (s : System) : System :=
  match posted s with
  | [] => s
  | (id, sl, e) :: rest =>
      let s' := mkSystem (controller s) (connections s) (jobs s) (threads s)
                  (workers s) (gone s) (quit_requested s) rest (delivered s)
                  (aborted s) in
      match sl with
      | Tab_on_progress | Tab_on_finished =>
          mkSystem (controller s') (connections s') (jobs s') (threads s')
            (workers s') (gone s') (quit_requested s') (posted s')
            (delivered s' ++ [(id, sl, e)]) (aborted s')
      | Forward sig =>
          mkSystem (controller s') (connections s') (jobs s') (threads s')
            (workers s') (gone s') (quit_requested s') (posted s')
            (delivered s' ++
               map (fun sl' => (id, sl', e))
                   (filter (fun sl' => is_tab_slot sl' = true)
                           (targets (connections s') sig)))
            (aborted s')
      | Thread_quit th => quit th s'
      | Thread_deleteLater th => destroy_thread th s'
      | Worker_deleteLater w => destroy (Worker_obj w) s'
      | Worker_run_slot _ => s'
      end
  end.

Inductive action :=
| Start (fn : M R) (w : World)   (* controller.start(fn); fn will run in w *)
| Stop                           (* controller.stop() *)
| WorkerStep (id : nat)
| ThreadStep (id : nat)
| Dispatch
| Reap (id : nat).

(** Nothing happens in a process that was aborted. *)
Definition step (s : System) (a : action) : System :=
  if aborted s then s
  else match a with
       | Start fn w => snd (start fn w s)
       | Stop => snd (stop s)
       | WorkerStep id => worker_step id s
       | ThreadStep id => thread_step id s
       | Dispatch => dispatch s
       | Reap id => reap id s
       end.

Definition exec (s : System) (acts : list action) : System :=
  foldl step s acts.

(** Let the interactive thread handle everything posted so far. *)
Definition drain (s : System) : System :=
  exec s (replicate (length (posted s)) Dispatch).

Definition is_finished (e : emission R) : bool :=
  match e with Emit_finished _ _ => true | _ => false end.

(** The tab's slot an emission is meant for. *)
Definition slot_for (e : emission R) : slot :=
  if is_finished e then Tab_on_finished else Tab_on_progress.

(** A call carrying a terminal event of job [id] to slot [sl]. *)
Definition terminal_call (id : nat) (sl : slot) (c : call) : Prop :=
  fst (fst c) = id /\ snd (fst c) = sl /\ is_finished (snd c) = true.

Global Instance terminal_call_dec id sl c : Decision (terminal_call id sl c).
Proof. unfold terminal_call. apply _. Defined.

(** Terminal events of job [id] that reached the tab. *)
Definition terminal_delivered (id : nat) (s : System) : nat :=
  length (filter (terminal_call id Tab_on_finished) (delivered s)).

(** Terminal events of job [id] on their way to the controller's
    [finished] signal. *)
Definition terminal_posted (id : nat) (s : System) : nat :=
  length (filter (terminal_call id (Forward Controller_finished)) (posted s)).

(** Terminal events job [id] has still to emit. *)
Definition terminal_pending (id : nat) (s : System) : nat :=
  match workers s !! id with
  | Some l => length (filter (fun e => is_finished e = true) l)
  | None => O
  end.

Definition finished_p (e : emission R) : Prop := is_finished e = true.

Global Instance finished_p_dec e : Decision (finished_p e).
Proof. unfold finished_p. apply _. Defined.

(** What the tab receives when the interactive thread handles a
    call. *)
Definition call_result (conns : list connection) (c : call)
  : list (call) :=
  match snd (fst c) with
  | Tab_on_progress | Tab_on_finished => [c]
  | Forward sig =>
      map (fun sl' => (fst (fst c), sl', snd c))
          (filter (fun sl' => is_tab_slot sl' = true) (targets conns sig))
  | _ => []
  end.

(** The calls the next emission [e] of job [id] posts. *)
Definition calls_of (id : nat) (e : emission R) : list (call) :=
  if is_finished e
  then [(id, Forward Controller_finished, e); (id, Thread_quit id, e)]
  else [(id, Tab_on_progress, e)].

(** [e] is the terminal event of job [id]. *)
Definition job_emission (s : System) (id : nat) (e : emission R) : Prop :=
  exists fn w, jobs s !! id = Some (fn, w)
               /\ e = outcome_emission (fst (fn w)).

Definition posted_ok (s : System) (c : call) : Prop :=
  (fst (fst c) < fresh s)%nat
  /\ (is_finished (snd c) = true ->
      snd (fst c) ∈ [Forward Controller_finished; Thread_quit (fst (fst c))]
      /\ job_emission s (fst (fst c)) (snd c))
  /\ (is_finished (snd c) = false -> snd (fst c) = Tab_on_progress).

Definition delivered_ok (s : System) (c : call) : Prop :=
  (fst (fst c) < fresh s)%nat
  /\ snd (fst c) = slot_for (snd c)
  /\ (is_finished (snd c) = true -> job_emission s (fst (fst c)) (snd c)).

Record inv (s : System) : Prop := mkInv {
  inv_fields : _thread (controller s) = _worker (controller s);
  inv_tracked : forall a, _thread (controller s) = Some a -> S a = fresh s;
  inv_prog : targets (connections s) Controller_progressed = [Tab_on_progress];
  inv_fin : targets (connections s) Controller_finished = [Tab_on_finished];
  inv_wfin : forall id, (id < fresh s)%nat -> id ∉ gone s ->
    threads s !! id = Some Running ->
    targets (connections s) (Worker_finished id)
    = [Forward Controller_finished; Thread_quit id; Worker_deleteLater id];
  inv_wfin_none : forall id, (fresh s <= id)%nat ->
    targets (connections s) (Worker_finished id) = [];
  inv_workers : forall id l, workers s !! id = Some l ->
    exists fn w, jobs s !! id = Some (fn, w)
                 /\ l `suffix_of` fst (Worker_run fn w);
  inv_started : forall id, (id < fresh s)%nat ->
    is_Some (workers s !! id) /\ is_Some (threads s !! id);
  inv_emitting : forall id e rest, workers s !! id = Some (e :: rest) ->
    (id ∉ gone s) /\ threads s !! id = Some Running;
  inv_gone : forall id, id ∈ gone s -> (id < fresh s)%nat;
  inv_posted : Forall (posted_ok s) (posted s);
  inv_delivered : Forall (delivered_ok s) (delivered s);
  inv_count : forall id, (id < fresh s)%nat ->
    (terminal_delivered id s + terminal_posted id s + terminal_pending id s
     = 1)%nat
}.

(** The slots through which an emission travels to the tab. *)
Definition relays (sl : slot) : bool :=
  match sl with
  | Tab_on_progress | Tab_on_finished
  | Forward Controller_progressed | Forward Controller_finished => true
  | _ => false
  end.

(** A call of job [id] that carries an emission towards the tab. *)
Definition carries (id : nat) (c : call) : Prop :=
  fst (fst c) = id /\ relays (snd (fst c)) = true.

Global Instance carries_dec id c : Decision (carries id c).
Proof. unfold carries. apply _. Defined.

(** The emissions of job [id] that the calls [l] carry, in order. *)
Definition carried (id : nat) (l : list call) : list (emission R) :=
  map snd (filter (carries id) l).

(** What the tab has received from job [id], in order. *)
Definition received (id : nat) (s : System) : list (emission R) :=
  map snd (filter (fun c => fst (fst c) = id) (delivered s)).

(** The emissions of every job travel in order: what the tab has received
    from the job, what is queued for it and what the worker has still to
    emit make up what [Worker.run] emits for the job. *)
Definition in_order (s : System) : Prop :=
  forall id fn w, jobs s !! id = Some (fn, w) ->
    exists rest,
      workers s !! id = Some rest
      /\ carried id (delivered s) ++ carried id (posted s) ++ rest
         = fst (Worker_run fn w).

End WithResult.
Arguments System R : clear implicits.
Arguments action R : clear implicits.
End JobController.

(** ** A concrete host, for examples

    Floats are decimal numbers, [json.loads] knows the documents of
    [documents], and the tools fail with ["boom"] on their standard error
    for any command that mentions a path containing ["bad"]. *)

Module Demo.

Record decimal := mkDecimal { mantissa : Z; places : nat }.

Definition parse_decimal (s : string) : option decimal :=
  match Str.split "." (Str.strip s) with
  | [a] => (fun z => mkDecimal z 0) <$> Py.int_of_str a
  | [a; b] =>
      (fun z => mkDecimal z (String.length b)) <$> Py.int_of_str (a +:+ b)
  | _ => None
  end.

Definition dq : string := String "034" EmptyString.
Definition quoted (s : string) : string := dq +:+ s +:+ dq.

(** [json.dumps] with compact separators, for values without floats. *)
Fixpoint dumps (v : json decimal) : string :=
  match v with
  | JNull => "null"
  | JBool b => if b then "true" else "false"
  | JInt z => Str.of_Z z
  | JFloat f => Str.of_Z (mantissa f) +:+ "e-" +:+ Str.of_Z (Z.of_nat (places f))
  | JStr s => quoted s
  | JArr l => "[" +:+ Str.join "," (map dumps l) +:+ "]"
  | JObj d =>
      "{" +:+ Str.join "," (map (fun kv => quoted (fst kv) +:+ ":" +:+ dumps (snd kv)) d)
      +:+ "}"
  end.

(** The document of the specification's round-trip example. *)
Definition doc_audio : json decimal :=
  JObj [("format", JObj [("duration", JStr "12.5")]);
        ("streams", JArr [JObj [("codec_type", JStr "audio");
                                ("sample_rate", JStr "44100");
                                ("channels", JStr "2");
                                ("codec_name", JStr "pcm_s16le")]])].

(** A video stream first, then two audio streams. *)
Definition doc_mixed : json decimal :=
  JObj [("format", JObj [("duration", JStr "3.25"); ("bit_rate", JStr "128000")]);
        ("streams", JArr [JObj [("codec_type", JStr "video");
                                ("codec_name", JStr "h264")];
                          JObj [("codec_type", JStr "audio");
                                ("sample_rate", JStr "n/a");
                                ("channels", JInt 6);
                                ("codec_name", JStr "aac")];
                          JObj [("codec_type", JStr "audio");
                                ("sample_rate", JStr "8000");
                                ("codec_name", JStr "mp3")]])].

(** Streams but no duration. *)
Definition doc_no_duration : json decimal :=
  JObj [("format", JObj [("bit_rate", JStr "128000")]);
        ("streams", JArr [JObj [("codec_type", JStr "audio")]])].

(** Only the duration. *)
Definition doc_bare : json decimal :=
  JObj [("format", JObj [("duration", JInt 7)])].

Definition documents : list (json decimal) :=
  [doc_audio; doc_mixed; doc_no_duration; doc_bare].

Definition loads_known (raw : string) : option (json decimal) :=
  List.find (fun v => String.eqb (dumps v) raw) documents.

(** The tool's standard output for a file, chosen by the file's name. *)
Definition ffprobe_output (file : string) : string :=
  if Str.contains "mixed" file then dumps doc_mixed
  else if Str.contains "nodur" file then dumps doc_no_duration
  else if Str.contains "bare" file then dumps doc_bare
  else dumps doc_audio.

Definition run_tool (w : World) (cmd : list string)
  : outcome CompletedProcess :=
  if existsb (Str.contains "bad") cmd
  then Returned (mkCompletedProcess 1 "" "boom")
  else match cmd with
       | "ffprobe" :: _ =>
           Returned (mkCompletedProcess 0 (ffprobe_output (List.last cmd "")) "")
       | _ => Returned (mkCompletedProcess 0 "" "")
       end.

Definition host : Host := {|
  pyfloat := decimal;
  float_of_str := parse_decimal;
  float_of_int := fun z => Some (mkDecimal z 0);
  int_of_float := fun f => Some (Z.quot (mantissa f) (10 ^ Z.of_nat (places f)));
  float_truthy := fun f => negb (mantissa f =? 0);
  json_loads := loads_known;
  subprocess_run := run_tool
|}.

(** An empty file system and an empty log. *)
Definition w0 : World := mkWorld ∅ ∅ [].

Definition opts_wav : ConvertOptions :=
  mkConvertOptions (PurePath.parse "out") 48000 1 16 false true.

(** The same with a bit depth the tool has no PCM codec for. *)
Definition opts_wav8 : ConvertOptions :=
  mkConvertOptions (PurePath.parse "out") 48000 1 8 false true.

(** Keeping the input's extension, with an unsupported and with a
    supported bit depth. *)
Definition opts_keep8 : ConvertOptions :=
  mkConvertOptions (PurePath.parse "out") 48000 1 8 false false.
Definition opts_keep16 : ConvertOptions :=
  mkConvertOptions (PurePath.parse "out") 48000 1 16 false false.

Definition foo_mp3 : Path := PurePath.parse "foo.mp3".
Definition a_foo_mp3 : Path := PurePath.parse "a/foo.mp3".
Definition b_foo_flac : Path := PurePath.parse "b/foo.flac".
Definition a_bad_mp3 : Path := PurePath.parse "a/bad.mp3".
Definition a_later_mp3 : Path := PurePath.parse "a/later.mp3".
Definition a_mixed_mkv : Path := PurePath.parse "a/mixed.mkv".
Definition a_nodur_mkv : Path := PurePath.parse "a/nodur.mkv".
Definition a_bare_mkv : Path := PurePath.parse "a/bare.mkv".

(** The fields of a JSON object. *)
Definition fields (v : json decimal) : list (string * json decimal) :=
  match v with JObj d => d | _ => [] end.

(** What the tool hands back for a document. *)
Definition printed (v : json decimal) : CompletedProcess :=
  mkCompletedProcess 0 (dumps v) "".

(** What the tool hands back when it fails. *)
Definition boom : CompletedProcess := mkCompletedProcess 1 "" "boom".

(** A batch of three whose second item makes the tool fail. *)
Definition three : list Path := [a_foo_mp3] ++ a_bad_mp3 :: [a_later_mp3].

(** The host whose tools behave as [tool]. *)
Definition host_of (tool : World -> list string -> outcome CompletedProcess)
  : Host := {|
  pyfloat := decimal;
  float_of_str := parse_decimal;
  float_of_int := fun z => Some (mkDecimal z 0);
  int_of_float := fun f => Some (Z.quot (mantissa f) (10 ^ Z.of_nat (places f)));
  float_truthy := fun f => negb (mantissa f =? 0);
  json_loads := loads_known;
  subprocess_run := tool
|}.

(** A tool that prints something that is not JSON. *)
Definition garbling (w : World) (cmd : list string) : outcome CompletedProcess :=
  Returned (mkCompletedProcess 0 "ffprobe version 6" "").

(** A tool that fails and says nothing but a line break. *)
Definition mute (w : World) (cmd : list string) : outcome CompletedProcess :=
  Returned (mkCompletedProcess 1 "" (String "010" EmptyString)).

(** A world where [out] is a regular file. *)
Definition w_file : World := mkWorld ∅ {[PurePath.parse "out"]} [].

(** Two probe jobs, as ProbeTab._run builds them. *)
Definition jobA : M (list (AudioInfo.t decimal)) :=
  @ProbeTab_fn host [a_foo_mp3].
Definition jobB : M (list (AudioInfo.t decimal)) :=
  @ProbeTab_fn host [b_foo_flac].

End Demo.

(** ** [src/app/widgets.py]: the list of input paths *)

Module PathListWidget.

(** A row of the list: its text and whether it is selected. *)
Record item := mkItem { text : string; selected : bool }.

(** The rows in order, and how many times [changed] was emitted. *)
Record t := mk { rows : list item; changed : nat }.

(** [get_paths] *)
Definition get_paths (w : t) : list Path :=
  map (fun it => PurePath.parse (text it)) (rows w).

(** The row [add_paths] makes for a path: [QListWidgetItem(str(p))]. *)
Definition row_of (p : Path) : item := mkItem (PurePath.str p) false.

(** The loop of [add_paths], with its three variables. *)
Fixpoint add_loop (paths : list Path) (existing : gset Path)
    (rows : list item) (changed : bool) : list item * bool :=
  match paths with
  | [] => (rows, changed)
  | p :: rest =>
      if decide (p ∈ existing) then add_loop rest existing rows changed
      else add_loop rest ({[p]} ∪ existing)
             (rows ++ [mkItem (PurePath.str p) false]) true
  end.

(** [add_paths] *)
Definition add_paths (paths : list Path) (w : t) : t :=
  let existing : gset Path := list_to_set (get_paths w) in
  let r := add_loop paths existing (rows w) false in
  mk (fst r) (if snd r then S (changed w) else changed w).

(** [dropEvent] for an event that has URLs: [local_files] is what
    [toLocalFile] gives for each of them, in order. *)
Definition dropEvent (local_files : list string) (w : t) : t :=
  add_paths (map PurePath.parse (filter (fun p => p <> "") local_files)) w.

(** [remove_selected] *)
Definition remove_selected (w : t) : t :=
  mk (filter (fun it => selected it = false) (rows w)) (S (changed w)).

(** [clear_all] *)
Definition clear_all (w : t) : t := mk [] (S (changed w)).

End PathListWidget.

(** ** [src/app/main.py] *)

(** [_patch_path], as a function of the value of [PATH] in the
    environment ([None] when it is not set) to its new value. *)
Definition _patch_path (environ_PATH : option string) : string :=
  let extra := ["/opt/homebrew/bin"; "/usr/local/bin"] in
  let cur := default "" environ_PATH in
  let parts := filter (fun p => p <> "" /\ p ∉ Str.split ":" cur) extra in
  if decide (cur <> "") then Str.join ":" (parts ++ [cur])
  else Str.join ":" parts.

(** ** [src/app/window.py]: the tabs' [_run] *)

(** A call a tab makes on one of its widgets. *)
Inductive ui_call :=
| Warning (title text : string)     (* QMessageBox.warning(self, title, text) *)
| Progress_setValue (v : Z)         (* self.progress.setValue(v) *)
| Table_setRowCount (n : nat)       (* self.table.setRowCount(n) *)
| Log (text : string).              (* self.logbox.log(text) *)

(** [ProbeTab._add_files] and [ConvertTab._add_files]; [files] is the
    selection the file dialog returns. *)
Definition _add_files (files : list string) (inputs : PathListWidget.t)
  : PathListWidget.t :=
  PathListWidget.add_paths (map PurePath.parse files) inputs.

Module ProbeTab.
Section WithHost.
Context `{Host}.

(** [ProbeTab._run] for the list in [inputs]: the calls it makes, and the
    function it hands to [controller.start], if any. *)
Definition _run (inputs : PathListWidget.t)
  : list ui_call * option (M (list (AudioInfo.t pyfloat))) :=
  let paths := PathListWidget.get_paths inputs in
  match paths with
  | [] => ([Warning "Missing input" "Add at least one audio file."], None)
  | _ =>
      ([Progress_setValue 0; Table_setRowCount 0; Log "Probing..."],
       Some (ProbeTab_fn paths))
  end.

End WithHost.
End ProbeTab.

Module ConvertTab.

(** What [ConvertTab._run] reads from the widgets. *)
Record t := mk {
  inputs : PathListWidget.t;
  out_dir_text : string;        (* self.out_dir.text() *)
  sample_rate_value : Z;        (* self.sample_rate.value() *)
  channels_value : Z;           (* self.channels.value() *)
  bit_depth_value : Z;          (* self.bit_depth.value() *)
  overwrite_isChecked : bool    (* self.overwrite.isChecked() *)
}.

(** The options [_run] builds. *)
Definition options (tab : t) : ConvertOptions :=
  mkConvertOptions (PurePath.parse (Str.strip (out_dir_text tab)))
    (sample_rate_value tab) (channels_value tab) (bit_depth_value tab)
    (overwrite_isChecked tab) true.

Section WithHost.
Context `{Host}.

(** [ConvertTab._run]: the calls it makes, and the function it hands to
    [controller.start], if any. *)
Definition _run (tab : t) : list ui_call * option (M (list Path)) :=
  let paths := PathListWidget.get_paths (inputs tab) in
  match paths with
  | [] => ([Warning "Missing input" "Add at least one audio file."], None)
  | _ =>
      let out_dir_str := Str.strip (out_dir_text tab) in
      if String.eqb out_dir_str ""
      then ([Warning "Missing output" "Choose an output folder."], None)
      else ([Progress_setValue 0; Log "Converting..."],
            Some (ConvertTab_fn paths (options tab)))
  end.

End WithHost.
End ConvertTab.

(** ** Inputs of the tabs, for the examples *)

Module DemoUI.

(** A list holding [a/foo.mp3] and [b/foo.flac], the second row
    selected. *)
Definition list_ab : PathListWidget.t :=
  PathListWidget.mk
    [PathListWidget.mkItem "a/foo.mp3" false;
     PathListWidget.mkItem "b/foo.flac" true] 0.

(** The convert tab with that list, the folder [out] typed with blanks
    around it, and a bit depth of 16. *)
Definition tab16 : ConvertTab.t :=
  ConvertTab.mk list_ab " out " 48000 1 16 false.

(** The same with a bit depth of 20, which the spin box accepts. *)
Definition tab20 : ConvertTab.t :=
  ConvertTab.mk list_ab " out " 48000 1 20 false.

(** Output whose [format] entry is a string, and a host whose tool
    prints it. *)
Definition doc_format_text : json Demo.decimal :=
  JObj [("format", JStr "duration")].

Definition host_text : Host := {|
  pyfloat := Demo.decimal;
  float_of_str := Demo.parse_decimal;
  float_of_int := fun z => Some (Demo.mkDecimal z 0);
  int_of_float := fun f =>
    Some (Z.quot (Demo.mantissa f) (10 ^ Z.of_nat (Demo.places f)));
  float_truthy := fun f => negb (Demo.mantissa f =? 0);
  json_loads := fun _ => Some doc_format_text;
  subprocess_run := Demo.garbling
|}.

(** One job from its start to the end of its thread: the worker emits
    its progress event and its completion, the interactive thread handles
    the calls, and the worker and then the thread are destroyed. *)
Definition run1 : list (JobController.action (list (AudioInfo.t Demo.decimal))) :=
  [JobController.Start Demo.jobA Demo.w0;
   JobController.WorkerStep 0;
   JobController.Dispatch;
   JobController.WorkerStep 0;
   JobController.Dispatch;
   JobController.Dispatch;
   JobController.ThreadStep 0;
   JobController.ThreadStep 0;
   JobController.Reap 0].

(** A job that has reported its progress and not yet its completion. *)
Definition run_busy : list (JobController.action (list (AudioInfo.t Demo.decimal))) :=
  [JobController.Start Demo.jobA Demo.w0;
   JobController.WorkerStep 0;
   JobController.Dispatch].

End DemoUI.

(** * Properties *)

(** ** Paths and strings *)

Lemma prefixes_self (l : list string) : l ∈ PurePath.prefixes l.
Proof.
  induction l as [|x l IH]; simpl.
  - apply list_elem_of_singleton. reflexivity.
  - right. apply list_elem_of_fmap. exists l. split; [reflexivity | exact IH].
Qed.

Lemma chain_self (p : Path) : p ∈ PurePath.chain p.
Proof.
  unfold PurePath.chain. apply list_elem_of_fmap. exists (parts p).
  split; [by destruct p | apply prefixes_self].
Qed.

Lemma contains_prefix (sub s : string) :
  String.prefix sub s = true -> Str.contains sub s = true.
Proof.
  intros Hp.
  assert (E : Str.contains sub s
              = String.prefix sub s
                || match s with
                   | EmptyString => false
                   | String _ r => Str.contains sub r
                   end) by (destruct s; reflexivity).
  rewrite E, Hp. reflexivity.
Qed.

Lemma prefix_refl (s : string) : String.prefix s s = true.
Proof.
  induction s as [|c s IH]; simpl; [reflexivity|].
  destruct (Ascii.ascii_dec c c); [exact IH | congruence].
Qed.

Lemma contains_refl (s : string) : Str.contains s s = true.
Proof. apply contains_prefix, prefix_refl. Qed.

Lemma contains_empty (s : string) : Str.contains "" s = true.
Proof. apply contains_prefix. destruct s; reflexivity. Qed.

(** The message built from a tool's standard error holds that text,
    stripped of surrounding white space. *)
Lemma message_contains_stderr (err fallback : string) :
  Str.contains (Str.strip err) (Str.or_ (Str.strip err) fallback) = true.
Proof.
  destruct (Str.strip err) eqn:E; simpl Str.or_.
  - apply contains_empty.
  - apply contains_refl.
Qed.

(** ** The effect log only grows *)

Lemma since_extends (w w' : World) (d : list effect) :
  extends w w' d -> since w w' = d.
Proof.
  unfold extends, since. intros ->. by rewrite drop_app_length.
Qed.

Lemma extends_trans (w1 w2 w3 : World) (d1 d2 : list effect) :
  extends w1 w2 d1 -> extends w2 w3 d2 -> extends w1 w3 (d1 ++ d2).
Proof. unfold extends. intros H1 H2. rewrite H2, H1. by rewrite <- app_assoc. Qed.

Lemma extends_record (e : effect) (w : World) : extends w (record e w) [e].
Proof. reflexivity. Qed.

(** ** [convert_file], case by case *)

Section ConvertFacts.
Context `{Host}.

Lemma mkdir_eq (p : Path) (w : World) :
  mkdir p w = if bool_decide (blocked p w)
              then (Raised (OSError "mkdir"), record (Mkdir p) w)
              else (Returned tt, made p w).
Proof. reflexivity. Qed.

Lemma convert_file_eq (in_path : Path) (opts : ConvertOptions) (w : World) :
  convert_file in_path opts w =
    if bool_decide (blocked (out_dir opts) w)
    then (Raised (OSError "mkdir"), record (Mkdir (out_dir opts)) w)
    else
      let w1 := made (out_dir opts) w in
      match codec_arg in_path opts with
      | Raised e => (Raised e, w1)
      | Returned c =>
          let cmd := ffmpeg_cmd in_path opts c in
          let w2 := record (Spawn cmd) w1 in
          match subprocess_run w1 cmd with
          | Raised e => (Raised e, w2)
          | Returned p =>
              if negb (returncode p =? 0)
              then (Raised (FFmpegError
                              (Str.or_ (Str.strip (stderr p)) "ffmpeg failed")), w2)
              else (Returned (out_path_of in_path opts), w2)
          end
      end.
Proof.
  unfold convert_file, bind. rewrite mkdir_eq.
  destruct (bool_decide (blocked (out_dir opts) w)); [reflexivity|].
  unfold codec_arg, ffmpeg_cmd, lift, ret, run_process, raise.
  destruct (String.eqb (Str.lower (out_ext_of in_path opts)) ".wav").
  - destruct (_pcm_codec (bit_depth opts)) as [c|e]; [|reflexivity].
    cbv zeta.
    destruct (subprocess_run _ _) as [p|e]; [|reflexivity].
    destruct (negb (returncode p =? 0)); reflexivity.
  - cbv zeta.
    destruct (subprocess_run _ _) as [p|e]; [|reflexivity].
    destruct (negb (returncode p =? 0)); reflexivity.
Qed.

Lemma pcm_codec_valid (bd : Z) :
  _pcm_codec bd =
    if bd =? 16 then Returned "pcm_s16le"
    else if bd =? 24 then Returned "pcm_s24le"
    else if bd =? 32 then Returned "pcm_s32le"
    else Raised (ValueError "bit_depth must be one of 16, 24, 32").
Proof.
  unfold _pcm_codec.
  destruct (Z.eqb_spec bd 16) as [->|H16]; [reflexivity|].
  destruct (Z.eqb_spec bd 24) as [->|H24]; [reflexivity|].
  destruct (Z.eqb_spec bd 32) as [->|H32]; [reflexivity|].
  rewrite !lookup_insert_ne by congruence.
  rewrite lookup_singleton_ne by congruence. reflexivity.
Qed.

(** [convert_file] only adds to the log, and no progress event. *)
Lemma convert_file_extends (in_path : Path) (opts : ConvertOptions)
    (w w' : World) (o : outcome Path) :
  convert_file in_path opts w = (o, w') ->
  exists d, extends w w' (Mkdir (out_dir opts) :: d) /\ progress_of d = []
            /\ (d = [] \/ exists cmd, d = [Spawn cmd]).
Proof.
  rewrite convert_file_eq.
  destruct (bool_decide _).
  { intros [= <- <-]. exists []. repeat split; auto. }
  cbv zeta.
  destruct (codec_arg in_path opts) as [c|e].
  2:{ intros [= <- <-]. exists []. repeat split; auto. }
  assert (Hx : extends w (record (Spawn (ffmpeg_cmd in_path opts c))
                            (made (out_dir opts) w))
                 (Mkdir (out_dir opts) :: [Spawn (ffmpeg_cmd in_path opts c)])).
  { unfold extends. simpl. by rewrite <- app_assoc. }
  destruct (subprocess_run _ _) as [p|e].
  2:{ intros [= <- <-]. eexists. repeat split; eauto. }
  destruct (negb _); intros [= <- <-]; eexists; repeat split; eauto.
Qed.

End ConvertFacts.

(** ** File names *)

Module NameFacts.

Lemma append_cons (a : ascii) (x y : string) :
  String a x +:+ y = String a (x +:+ y).
Proof. reflexivity. Qed.

Lemma mem_app (c : ascii) (a b : string) :
  Str.mem c (a +:+ b) = Str.mem c a || Str.mem c b.
Proof.
  induction a as [|x a IH]; [reflexivity|].
  rewrite append_cons. simpl. rewrite IH. by rewrite orb_assoc.
Qed.

Lemma length_app (a b : string) :
  String.length (a +:+ b) = (String.length a + String.length b)%nat.
Proof.
  induction a as [|x a IH]; [reflexivity|].
  rewrite append_cons. simpl. by rewrite IH.
Qed.

Lemma append_empty_r (s : string) : s +:+ "" = s.
Proof.
  induction s as [|a s IH]; [reflexivity|].
  rewrite append_cons. by rewrite IH.
Qed.

Lemma split_no_sep (c : ascii) (s : string) :
  Str.mem c s = false -> Str.split c s = [s].
Proof.
  induction s as [|a s IH]; simpl; [reflexivity|].
  intros Hm. apply orb_false_iff in Hm as [Ha Hs].
  rewrite Ha, (IH Hs). reflexivity.
Qed.

Lemma parse_component (s : string) :
  PurePath.component s -> PurePath.parse s = mkPath "" [s].
Proof.
  intros (Hne & Hdot & Hm). unfold PurePath.parse.
  rewrite (split_no_sep _ _ Hm).
  assert (Hl : PurePath.leading_slashes s = O).
  { destruct s as [|a s]; [reflexivity|]. simpl in *.
    apply orb_false_iff in Hm as [-> _]. reflexivity. }
  rewrite Hl. f_equal.
  rewrite filter_cons, filter_nil. by rewrite decide_True.
Qed.

Lemma joinpath_component (p : Path) (s : string) :
  PurePath.component s -> PurePath.joinpath p s = mkPath (root p) (parts p ++ [s]).
Proof.
  intros Hs. unfold PurePath.joinpath. by rewrite (parse_component s Hs).
Qed.

Lemma name_snoc (r : string) (l : list string) (s : string) :
  PurePath.name (mkPath r (l ++ [s])) = s.
Proof. unfold PurePath.name. simpl. apply last_last. Qed.

Lemma parent_snoc (p : Path) (s : string) :
  PurePath.parent (mkPath (root p) (parts p ++ [s])) = p.
Proof.
  unfold PurePath.parent. simpl. rewrite removelast_last. by destruct p.
Qed.

Lemma substring_all (s : string) :
  String.substring 0 (String.length s) s = s.
Proof. induction s as [|a s IH]; simpl; [reflexivity | by rewrite IH]. Qed.

Lemma substring_split (s : string) (n : nat) :
  (n <= String.length s)%nat ->
  String.substring 0 n s +:+ String.substring n (String.length s - n) s = s.
Proof.
  revert n. induction s as [|a s IH]; intros [|n] Hn.
  - reflexivity.
  - simpl in Hn. lia.
  - rewrite Nat.sub_0_r, substring_all. reflexivity.
  - simpl in Hn. simpl. rewrite append_cons. f_equal. apply IH. lia.
Qed.

Lemma substring_app_r (a b : string) :
  String.substring (String.length a) (String.length b) (a +:+ b) = b.
Proof.
  induction a as [|x a IH].
  - change ("" +:+ b) with b. apply substring_all.
  - rewrite append_cons. simpl. exact IH.
Qed.

Lemma substring_app_l (a b : string) :
  String.substring 0 (String.length a) (a +:+ b) = a.
Proof.
  induction a as [|x a IH].
  - change ("" +:+ b) with b. by destruct b.
  - rewrite append_cons. simpl. by rewrite IH.
Qed.

Lemma rfind_bounds (c : ascii) (s : string) :
  -1 <= Str.rfind c s < Str.len s.
Proof.
  unfold Str.len. induction s as [|a s IH]; simpl String.length; simpl Str.rfind.
  - lia.
  - destruct (Z.leb_spec 0 (Str.rfind c s)); [lia|].
    destruct (Ascii.eqb a c); lia.
Qed.

Lemma rfind_app (c : ascii) (a b : string) :
  0 <= Str.rfind c b -> Str.rfind c (a +:+ b) = Str.len a + Str.rfind c b.
Proof.
  intros Hb. unfold Str.len.
  induction a as [|x a IH].
  - change ("" +:+ b) with b. simpl. lia.
  - rewrite append_cons. simpl String.length. simpl Str.rfind. rewrite IH.
    destruct (Z.leb_spec 0 (Z.of_nat (String.length a) + Str.rfind c b)); lia.
Qed.

(** [p.stem + p.suffix == p.name] *)
Lemma stem_suffix (p : Path) :
  PurePath.stem p +:+ PurePath.suffix p = PurePath.name p.
Proof.
  unfold PurePath.stem, PurePath.suffix.
  set (nm := PurePath.name p).
  pose proof (rfind_bounds PurePath.dot nm) as Hb.
  destruct ((0 <? Str.rfind PurePath.dot nm)
            && (Str.rfind PurePath.dot nm <? Str.len nm - 1)) eqn:E.
  - unfold Str.upto, Str.from. apply substring_split.
    unfold Str.len in *. lia.
  - apply append_empty_r.
Qed.

(** A name made of a non-empty stem and [".wav"] has that stem and that
    suffix. *)
Lemma wav_name (r : string) (l : list string) (s : string) :
  s <> "" ->
  let p := mkPath r (l ++ [s +:+ ".wav"]) in
  PurePath.suffix p = ".wav" /\ PurePath.stem p = s.
Proof.
  intros Hs p. unfold PurePath.suffix, PurePath.stem.
  subst p. rewrite name_snoc.
  rewrite (rfind_app PurePath.dot s ".wav") by (vm_compute; congruence).
  change (Str.rfind PurePath.dot ".wav") with 0. rewrite Z.add_0_r.
  assert (Hl : 0 < Str.len s).
  { unfold Str.len. destruct s; [congruence | simpl; lia]. }
  assert (Hc : (0 <? Str.len s) && (Str.len s <? Str.len (s +:+ ".wav") - 1) = true).
  { apply andb_true_iff. split; [apply Z.ltb_lt; lia|].
    apply Z.ltb_lt. unfold Str.len in *. rewrite length_app. simpl. lia. }
  rewrite Hc. unfold Str.from, Str.upto, Str.len. rewrite Nat2Z.id.
  split.
  - rewrite length_app.
    replace (String.length s + String.length ".wav" - String.length s)%nat
      with (String.length ".wav") by lia.
    apply substring_app_r.
  - apply substring_app_l.
Qed.

End NameFacts.

(** ** The batch loop *)

Section BatchFacts.
Context {A : Type} (op : Path -> M A) (verb : string).

Lemma progress_of_app (d1 d2 : list effect) :
  progress_of (d1 ++ d2) = progress_of d1 ++ progress_of d2.
Proof. apply omap_app. Qed.

Lemma batch_loop_returned (total : Z) (paths : list Path) :
  quiet op ->
  forall idx out w res w',
    batch_loop op verb total idx paths out w = (Returned res, w') ->
    exists xs d,
      res = out ++ xs /\ Forall2 (produced op) paths xs
      /\ extends w w' d /\ progress_of d = events verb total idx paths.
Proof.
  intros Hq. induction paths as [|p rest IH]; intros idx out w res w'.
  - intros [= <- <-]. exists [], []. rewrite app_nil_r.
    repeat split; [constructor | unfold extends; by rewrite app_nil_r].
  - simpl. unfold bind at 1.
    destruct (op p w) as [[x|e] w1] eqn:Hop; [|discriminate].
    unfold bind at 1. unfold emit_progressed at 1.
    intros Hrest. apply IH in Hrest as (xs & d & -> & Hxs & Hd & Hev).
    destruct (Hq _ _ _ _ Hop) as (d1 & Hd1 & Hp1).
    exists (x :: xs), (d1 ++ [Progressed (progress_event verb total idx p)] ++ d).
    repeat split.
    + by rewrite <- app_assoc.
    + constructor; [by exists w, w1 | exact Hxs].
    + eapply extends_trans; [exact Hd1|].
      eapply extends_trans; [apply extends_record | exact Hd].
    + rewrite !progress_of_app, Hp1, Hev. reflexivity.
Qed.

(** The loop over a list whose item [p] fails after the items of [pre]
    succeeded: the failure of [p] is the outcome, in the very world
    where [p] failed. *)
Lemma batch_loop_raised (total : Z) (pre : list Path) (p : Path)
    (post : list Path) (e : exn) :
  forall idx out w out' wk w',
    batch_loop op verb total idx pre out w = (Returned out', wk) ->
    op p wk = (Raised e, w') ->
    batch_loop op verb total idx (pre ++ p :: post) out w = (Raised e, w').
Proof.
  induction pre as [|q pre IH]; intros idx out w out' wk w'.
  - intros [= <- <-] Hop. simpl. unfold bind at 1. by rewrite Hop.
  - simpl. unfold bind at 1 3.
    destruct (op q w) as [[x|e'] w1]; [|discriminate].
    unfold bind at 1 2. unfold emit_progressed at 1 2.
    intros Hpre Hop. eapply IH; eauto.
Qed.

(** When every item succeeds in its turn, the loop returns. *)
Lemma batch_loop_total (total : Z) (paths : list Path) :
  forall idx out w,
    succeed_in_turn op verb total idx paths w ->
    exists res w', batch_loop op verb total idx paths out w = (Returned res, w').
Proof.
  intros idx out w Hs. revert out.
  induction Hs as [idx w | idx p rest w x w1 Hop _ IH]; intros out.
  - by exists out, w.
  - destruct (IH (out ++ [x])) as (res & w' & Hr). exists res, w'.
    simpl. unfold bind at 1. rewrite Hop.
    unfold bind at 1. unfold emit_progressed at 1. exact Hr.
Qed.

Lemma events_length (total idx : Z) (paths : list Path) :
  length (events verb total idx paths) = length paths.
Proof.
  revert idx. induction paths as [|p rest IH]; intros idx; simpl;
    [reflexivity | by rewrite IH].
Qed.

Lemma events_lookup (total : Z) (paths : list Path) :
  forall idx i p,
    paths !! i = Some p ->
    events verb total idx paths !! i
    = Some (progress_event verb total (idx + Z.of_nat i) p).
Proof.
  induction paths as [|q rest IH]; intros idx i p; [by destruct i|].
  destruct i as [|i]; simpl.
  - intros [= ->]. by rewrite Z.add_0_r.
  - intros Hi. rewrite (IH _ _ _ Hi). do 2 f_equal. lia.
Qed.

Lemma collect_returned (paths : list Path) :
  forall out w res w',
    collect op paths out w = (Returned res, w') ->
    exists xs, res = out ++ xs /\ Forall2 (produced op) paths xs.
Proof.
  induction paths as [|p rest IH]; intros out w res w'.
  - intros [= <- <-]. exists []. rewrite app_nil_r. split; [done | constructor].
  - simpl. unfold bind at 1.
    destruct (op p w) as [[x|e] w1] eqn:Hop; [|discriminate].
    intros Hrest. apply IH in Hrest as (xs & -> & Hxs).
    exists (x :: xs). split; [by rewrite <- app_assoc|].
    constructor; [by exists w, w1 | exact Hxs].
Qed.

End BatchFacts.

(** ** [probe_file], case by case *)

Section ProbeFacts.
Context `{Host}.

Lemma probe_file_eq (path : Path) (w : World) :
  probe_file path w =
    let cmd := ffprobe_cmd path in
    let w1 := record (Spawn cmd) w in
    match subprocess_run w cmd with
    | Raised e => (Raised e, w1)
    | Returned p =>
        if negb (returncode p =? 0)
        then (Raised (FFprobeError
                        (Str.or_ (Str.strip (stderr p)) "ffprobe failed")), w1)
        else match json_loads (stdout p) with
             | None => (Raised JSONDecodeError, w1)
             | Some data => (probe_file_data path data, w1)
             end
    end.
Proof.
  unfold probe_file, _run, bind, run_process, lift, loads, raise, ret.
  cbv zeta.
  destruct (subprocess_run w (ffprobe_cmd path)) as [p|e]; [|reflexivity].
  destruct (negb (returncode p =? 0)); [reflexivity|].
  destruct (json_loads (stdout p)); reflexivity.
Qed.

Lemma probe_file_quiet : quiet probe_file.
Proof.
  intros p w o w'. rewrite probe_file_eq. cbv zeta. intros Hp.
  exists [Spawn (ffprobe_cmd p)]. split; [|reflexivity].
  destruct (subprocess_run w (ffprobe_cmd p)) as [cp|e].
  - destruct (negb _).
    + injection Hp as <- <-. reflexivity.
    + destruct (json_loads _); injection Hp as <- <-; reflexivity.
  - injection Hp as <- <-. reflexivity.
Qed.

Lemma convert_file_quiet (opts : ConvertOptions) :
  quiet (fun p => convert_file p opts).
Proof.
  intros p w o w' Hc.
  destruct (convert_file_extends _ _ _ _ _ Hc) as (d & Hd & Hp & _).
  exists (Mkdir (out_dir opts) :: d). split; [exact Hd | exact Hp].
Qed.

Lemma optional_field_object {A} (conv : Py.value -> option A)
    (f : list (string * Py.value)) (key : string) :
  optional_field conv (JObj f) key = Returned (Py.lookup key f ≫= conv).
Proof.
  unfold optional_field, Py.contains, Py.getitem, obind.
  destruct (Py.lookup key f) as [v|]; reflexivity.
Qed.

Lemma scan_streams_cons (s : list (string * Py.value)) (rest : list Py.value) :
  scan_streams (JObj s :: rest) =
    if is_audio (JObj s)
    then Returned (Py.lookup "sample_rate" s ≫= Py.int,
                   Py.lookup "channels" s ≫= Py.int,
                   default JNull (Py.lookup "codec_name" s))
    else scan_streams rest.
Proof.
  unfold is_audio. cbn [scan_streams Py.get obind].
  destruct (Py.eq_str _ _); [|reflexivity].
  rewrite !optional_field_object. reflexivity.
Qed.

Lemma scan_streams_first_audio (pre : list Py.value)
    (s : list (string * Py.value)) (post : list Py.value) :
  Forall other_stream pre ->
  is_audio (JObj s) = true ->
  scan_streams (pre ++ JObj s :: post)
  = Returned (Py.lookup "sample_rate" s ≫= Py.int,
              Py.lookup "channels" s ≫= Py.int,
              default JNull (Py.lookup "codec_name" s)).
Proof.
  intros Hpre Ha. induction Hpre as [|v pre [[s' ->] Hv] _ IH].
  - rewrite app_nil_l, scan_streams_cons, Ha. reflexivity.
  - rewrite <- app_comm_cons, scan_streams_cons, Hv. exact IH.
Qed.

Lemma scan_streams_no_audio (l : list Py.value) :
  Forall other_stream l -> scan_streams l = Returned (None, None, JNull).
Proof.
  induction 1 as [|v l [[s' ->] Hv] _ IH]; [reflexivity|].
  rewrite scan_streams_cons, Hv. exact IH.
Qed.

Lemma scan_streams_objects (l : list Py.value) :
  Forall is_object l -> exists r, scan_streams l = Returned r.
Proof.
  induction 1 as [|v l [s' ->] _ IH]; [by eexists|].
  rewrite scan_streams_cons. destruct (is_audio _); [by eexists | exact IH].
Qed.

(** What [probe_file_data] makes of an object whose format object
    (empty when absent or null) is [f]. *)
Lemma probe_file_data_eq (path : Path) (d f : list (string * Py.value)) :
  Py.or_ (default JNull (Py.lookup "format" d)) (JObj []) = JObj f ->
  probe_file_data path (JObj d) =
    match Py.lookup "duration" f ≫= Py.float with
    | None => Raised (FFprobeError "Could not determine duration")
    | Some x =>
        let? l := Py.iter (default (JArr []) (Py.lookup "streams" d)) in
        let? r := scan_streams l in
        Returned (AudioInfo.mk path x (fst (fst r)) (snd (fst r)) (snd r)
                    (Py.lookup "bit_rate" f ≫= Py.int))
    end.
Proof.
  intros Hf. unfold probe_file_data. cbn [Py.get obind].
  unfold Py.value in *. rewrite Hf.
  rewrite optional_field_object. cbn [obind].
  match goal with
  | |- match ?o with _ => _ end = match ?o' with _ => _ end =>
      change o with o'; destruct o' as [x|]; [|reflexivity]
  end.
  rewrite optional_field_object. cbn [obind].
  destruct (Py.iter _) as [l|e]; [|reflexivity]. cbn [obind].
  destruct (scan_streams l) as [[[sr ch] codec]|e]; reflexivity.
Qed.

End ProbeFacts.

(** ** Conversion *)

Section ConvertClaims.
Context `{Host}.

Lemma wav_ext (in_path : Path) (opts : ConvertOptions) :
  force_wav opts = true \/ Str.lower (PurePath.suffix in_path) = ".wav" ->
  String.eqb (Str.lower (out_ext_of in_path opts)) ".wav" = true.
Proof.
  unfold out_ext_of. intros [-> | Hs]; [reflexivity|].
  destruct (force_wav opts); [reflexivity|]. by rewrite Hs.
Qed.

Lemma stem_nonempty (p : Path) : PurePath.name p <> "" -> PurePath.stem p <> "".
Proof.
  unfold PurePath.stem. intros Hn.
  destruct ((0 <? _) && _) eqn:E; [|exact Hn].
  apply andb_true_iff in E as [Hi _]. apply Z.ltb_lt in Hi.
  unfold Str.upto. destruct (PurePath.name p) as [|a s]; [congruence|].
  destruct (Z.to_nat (Str.rfind PurePath.dot (String a s))) eqn:En; [lia|].
  discriminate.
Qed.

Lemma stem_component (p : Path) :
  PurePath.component (PurePath.name p) ->
  PurePath.component (PurePath.stem p +:+ ".wav").
Proof.
  intros (Hne & _ & Hm). pose proof (stem_nonempty p Hne) as Hs.
  assert (Hl : (String.length (PurePath.stem p +:+ ".wav") >= 5)%nat).
  { rewrite NameFacts.length_app. destruct (PurePath.stem p); [congruence|].
    simpl. lia. }
  repeat split.
  - intros E. rewrite E in Hl. simpl in Hl. lia.
  - intros E. rewrite E in Hl. simpl in Hl. lia.
  - rewrite NameFacts.mem_app. rewrite <- (NameFacts.stem_suffix p) in Hm.
    rewrite NameFacts.mem_app in Hm. apply orb_false_iff in Hm as [-> _].
    reflexivity.
Qed.

Lemma convert_file_returns (in_path : Path) (opts : ConvertOptions)
    (w w' : World) (out : Path) :
  convert_file in_path opts w = (Returned out, w') ->
  out = out_path_of in_path opts.
Proof.
  intros Hc.
  rewrite convert_file_eq in Hc. destruct (bool_decide _); [discriminate|].
  cbv zeta in Hc. destruct (codec_arg in_path opts); [|discriminate].
  destruct (subprocess_run _ _) as [p|]; [|discriminate].
  destruct (negb _); [discriminate|]. by injection Hc as <- _.
Qed.

(** C8. Whenever [convert_file] returns, the path it returns is the
    output directory joined with the input's stem followed by [".wav"]
    if [force_wav] is set and by the input's own suffix otherwise.  For
    an input with a file name this path lies directly in the output
    directory; with [force_wav] it has the input's stem and the suffix
    [".wav"], without it the input's name. *)
Theorem convert_file_output_path (in_path : Path) (opts : ConvertOptions)
    (w w' : World) (out : Path) :
  convert_file in_path opts w = (Returned out, w') ->
  out = PurePath.joinpath (out_dir opts)
          (PurePath.stem in_path
           +:+ (if force_wav opts then ".wav" else PurePath.suffix in_path))
  /\ (PurePath.component (PurePath.name in_path) ->
      PurePath.parent out = out_dir opts
      /\ (force_wav opts = true ->
          PurePath.stem out = PurePath.stem in_path
          /\ PurePath.suffix out = ".wav")
      /\ (force_wav opts = false ->
          PurePath.name out = PurePath.name in_path)).
Proof.
  intros Hc.
  pose proof (convert_file_returns _ _ _ _ _ Hc) as Ho.
  split; [exact Ho|]. intros Hn.
  unfold out_path_of, out_ext_of in Ho. destruct (force_wav opts).
  - rewrite (NameFacts.joinpath_component _ _ (stem_component _ Hn)) in Ho.
    subst out. split; [apply NameFacts.parent_snoc|].
    split; [|discriminate]. intros _.
    destruct (NameFacts.wav_name (root (out_dir opts)) (parts (out_dir opts))
                (PurePath.stem in_path)) as [Hsuf Hstem].
    { apply stem_nonempty. apply Hn. }
    split; assumption.
  - rewrite NameFacts.stem_suffix in Ho.
    rewrite (NameFacts.joinpath_component _ _ Hn) in Ho.
    subst out. split; [apply NameFacts.parent_snoc|].
    split; [discriminate|]. intros _. apply NameFacts.name_snoc.
Qed.

(** C9. When [convert_file] fails with the bit-depth error or with a
    tool error, creating the output directory was its first effect
    (anything spawned comes after it), the directory and its ancestors
    exist afterwards and nothing else changed among the directories; a
    rejected bit depth leaves exactly the world [mkdir] made; and if the
    directory did not exist before, the set of directories changed. *)
Theorem convert_file_mkdir_survives_failure (in_path : Path)
    (opts : ConvertOptions) (w w' : World) (e : exn) :
  convert_file in_path opts w = (Raised e, w') ->
  (exists m, e = ValueError m) \/ (exists m, e = FFmpegError m) ->
  (exists rest, since w w' = Mkdir (out_dir opts) :: rest)
  /\ dirs w' = dirs w ∪ list_to_set (PurePath.chain (out_dir opts))
  /\ out_dir opts ∈ dirs w'
  /\ (forall e', codec_arg in_path opts = Raised e' ->
      e = e' /\ w' = made (out_dir opts) w)
  /\ (out_dir opts ∉ dirs w -> dirs w' <> dirs w).
Proof.
  intros Hc He.
  destruct (convert_file_extends _ _ _ _ _ Hc) as (d & Hd & _ & _).
  assert (Hdirs : dirs w' = dirs w ∪ list_to_set (PurePath.chain (out_dir opts))
                  /\ (forall e', codec_arg in_path opts = Raised e' ->
                      e = e' /\ w' = made (out_dir opts) w)).
  { rewrite convert_file_eq in Hc. destruct (bool_decide _).
    { injection Hc as <- _. destruct He as [[? ?]|[? ?]]; discriminate. }
    cbv zeta in Hc. destruct (codec_arg in_path opts) as [c|e0].
    2:{ injection Hc as <- <-. split; [reflexivity|].
        intros e' [= <-]. split; reflexivity. }
    split; [|discriminate].
    destruct (subprocess_run _ _) as [p|]; [destruct (negb _)|];
      by injection Hc as _ <-. }
  destruct Hdirs as [Hdirs Hcodec].
  assert (Hin : out_dir opts ∈ dirs w').
  { rewrite Hdirs. apply elem_of_union_r, elem_of_list_to_set, chain_self. }
  split; [|split; [|split; [|split]]].
  - exists d. by apply since_extends.
  - exact Hdirs.
  - exact Hin.
  - exact Hcodec.
  - intros Hnot E. rewrite E in Hin. contradiction.
Qed.

(** C10. Two inputs with the same stem, converted with the same options
    under [force_wav] (or having the same suffix), get the same output
    path whatever their directories; a batch over two such inputs
    returns that one path twice. *)
Theorem convert_file_same_stem_same_output (p1 p2 : Path)
    (opts : ConvertOptions) :
  PurePath.stem p1 = PurePath.stem p2 ->
  force_wav opts = true \/ PurePath.suffix p1 = PurePath.suffix p2 ->
  (forall w1 w1' w2 w2' o1 o2,
      convert_file p1 opts w1 = (Returned o1, w1') ->
      convert_file p2 opts w2 = (Returned o2, w2') ->
      o1 = o2)
  /\ (forall w w' outs,
         ConvertTab_fn [p1; p2] opts w = (Returned outs, w') ->
         exists o, outs = [o; o]).
Proof.
  intros Hstem Hext.
  assert (Hsame : out_path_of p1 opts = out_path_of p2 opts).
  { unfold out_path_of, out_ext_of. rewrite Hstem.
    destruct Hext as [-> | Hs]; [reflexivity|].
    destruct (force_wav opts); [reflexivity | by rewrite Hs]. }
  assert (Hout : forall p w w' o, convert_file p opts w = (Returned o, w') ->
                                  o = out_path_of p opts).
  { intros p w w' o Hc. by apply convert_file_returns in Hc. }
  split.
  - intros w1 w1' w2 w2' o1 o2 H1 H2.
    rewrite (Hout _ _ _ _ H1), (Hout _ _ _ _ H2). exact Hsame.
  - intros w w' outs. unfold ConvertTab_fn. cbn [batch_loop].
    unfold bind at 1.
    destruct (convert_file p1 opts w) as [[o1|] w1] eqn:H1; [|discriminate].
    unfold bind at 1. unfold emit_progressed at 1. unfold bind at 1.
    destruct (convert_file p2 opts _) as [[o2|] w2] eqn:H2; [|discriminate].
    unfold bind at 1. unfold emit_progressed at 1.
    intros [= <- _]. exists o1.
    rewrite (Hout _ _ _ _ H1), (Hout _ _ _ _ H2), Hsame. reflexivity.
Qed.

(** C5, as amended.  When the output directory can be created and the
    output extension, lower-cased, is [".wav"] (as it always is under
    [force_wav]): for a bit depth of 16, 24 or 32 [convert_file] spawns
    the tool with the matching PCM codec after [-c:a], and for any other
    bit depth it raises the [ValueError] of [_pcm_codec] having spawned
    nothing. *)
Theorem convert_file_codec_for_wav (in_path : Path) (opts : ConvertOptions)
    (w : World) :
  ~ blocked (out_dir opts) w ->
  force_wav opts = true \/ Str.lower (PurePath.suffix in_path) = ".wav" ->
  let r := convert_file in_path opts w in
  (forall c,
      (bit_depth opts, c) ∈ [(16, "pcm_s16le"); (24, "pcm_s24le"); (32, "pcm_s32le")] ->
      since w (snd r)
      = [Mkdir (out_dir opts); Spawn (ffmpeg_cmd in_path opts c)])
  /\ (bit_depth opts ∉ [16; 24; 32] ->
      fst r = Raised (ValueError "bit_depth must be one of 16, 24, 32")
      /\ since w (snd r) = [Mkdir (out_dir opts)]).
Proof.
  intros Hb Hw r. subst r. rewrite convert_file_eq.
  rewrite bool_decide_false by exact Hb. cbv zeta.
  unfold codec_arg. rewrite (wav_ext _ _ Hw), pcm_codec_valid.
  split.
  - intros c Hc.
    assert (Hsel : (if bit_depth opts =? 16 then Returned "pcm_s16le"
                    else if bit_depth opts =? 24 then Returned "pcm_s24le"
                    else if bit_depth opts =? 32 then Returned "pcm_s32le"
                    else Raised (ValueError "bit_depth must be one of 16, 24, 32"))
                   = Returned c).
    { repeat (apply elem_of_cons in Hc as [Hc|Hc];
              [injection Hc as -> ->; reflexivity|]).
      by apply elem_of_nil in Hc. }
    rewrite Hsel. apply since_extends.
    destruct (subprocess_run _ _) as [p|]; [destruct (negb _)|];
      unfold extends; simpl; by rewrite <- app_assoc.
  - intros Hn.
    destruct (Z.eqb_spec (bit_depth opts) 16) as [E|_];
      [exfalso; apply Hn; rewrite E; repeat constructor|].
    destruct (Z.eqb_spec (bit_depth opts) 24) as [E|_];
      [exfalso; apply Hn; rewrite E; repeat constructor|].
    destruct (Z.eqb_spec (bit_depth opts) 32) as [E|_];
      [exfalso; apply Hn; rewrite E; repeat constructor|].
    split; [reflexivity|]. by apply since_extends.
Qed.

End ConvertClaims.

(** ** Batches *)

Lemma events_ordered (verb : string) (paths : list Path) :
  paths <> [] ->
  ordered_progress verb paths (events verb (Z.of_nat (length paths)) 1 paths).
Proof.
  intros Hne. set (n := Z.of_nat (length paths)).
  assert (Hlook : forall i p, paths !! i = Some p ->
            events verb n 1 paths !! i
            = Some (progress_event verb n (Z.of_nat i + 1) p)).
  { intros i p Hi. rewrite (events_lookup verb n paths 1 i p Hi).
    by rewrite Z.add_comm. }
  assert (Hlen : length (events verb n 1 paths) = length paths)
    by apply events_length.
  split; [exact Hlen|]. split; [exact Hlook|]. split.
  - intros i ev Hev.
    assert (Hi : (i < length paths)%nat).
    { rewrite <- Hlen. eapply lookup_lt_Some, Hev. }
    apply lookup_lt_is_Some in Hi as [p Hp].
    rewrite (Hlook _ _ Hp) in Hev. injection Hev as <-. split; reflexivity.
  - assert (Hi : (pred (length paths) < length paths)%nat).
    { destruct paths; [congruence | simpl; lia]. }
    apply lookup_lt_is_Some in Hi as [p Hp].
    exists (progress_event verb n (Z.of_nat (pred (length paths)) + 1) p).
    rewrite last_lookup, Hlen. split; [by apply Hlook|].
    split; [|reflexivity]. simpl. subst n.
    destruct paths; [congruence | simpl length; lia].
Qed.

Section BatchClaims.
Context `{Host}.

(** C3. Let every item of a non-empty list succeed when its turn comes.
    Then the batch returns; the result lists, in input order, what the
    operation returned for each item; and the progress events emitted are
    exactly one per item, in order, with [done] counting the items
    completed so far (1, 2, ...), [total] the length of the list, and the
    last [done] equal to [total].  [probe_files] and [convert_files],
    when they return, return such an ordered list as well. *)
Theorem batch_success_ordered (paths : list Path) (opts : ConvertOptions)
    (w : World) :
  paths <> [] ->
  let n := Z.of_nat (length paths) in
  (succeed_in_turn probe_file "Probed" n 1 paths w ->
   exists res w',
     ProbeTab_fn paths w = (Returned res, w')
     /\ Forall2 (produced probe_file) paths res
     /\ ordered_progress "Probed" paths (progress_of (since w w')))
  /\ (succeed_in_turn (fun p => convert_file p opts) "Converted" n 1 paths w ->
      exists res w',
        ConvertTab_fn paths opts w = (Returned res, w')
        /\ Forall2 (produced (fun p => convert_file p opts)) paths res
        /\ ordered_progress "Converted" paths (progress_of (since w w')))
  /\ (forall res w',
         probe_files paths w = (Returned res, w') ->
         Forall2 (produced probe_file) paths res)
  /\ (forall res w',
         convert_files paths opts w = (Returned res, w') ->
         Forall2 (produced (fun p => convert_file p opts)) paths res).
Proof.
  intros Hne n. split; [|split; [|split]].
  - intros Hs.
    destruct (batch_loop_total _ _ _ _ 1 [] w Hs) as (res & w' & Hr).
    exists res, w'. split; [exact Hr|].
    apply (batch_loop_returned _ _ _ _ probe_file_quiet) in Hr
      as (xs & d & -> & Hxs & Hd & Hev).
    split; [exact Hxs|].
    rewrite (since_extends _ _ _ Hd), Hev. by apply events_ordered.
  - intros Hs.
    destruct (batch_loop_total _ _ _ _ 1 [] w Hs) as (res & w' & Hr).
    exists res, w'. split; [exact Hr|].
    apply (batch_loop_returned _ _ _ _ (convert_file_quiet opts)) in Hr
      as (xs & d & -> & Hxs & Hd & Hev).
    split; [exact Hxs|].
    rewrite (since_extends _ _ _ Hd), Hev. by apply events_ordered.
  - intros res w' Hr. apply collect_returned in Hr as (xs & -> & Hxs). exact Hxs.
  - intros res w' Hr. apply collect_returned in Hr as (xs & -> & Hxs). exact Hxs.
Qed.

(** C2. Let the items of [pre] have been processed, leaving the world
    [wk], and let the tool exit with a non-zero status on the next item
    [p].  Then the batch over [pre ++ p :: post] raises that one error,
    whose message is the tool's standard error stripped of surrounding
    white space (the fallback text when nothing is left), in the world
    where the failing call was logged: nothing is done for [post], and
    the progress events emitted are those of [pre] and no more. *)
Theorem batch_stops_at_first_failure (pre : list Path) (p : Path)
    (post : list Path) (opts : ConvertOptions) (w wk : World)
    (cp : CompletedProcess) :
  returncode cp <> 0 ->
  let paths := pre ++ p :: post in
  let n := Z.of_nat (length paths) in
  let text := Str.strip (stderr cp) in
  (forall outs,
      batch_loop probe_file "Probed" n 1 pre [] w = (Returned outs, wk) ->
      subprocess_run wk (ffprobe_cmd p) = Returned cp ->
      let msg := Str.or_ text "ffprobe failed" in
      let w' := record (Spawn (ffprobe_cmd p)) wk in
      ProbeTab_fn paths w = (Raised (FFprobeError msg), w')
      /\ Str.contains text msg = true
      /\ (text <> "" -> msg = text)
      /\ since wk w' = [Spawn (ffprobe_cmd p)]
      /\ progress_of (since w w') = events "Probed" n 1 pre
      /\ length (progress_of (since w w')) = length pre)
  /\ (forall outs c,
         batch_loop (fun q => convert_file q opts) "Converted" n 1 pre [] w
         = (Returned outs, wk) ->
         ~ blocked (out_dir opts) wk ->
         codec_arg p opts = Returned c ->
         subprocess_run (made (out_dir opts) wk) (ffmpeg_cmd p opts c)
         = Returned cp ->
         let msg := Str.or_ text "ffmpeg failed" in
         let w' := record (Spawn (ffmpeg_cmd p opts c)) (made (out_dir opts) wk) in
         ConvertTab_fn paths opts w = (Raised (FFmpegError msg), w')
         /\ Str.contains text msg = true
         /\ (text <> "" -> msg = text)
         /\ since wk w' = [Mkdir (out_dir opts); Spawn (ffmpeg_cmd p opts c)]
         /\ progress_of (since w w') = events "Converted" n 1 pre
         /\ length (progress_of (since w w')) = length pre).
Proof.
  intros Hrc paths n text.
  assert (Hnz : negb (returncode cp =? 0) = true).
  { apply negb_true_iff, Z.eqb_neq, Hrc. }
  assert (Hmsg : forall fb, text <> "" -> Str.or_ text fb = text).
  { intros fb Ht. destruct text; [congruence | reflexivity]. }
  split.
  - intros outs Hpre Hrun msg w'.
    assert (Hop : probe_file p wk = (Raised (FFprobeError msg), w')).
    { rewrite probe_file_eq. cbv zeta. by rewrite Hrun, Hnz. }
    pose proof (batch_loop_returned _ _ _ _ probe_file_quiet _ _ _ _ _ Hpre)
      as (xs & d & _ & _ & Hd & Hev).
    assert (Hw : extends w w' (d ++ [Spawn (ffprobe_cmd p)])).
    { eapply extends_trans; [exact Hd | apply extends_record]. }
    assert (Hprog : progress_of (since w w') = events "Probed" n 1 pre).
    { rewrite (since_extends _ _ _ Hw), progress_of_app, Hev.
      apply app_nil_r. }
    split; [|split; [|split; [|split; [|split]]]].
    + unfold ProbeTab_fn. fold paths. fold n.
      eapply batch_loop_raised; eauto.
    + apply message_contains_stderr.
    + apply Hmsg.
    + apply since_extends, extends_record.
    + exact Hprog.
    + rewrite Hprog. apply events_length.
  - intros outs c Hpre Hb Hcodec Hrun msg w'.
    assert (Hop : convert_file p opts wk = (Raised (FFmpegError msg), w')).
    { rewrite convert_file_eq. rewrite bool_decide_false by exact Hb.
      cbv zeta. by rewrite Hcodec, Hrun, Hnz. }
    pose proof (batch_loop_returned _ _ _ _ (convert_file_quiet opts)
                  _ _ _ _ _ Hpre) as (xs & d & _ & _ & Hd & Hev).
    assert (Hk : extends wk w' [Mkdir (out_dir opts); Spawn (ffmpeg_cmd p opts c)]).
    { unfold extends. simpl. by rewrite <- app_assoc. }
    assert (Hw : extends w w'
                   (d ++ [Mkdir (out_dir opts); Spawn (ffmpeg_cmd p opts c)])).
    { eapply extends_trans; [exact Hd | exact Hk]. }
    assert (Hprog : progress_of (since w w') = events "Converted" n 1 pre).
    { rewrite (since_extends _ _ _ Hw), progress_of_app, Hev.
      apply app_nil_r. }
    split; [|split; [|split; [|split; [|split]]]].
    + unfold ConvertTab_fn. fold paths. fold n.
      eapply (batch_loop_raised (fun q => convert_file q opts)); eauto.
    + apply message_contains_stderr.
    + apply Hmsg.
    + by apply since_extends.
    + exact Hprog.
    + rewrite Hprog. apply events_length.
Qed.

End BatchClaims.

(** ** Probing *)

Section ProbeClaims.
Context `{Host}.

Lemma probe_file_parsed (path : Path) (w : World) (cp : CompletedProcess)
    (data : Py.value) :
  subprocess_run w (ffprobe_cmd path) = Returned cp ->
  returncode cp = 0 ->
  json_loads (stdout cp) = Some data ->
  probe_file path w
  = (probe_file_data path data, record (Spawn (ffprobe_cmd path)) w).
Proof.
  intros Hrun Hrc Hjs. rewrite probe_file_eq. cbv zeta.
  rewrite Hrun, Hrc, Hjs. reflexivity.
Qed.

(** C6. Let the tool exit with status 0 and print a JSON object whose
    format object (empty when the entry is absent or null) is [f].  If
    [f] has no [duration], or [float] rejects its value, [probe_file]
    raises [FFprobeError("Could not determine duration")] whatever else
    the output holds.  If the duration parses to [x], [probe_file]
    returns a record with that duration: with every optional field
    unknown when no other field is present, and for any list of stream
    objects. *)
Theorem probe_file_needs_duration (path : Path) (w : World)
    (cp : CompletedProcess) (d f : list (string * Py.value)) :
  subprocess_run w (ffprobe_cmd path) = Returned cp ->
  returncode cp = 0 ->
  json_loads (stdout cp) = Some (JObj d) ->
  Py.or_ (default JNull (Py.lookup "format" d)) (JObj []) = JObj f ->
  (Py.lookup "duration" f ≫= Py.float = None ->
   fst (probe_file path w)
   = Raised (FFprobeError "Could not determine duration"))
  /\ (forall x,
         Py.lookup "duration" f ≫= Py.float = Some x ->
         (Py.lookup "streams" d = None ->
          Py.lookup "bit_rate" f = None ->
          fst (probe_file path w)
          = Returned (AudioInfo.mk path x None None JNull None))
         /\ (forall l,
                Py.lookup "streams" d = Some (JArr l) ->
                Forall is_object l ->
                exists info,
                  fst (probe_file path w) = Returned info
                  /\ AudioInfo.duration_s info = x
                  /\ AudioInfo.path info = path)).
Proof.
  intros Hrun Hrc Hjs Hf.
  rewrite (probe_file_parsed _ _ _ _ Hrun Hrc Hjs).
  cbn [fst]. rewrite (probe_file_data_eq _ _ _ Hf).
  split.
  - intros ->. reflexivity.
  - intros x ->. split.
    + intros -> ->. reflexivity.
    + intros l -> Hl. cbn [default from_option id Py.iter obind].
      destruct (scan_streams_objects l Hl) as [r ->]. cbn [obind].
      eexists. split; [reflexivity|]. split; reflexivity.
Qed.

(** C7. Let the tool exit with status 0 and print a JSON object with a
    duration that parses to [x] and a list of streams.  If the list is
    [pre ++ s :: post] where [s] is the first stream object of type
    audio ([pre] holds stream objects of other types), the sample rate
    and the channel count are [int] of the entries of [s], unknown when
    an entry is absent or [int] rejects it, and the codec is the
    [codec_name] of [s], unknown when absent; [pre] and [post]
    contribute nothing.  If no stream is of type audio, the three are
    unknown.  In both cases the probe succeeds and the duration is the
    container's. *)
Theorem probe_file_first_audio_stream (path : Path) (w : World)
    (cp : CompletedProcess) (d f : list (string * Py.value))
    (l : list Py.value) (x : pyfloat) :
  subprocess_run w (ffprobe_cmd path) = Returned cp ->
  returncode cp = 0 ->
  json_loads (stdout cp) = Some (JObj d) ->
  Py.or_ (default JNull (Py.lookup "format" d)) (JObj []) = JObj f ->
  Py.lookup "duration" f ≫= Py.float = Some x ->
  Py.lookup "streams" d = Some (JArr l) ->
  (forall pre s post,
      l = pre ++ JObj s :: post ->
      Forall other_stream pre ->
      is_audio (JObj s) = true ->
      fst (probe_file path w)
      = Returned (AudioInfo.mk path x
                    (Py.lookup "sample_rate" s ≫= Py.int)
                    (Py.lookup "channels" s ≫= Py.int)
                    (default JNull (Py.lookup "codec_name" s))
                    (Py.lookup "bit_rate" f ≫= Py.int)))
  /\ (Forall other_stream l ->
      fst (probe_file path w)
      = Returned (AudioInfo.mk path x None None JNull
                    (Py.lookup "bit_rate" f ≫= Py.int))).
Proof.
  intros Hrun Hrc Hjs Hf Hx Hl.
  rewrite (probe_file_parsed _ _ _ _ Hrun Hrc Hjs).
  cbn [fst]. rewrite (probe_file_data_eq _ _ _ Hf), Hx, Hl.
  cbn [default from_option id Py.iter obind]. split.
  - intros pre s post -> Hpre Hs.
    rewrite (scan_streams_first_audio _ _ _ Hpre Hs). reflexivity.
  - intros Hno. rewrite (scan_streams_no_audio _ Hno). reflexivity.
Qed.

End ProbeClaims.

(** ** The worker and the job controller *)

Lemma Worker_run_trace {R} (fn : M R) (w : World) :
  fst (Worker_run fn w)
  = map Emit_progressed (progress_of (since w (snd (fn w))))
      ++ [outcome_emission (fst (fn w))].
Proof. unfold Worker_run. destruct (fn w) as [[out|e] w']; reflexivity. Qed.

Module ControllerFacts.
Import JobController.

Section WithResult.
Context {R : Type}.
Implicit Types (s : System R) (acts : list (action R)) (c : call (R:=R)).

Lemma finished_in_trace (fn : M R) (w : World) (e : emission R) :
  e ∈ fst (Worker_run fn w) -> is_finished e = true ->
  e = outcome_emission (fst (fn w)).
Proof.
  rewrite Worker_run_trace. intros He Hf.
  apply elem_of_app in He as [He|He].
  - apply list_elem_of_fmap in He as (ev & -> & _). discriminate.
  - by apply list_elem_of_singleton in He.
Qed.

Lemma trace_pending (fn : M R) (w : World) :
  length (filter (@finished_p R) (fst (Worker_run fn w))) = 1%nat.
Proof.
  rewrite Worker_run_trace, filter_app, length_app.
  assert (Hz : filter (@finished_p R)
                 (map Emit_progressed (progress_of (since w (snd (fn w)))))
               = []).
  { induction (progress_of _) as [|ev l IH]; [reflexivity|].
    simpl. rewrite filter_cons_False by discriminate. exact IH. }
  rewrite Hz. simpl.
  rewrite filter_cons_True by (by destruct (fst (fn w))). reflexivity.
Qed.

(** ** Connections *)

Lemma targets_app (a b : list connection) (sig : signal) :
  targets (a ++ b) sig = targets a sig ++ targets b sig.
Proof. unfold targets. by rewrite filter_app, map_app. Qed.

Lemma targets_job_finished (id id' : nat) :
  targets (job_connections id) (Worker_finished id')
  = if decide (id = id')
    then [Forward Controller_finished; Thread_quit id; Worker_deleteLater id]
    else [].
Proof.
  unfold targets, job_connections.
  destruct (decide (id = id')) as [->|Hne].
  - rewrite filter_cons_False by discriminate.
    rewrite filter_cons_False by discriminate.
    rewrite !filter_cons_True by reflexivity.
    rewrite filter_cons_False by discriminate. reflexivity.
  - rewrite !filter_cons_False by (simpl; congruence). reflexivity.
Qed.

Lemma targets_job_controller (id : nat) (sig : signal) :
  sig = Controller_progressed \/ sig = Controller_finished ->
  targets (job_connections id) sig = [].
Proof.
  unfold targets, job_connections.
  intros [-> | ->]; rewrite !filter_cons_False by discriminate;
    reflexivity.
Qed.

(** The slots a signal still reaches when the object [o] is gone. *)
Lemma targets_disconnect (o : object) (conns : list connection)
    (sig : signal) :
  targets (disconnect o conns) sig
  = if decide (sender sig = o) then []
    else filter (fun sl => receiver sl <> o) (targets conns sig).
Proof.
  unfold targets, disconnect.
  induction conns as [|[sg sl] conns IH].
  - by destruct (decide _).
  - cbn [filter list_filter].
    destruct (decide (~ involves o (sg, sl))) as [Hk|Hk].
    + cbn [filter list_filter fst].
      destruct (decide (sg = sig)) as [->|Hsg]; [|exact IH].
      cbn [map snd]. etrans; [exact (f_equal (cons sl) IH)|].
      destruct (decide (sender sig = o)) as [Ho|Ho].
      * exfalso. apply Hk. by left.
      * symmetry. apply filter_cons_True.
        intros Hr. apply Hk. by right.
    + etrans; [exact IH|]. cbn [fst].
      destruct (decide (sg = sig)) as [->|Hsg]; [|reflexivity].
      cbn [map snd].
      destruct (decide (sender sig = o)) as [Ho|Ho]; [reflexivity|].
      symmetry. apply filter_cons_False.
      intros Hr. apply Hk. intros [Hs|Hs]; [by apply Ho | by apply Hr].
Qed.

Lemma unpost_terminal (o : object) (id : nat) (q : list (call (R:=R))) :
  o <> Controller_obj ->
  filter (terminal_call id (Forward Controller_finished)) (unpost o q)
  = filter (terminal_call id (Forward Controller_finished)) q.
Proof.
  intros Ho. unfold unpost. induction q as [|c q IH]; [reflexivity|].
  rewrite (filter_cons (fun k : call => receiver (snd (fst k)) <> o)).
  destruct (decide (receiver (snd (fst c)) <> o)) as [Hr|Hr].
  - rewrite !(filter_cons (terminal_call id _)), IH. reflexivity.
  - rewrite IH. rewrite filter_cons_False; [reflexivity|].
    intros (_ & Hsl & _). apply Hr. rewrite Hsl. cbn. congruence.
Qed.

Lemma Forall_unpost (P : call (R:=R) -> Prop) (o : object)
    (q : list (call (R:=R))) :
  Forall P q -> Forall P (unpost o q).
Proof.
  rewrite !Forall_forall. intros H c Hc.
  apply list_elem_of_filter in Hc as [_ Hc]. by apply H.
Qed.

(** ** The steps, field by field *)

Lemma exec_app s acts1 acts2 :
  exec s (acts1 ++ acts2) = exec (exec s acts1) acts2.
Proof. apply foldl_app. Qed.

Lemma step_aborted s (a : action R) : aborted s = true -> step s a = s.
Proof. unfold step. by intros ->. Qed.

(** A process that was aborted does nothing more. *)
Lemma exec_aborted s acts : aborted s = true -> exec s acts = s.
Proof.
  intros Ha. induction acts as [|a acts IH]; [reflexivity|].
  cbn [exec foldl]. rewrite step_aborted by exact Ha. exact IH.
Qed.

Lemma dispatch_idle s : posted s = [] -> dispatch s = s.
Proof. unfold dispatch. by intros ->. Qed.

Lemma worker_step_fields id s e rest :
  threads s !! id = Some Running ->
  workers s !! id = Some (e :: rest) ->
  worker_step id s
  = mkSystem (controller s) (connections s) (jobs s) (threads s)
      (<[id := rest]> (workers s)) (gone s) (quit_requested s)
      (posted s ++
         map (fun sl => (id, sl, e))
             (filter (queued_from id)
                     (targets (connections s) (signal_of id e))))
      (delivered s) (aborted s).
Proof. intros Ht Hw. unfold worker_step. by rewrite Ht, Hw. Qed.

Lemma worker_step_idle id s :
  (threads s !! id <> Some Running
   \/ workers s !! id = None \/ workers s !! id = Some []) ->
  worker_step id s = s.
Proof.
  unfold worker_step. intros [Ht|[Hw|Hw]].
  - destruct (threads s !! id) as [[]|]; try reflexivity. congruence.
  - rewrite Hw. by destruct (threads s !! id) as [[]|].
  - rewrite Hw. by destruct (threads s !! id) as [[]|].
Qed.

(** ** What holds in every state a run can reach *)

Lemma job_emission_mono s s' id e :
  jobs s `prefix_of` jobs s' ->
  job_emission s id e -> job_emission s' id e.
Proof.
  intros [k Hk] (fn & w & Hl & He). exists fn, w. split; [|exact He].
  rewrite Hk. by apply lookup_app_l_Some.
Qed.

Lemma fresh_mono s s' : jobs s `prefix_of` jobs s' -> (fresh s <= fresh s')%nat.
Proof. intros [k Hk]. unfold fresh. rewrite Hk, length_app. lia. Qed.

Lemma posted_ok_mono s s' c :
  jobs s `prefix_of` jobs s' ->
  posted_ok s c -> posted_ok s' c.
Proof.
  intros Hj (Hid & Hf & Hp). pose proof (fresh_mono _ _ Hj).
  split; [lia|]. split; [|exact Hp].
  intros Hfin. destruct (Hf Hfin) as [Hsl Hje].
  split; [exact Hsl | by eapply job_emission_mono].
Qed.

Lemma delivered_ok_mono s s' c :
  jobs s `prefix_of` jobs s' ->
  delivered_ok s c -> delivered_ok s' c.
Proof.
  intros Hj (Hid & Hsl & Hf). pose proof (fresh_mono _ _ Hj).
  split; [lia|]. split; [exact Hsl|].
  intros Hfin. by eapply job_emission_mono, Hf.
Qed.

Lemma no_call_of_fresh (n : nat) (sl : slot) (l : list (call (R:=R))) :
  Forall (fun c => (fst (fst c) < n)%nat) l ->
  filter (terminal_call n sl) l = [].
Proof.
  induction 1 as [|c l Hc _ IH]; [reflexivity|].
  rewrite filter_cons_False; [exact IH|].
  intros (Hid & _). lia.
Qed.

Lemma inv_init : inv (R:=R) init.
Proof.
  split; try reflexivity; try discriminate;
    try (intros id Hid; cbn in Hid; lia).
  all: try (intros id; intros; unfold init in *; cbn [workers] in *;
            by rewrite lookup_empty in * ).
  all: constructor.
Qed.

(** The invariant looks at the controller's fields only to compare
    them. *)
Lemma inv_same s s' :
  _thread (controller s') = _worker (controller s') ->
  (forall a, _thread (controller s') = Some a -> S a = fresh s) ->
  connections s' = connections s ->
  jobs s' = jobs s ->
  threads s' = threads s ->
  workers s' = workers s ->
  gone s' = gone s ->
  posted s' = posted s ->
  delivered s' = delivered s ->
  inv s -> inv s'.
Proof.
  intros Hk Ht Hc Hj Hth Hw Hg Hp Hd [].
  split;
    unfold terminal_delivered, terminal_posted, terminal_pending,
      posted_ok, delivered_ok, job_emission, fresh in *;
    rewrite ?Hc, ?Hj, ?Hth, ?Hw, ?Hg, ?Hp, ?Hd; assumption.
Qed.

Lemma inv_quit s th : inv s -> inv (quit th s).
Proof. intros I. apply (inv_same s); try reflexivity; apply I. Qed.

Lemma inv_abort s : inv s -> inv (abort s).
Proof. intros I. apply (inv_same s); try reflexivity; apply I. Qed.

Lemma inv_clear s : inv s -> inv (clear s).
Proof. intros I. by apply (inv_same s). Qed.

(** A thread that has finished is destroyed. *)
Lemma inv_destroy_thread s th :
  threads s !! th <> Some Running ->
  inv s -> inv (destroy (Thread_obj th) s).
Proof.
  intros Hth I. split; cbn [destroy controller connections jobs threads
                            workers gone posted delivered].
  - apply I.
  - apply I.
  - rewrite targets_disconnect, decide_False by discriminate.
    rewrite (inv_prog _ I). by rewrite filter_cons_True by discriminate.
  - rewrite targets_disconnect, decide_False by discriminate.
    rewrite (inv_fin _ I). by rewrite filter_cons_True by discriminate.
  - intros id Hid Hg Hr.
    assert (id <> th) by (intros ->; by rewrite lookup_insert_eq in Hr).
    rewrite lookup_insert_ne in Hr by congruence.
    rewrite targets_disconnect, decide_False by discriminate.
    rewrite (inv_wfin _ I id Hid Hg Hr).
    rewrite !filter_cons_True by (cbn; congruence). reflexivity.
  - intros id Hid. rewrite targets_disconnect, decide_False by discriminate.
    by rewrite (inv_wfin_none _ I id Hid).
  - apply I.
  - intros id Hid. destruct (inv_started _ I id Hid) as [Hw Ht].
    split; [exact Hw|].
    destruct (decide (th = id)) as [->|Hne];
      [by rewrite lookup_insert_eq | by rewrite lookup_insert_ne].
  - intros id e rest Hw. destruct (inv_emitting _ I id e rest Hw) as [Hg Hr].
    split; [exact Hg|]. rewrite lookup_insert_ne; [exact Hr|].
    intros ->. congruence.
  - apply I.
  - apply Forall_unpost, I.
  - apply I.
  - intros id Hid. pose proof (inv_count _ I id Hid) as Hc.
    unfold terminal_delivered, terminal_posted, terminal_pending in *.
    cbn [destroy posted delivered workers].
    by rewrite unpost_terminal by discriminate.
Qed.

(** A worker that has nothing left to emit is destroyed. *)
Lemma inv_destroy_worker s w :
  (w < fresh s)%nat ->
  (forall e rest, workers s !! w <> Some (e :: rest)) ->
  inv s -> inv (destroy (Worker_obj w) s).
Proof.
  intros Hlt Hw I. split; cbn [destroy controller connections jobs threads
                           workers gone posted delivered].
  - apply I.
  - apply I.
  - rewrite targets_disconnect, decide_False by discriminate.
    rewrite (inv_prog _ I). by rewrite filter_cons_True by discriminate.
  - rewrite targets_disconnect, decide_False by discriminate.
    rewrite (inv_fin _ I). by rewrite filter_cons_True by discriminate.
  - intros id Hid Hg Hr.
    assert (Hne : id <> w).
    { intros ->. apply Hg. apply elem_of_union_l. by apply elem_of_singleton. }
    assert (Hg' : id ∉ gone s).
    { intros Hin. apply Hg. by apply elem_of_union_r. }
    rewrite targets_disconnect, decide_False by (cbn; congruence).
    rewrite (inv_wfin _ I id Hid Hg' Hr).
    rewrite !filter_cons_True by (cbn; congruence). reflexivity.
  - intros id Hid. rewrite targets_disconnect.
    destruct (decide _); [reflexivity|].
    by rewrite (inv_wfin_none _ I id Hid).
  - apply I.
  - apply I.
  - intros id e rest Hl. destruct (inv_emitting _ I id e rest Hl) as [Hg Hr].
    split; [|exact Hr].
    intros [Hin%elem_of_singleton|Hin]%elem_of_union; [|done].
    subst id. by apply (Hw e rest).
  - intros id [Hin%elem_of_singleton|Hin]%elem_of_union;
      [by subst id | by apply I].
  - apply Forall_unpost, I.
  - apply I.
  - intros id Hid. pose proof (inv_count _ I id Hid) as Hc.
    unfold terminal_delivered, terminal_posted, terminal_pending in *.
    cbn [destroy posted delivered workers].
    by rewrite unpost_terminal by discriminate.
Qed.

Lemma inv_release_worker s :
  (forall w e rest, _worker (controller s) = Some w ->
                    workers s !! w <> Some (e :: rest)) ->
  inv s -> inv (release_worker s).
Proof.
  intros Hw I. unfold release_worker.
  destruct (_worker (controller s)) as [w|] eqn:Hk; [|exact I].
  destruct (decide (w ∈ gone s)); [exact I|].
  apply inv_destroy_worker; [| by intros e rest; apply Hw | exact I].
  rewrite <- (inv_fields _ I) in Hk.
  rewrite <- (inv_tracked _ I w Hk). lia.
Qed.

Lemma inv_stop s : inv s -> inv (snd (stop s)).
Proof.
  intros I. unfold stop.
  destruct (_thread (controller s)) as [th|] eqn:Hth.
  - destruct (threads s !! th) as [[]|] eqn:Hs; cbn [snd]; try exact I.
    + apply inv_abort, inv_quit, I.
    + apply inv_clear, inv_release_worker.
      * cbn [destroy quit controller workers]. intros w e rest Hk Hw.
        rewrite <- (inv_fields _ I), Hth in Hk. injection Hk as <-.
        destruct (inv_emitting _ I _ _ _ Hw) as [_ Hr]. congruence.
      * apply inv_destroy_thread; [|apply inv_quit, I].
        cbn [quit threads]. congruence.
  - cbn [snd]. apply inv_clear, inv_release_worker; [|exact I].
    intros w e rest Hk. rewrite <- (inv_fields _ I), Hth in Hk. discriminate.
Qed.

(** The part of [start] that follows [stop]. *)
Lemma inv_new_job s (fn : M R) (w : World) :
  inv s ->
  inv (mkSystem (mk (Some (fresh s)) (Some (fresh s)))
         (connections s ++ job_connections (fresh s))
         (jobs s ++ [(fn, w)])
         (<[fresh s := Running]> (threads s))
         (<[fresh s := fst (Worker_run fn w)]> (workers s))
         (gone s) (quit_requested s) (posted s) (delivered s) (aborted s)).
Proof.
  intros I.
  set (s' := mkSystem _ _ _ _ _ _ _ _ _ _).
  assert (Hj : jobs s `prefix_of` jobs s') by (by eexists).
  assert (Hf : fresh s' = S (fresh s)).
  { unfold fresh, s'. cbn [jobs]. rewrite length_app. simpl. lia. }
  assert (Hnew : jobs s' !! fresh s = Some (fn, w)).
  { unfold s'. cbn [jobs]. apply list_lookup_middle. reflexivity. }
  assert (Hcalls : forall l : list (call (R:=R)),
             Forall (fun c => (fst (fst c) < fresh s)%nat) l ->
             forall sl, filter (terminal_call (fresh s) sl) l = []).
  { intros l Hl sl. by apply no_call_of_fresh. }
  split; unfold s'; cbn [controller connections threads workers gone
                         posted delivered]; fold s'.
  - reflexivity.
  - intros a [= <-]. by rewrite Hf.
  - rewrite targets_app, (inv_prog _ I), targets_job_controller; auto.
  - rewrite targets_app, (inv_fin _ I), targets_job_controller; auto.
  - intros id Hid Hg Hr. rewrite targets_app, targets_job_finished.
    destruct (decide (fresh s = id)) as [<-|Hne].
    + by rewrite (inv_wfin_none _ I (fresh s)).
    + rewrite lookup_insert_ne in Hr by exact Hne.
      rewrite (inv_wfin _ I id) by (try done; lia). apply app_nil_r.
  - intros id Hid. rewrite targets_app, targets_job_finished.
    rewrite decide_False by lia.
    rewrite (inv_wfin_none _ I id) by lia. reflexivity.
  - intros id l.
    destruct (decide (fresh s = id)) as [<-|Hne].
    + rewrite lookup_insert_eq. intros [= <-]. by exists fn, w.
    + rewrite lookup_insert_ne by exact Hne. intros Hl.
      destruct (inv_workers _ I _ _ Hl) as (fn' & w' & Hs' & Hsuf).
      exists fn', w'. split; [|exact Hsuf].
      unfold s'. cbn [jobs]. by apply lookup_app_l_Some.
  - intros id Hid.
    destruct (decide (fresh s = id)) as [<-|Hne].
    + rewrite !lookup_insert_eq. by split; eexists.
    + rewrite !lookup_insert_ne by exact Hne.
      apply (inv_started _ I). lia.
  - intros id e rest.
    destruct (decide (fresh s = id)) as [<-|Hne].
    + intros _. rewrite lookup_insert_eq. split; [|reflexivity].
      intros Hin. apply (inv_gone _ I) in Hin. lia.
    + rewrite !lookup_insert_ne by exact Hne. apply (inv_emitting _ I).
  - intros id Hin. apply (inv_gone _ I) in Hin. lia.
  - eapply Forall_impl; [apply (inv_posted _ I)|].
    intros c. by apply posted_ok_mono.
  - eapply Forall_impl; [apply (inv_delivered _ I)|].
    intros c. by apply delivered_ok_mono.
  - intros id Hid.
    unfold terminal_delivered, terminal_posted, terminal_pending.
    unfold s'. cbn [delivered posted workers].
    destruct (decide (fresh s = id)) as [<-|Hne].
    + rewrite lookup_insert_eq.
      rewrite !Hcalls.
      * simpl. apply trace_pending.
      * eapply Forall_impl; [apply (inv_posted _ I)|]. by intros c [? _].
      * eapply Forall_impl; [apply (inv_delivered _ I)|]. by intros c [? _].
    + rewrite lookup_insert_ne by exact Hne.
      apply (inv_count _ I). lia.
Qed.

Lemma inv_start s (fn : M R) (w : World) :
  inv s -> inv (snd (start fn w s)).
Proof.
  intros I. unfold start. pose proof (inv_stop s I) as I1.
  destruct (stop s) as [[] s1]; cbn [snd] in *; try exact I1.
  by apply inv_new_job.
Qed.

Lemma worker_step_posts id s e rest :
  inv s ->
  threads s !! id = Some Running ->
  workers s !! id = Some (e :: rest) ->
  posted (worker_step id s) = posted s ++ calls_of id e
  /\ (id < fresh s)%nat
  /\ (is_finished e = true -> job_emission s id e).
Proof.
  intros I Ht Hw.
  rewrite (worker_step_fields _ _ _ _ Ht Hw). cbn [posted].
  destruct (inv_workers _ I _ _ Hw) as (fn & w & Hs & Hsuf).
  destruct (inv_emitting _ I _ _ _ Hw) as [Hg _].
  assert (Hid : (id < fresh s)%nat) by (eapply lookup_lt_Some, Hs).
  split; [|split; [exact Hid|]].
  - f_equal. unfold calls_of.
    destruct e as [ev|r x]; cbn [signal_of is_finished].
    + rewrite (inv_prog _ I).
      by rewrite filter_cons_True by discriminate.
    + rewrite (inv_wfin _ I id Hid Hg Ht).
      rewrite !filter_cons_True by discriminate.
      rewrite filter_cons_False; [reflexivity|].
      intros Hq. by apply Hq.
  - intros Hf. exists fn, w. split; [exact Hs|].
    apply finished_in_trace; [|exact Hf].
    destruct Hsuf as [k ->]. apply elem_of_app. right. left.
Qed.

Lemma count_calls_of id id' (e : emission R) :
  length (filter (terminal_call id' (Forward Controller_finished))
                 (calls_of id e))
  = if decide (id' = id) then (if is_finished e then 1 else 0)%nat else O.
Proof.
  unfold calls_of. destruct (is_finished e) eqn:Hf.
  - destruct (decide (id' = id)) as [->|Hne].
    + rewrite filter_cons_True by done.
      rewrite !filter_cons_False by (intros (_ & ? & _); discriminate).
      reflexivity.
    + rewrite !filter_cons_False by (intros (? & _); simpl in *; congruence).
      reflexivity.
  - rewrite filter_cons_False by (intros (_ & _ & ?); simpl in *; congruence).
    by destruct (decide _).
Qed.

Lemma inv_worker_step s id : inv s -> inv (worker_step id s).
Proof.
  intros I.
  destruct (decide (threads s !! id = Some Running)) as [Ht|Ht];
    [|by rewrite worker_step_idle by auto].
  destruct (workers s !! id) as [[|e rest]|] eqn:Hw.
  1,3: by rewrite worker_step_idle by auto.
  destruct (worker_step_posts _ _ _ _ I Ht Hw) as (Hp & Hid & Hje).
  rewrite (worker_step_fields _ _ _ _ Ht Hw) in *.
  set (s' := mkSystem _ _ _ _ _ _ _ _ _ _) in *.
  assert (Hj : jobs s `prefix_of` jobs s') by reflexivity.
  split; unfold s'; cbn [controller connections threads workers gone
                         delivered]; fold s'; try apply I.
  - intros id' l.
    destruct (decide (id = id')) as [<-|Hne].
    + rewrite lookup_insert_eq. intros [= <-].
      destruct (inv_workers _ I _ _ Hw) as (fn & w & Hs & Hsuf).
      exists fn, w. split; [exact Hs|]. by eapply suffix_cons_l.
    + rewrite lookup_insert_ne by exact Hne. apply (inv_workers _ I).
  - intros id' Hid'. destruct (inv_started _ I id' Hid') as [Hw' Ht'].
    split; [|exact Ht'].
    destruct (decide (id = id')) as [<-|Hne].
    + rewrite lookup_insert_eq. by eexists.
    + by rewrite lookup_insert_ne by exact Hne.
  - intros id' e' rest'.
    destruct (decide (id = id')) as [<-|Hne].
    + intros _. by destruct (inv_emitting _ I _ _ _ Hw).
    + rewrite lookup_insert_ne by exact Hne. apply (inv_emitting _ I).
  - rewrite Hp. apply Forall_app. split.
    + eapply Forall_impl; [apply (inv_posted _ I)|].
      intros c. by apply posted_ok_mono.
    + unfold calls_of. destruct (is_finished e) eqn:Hfe.
      * specialize (Hje eq_refl).
        assert (Hok : forall sl,
                   sl ∈ [Forward Controller_finished; Thread_quit id] ->
                   posted_ok s' (id, sl, e)).
        { intros sl Hsl. split; [exact Hid|].
          split; [intros _; split; [exact Hsl | exact Hje]|].
          simpl. congruence. }
        apply Forall_forall. intros c Hin.
        repeat (apply elem_of_cons in Hin as [->|Hin]);
          [..| by apply elem_of_nil in Hin];
          apply Hok; repeat constructor.
      * apply Forall_singleton. split; [exact Hid|].
        split; [simpl; congruence | reflexivity].
  - intros id' Hid'.
    pose proof (inv_count _ I id' Hid') as Hcnt.
    unfold terminal_delivered, terminal_posted, terminal_pending in *.
    rewrite Hp. unfold s'. cbn [delivered workers].
    rewrite filter_app, length_app, count_calls_of.
    destruct (decide (id' = id)) as [->|Hne].
    + rewrite lookup_insert_eq. rewrite Hw in Hcnt.
      destruct (is_finished e) eqn:Hfe.
      * rewrite filter_cons_True in Hcnt by exact Hfe. simpl in Hcnt. lia.
      * rewrite filter_cons_False in Hcnt by congruence. lia.
    + rewrite lookup_insert_ne by congruence. lia.
Qed.

Lemma inv_thread_step s id : inv s -> inv (thread_step id s).
Proof.
  intros I. unfold thread_step.
  destruct (threads s !! id) as [[]|] eqn:Ht; try exact I.
  destruct (workers s !! id) as [[|e rest]|] eqn:Hw; try exact I.
  destruct (decide _) as [[Hg Hc]|_].
  { apply inv_destroy_worker; [| intros e rest; congruence | exact I].
    destruct (inv_workers _ I _ _ Hw) as (fn & w & Hs & _).
    eapply lookup_lt_Some, Hs. }
  destruct (decide _) as [Hq|_]; [|exact I].
  split; cbn [controller connections jobs threads workers gone posted
              delivered]; try apply I.
  - intros id' Hid' Hg' Hr.
    destruct (decide (id = id')) as [<-|Hne];
      [by rewrite lookup_insert_eq in Hr|].
    rewrite lookup_insert_ne in Hr by exact Hne. by apply (inv_wfin _ I).
  - intros id' Hid'. destruct (inv_started _ I id' Hid') as [Hw' Ht'].
    split; [exact Hw'|].
    destruct (decide (id = id')) as [<-|Hne];
      [by rewrite lookup_insert_eq | by rewrite lookup_insert_ne].
  - intros id' e rest Hl.
    destruct (inv_emitting _ I _ _ _ Hl) as [Hg' Hr]. split; [exact Hg'|].
    rewrite lookup_insert_ne; [exact Hr|]. intros ->. congruence.
Qed.

Lemma inv_reap s id : inv s -> inv (reap id s).
Proof.
  intros I. unfold reap.
  destruct (threads s !! id) as [[]|] eqn:Ht; try exact I.
  destruct (decide _); [|exact I].
  apply inv_destroy_thread; [congruence | exact I].
Qed.

(** What the tab receives from a call that satisfies [posted_ok]. *)
Lemma call_result_ok s c :
  inv s -> posted_ok s c ->
  call_result (connections s) c
  = if decide (snd (fst c) = Forward Controller_finished)
    then [(fst (fst c), Tab_on_finished, snd c)]
    else if is_finished (snd c) then [] else [c].
Proof.
  intros I (Hid & Hfin & Hprog). destruct c as [[id sl] e]. simpl in *.
  unfold call_result. simpl.
  destruct (is_finished e) eqn:Hfe.
  - destruct (Hfin eq_refl) as [Hsl _].
    repeat (apply elem_of_cons in Hsl as [->|Hsl]);
      [..| by apply elem_of_nil in Hsl].
    + rewrite decide_True by reflexivity. by rewrite (inv_fin _ I).
    + by rewrite decide_False by discriminate.
  - rewrite (Hprog eq_refl). by rewrite decide_False by discriminate.
Qed.

(** The interactive thread handles a call that satisfies [posted_ok]:
    the tab receives what the call carries, and nothing else changes but
    the list of threads told to quit. *)
Lemma dispatch_cons s c rest :
  inv s -> posted s = c :: rest ->
  controller (dispatch s) = controller s
  /\ connections (dispatch s) = connections s
  /\ jobs (dispatch s) = jobs s
  /\ threads (dispatch s) = threads s
  /\ workers (dispatch s) = workers s
  /\ gone (dispatch s) = gone s
  /\ posted (dispatch s) = rest
  /\ delivered (dispatch s) = delivered s ++ call_result (connections s) c
  /\ aborted (dispatch s) = aborted s.
Proof.
  intros I Hp. pose proof (inv_posted _ I) as Hall. rewrite Hp in Hall.
  apply Forall_cons in Hall as [(_ & Hfin & Hprog) _].
  unfold dispatch, call_result. rewrite Hp.
  destruct c as [[id sl] e]. cbn [fst snd] in *.
  destruct (is_finished e) eqn:Hfe.
  - destruct (Hfin eq_refl) as [Hsl _].
    repeat (apply elem_of_cons in Hsl as [->|Hsl]);
      [..| by apply elem_of_nil in Hsl]; cbn; rewrite ?app_nil_r; done.
  - rewrite (Hprog eq_refl). cbn. done.
Qed.

Lemma inv_dispatch s : inv s -> inv (dispatch s).
Proof.
  intros I.
  destruct (posted s) as [|c rest] eqn:Hq.
  { by rewrite dispatch_idle by exact Hq. }
  destruct (dispatch_cons s c rest I Hq)
    as (Hk & Hc & Hj & Ht & Hws & Hg & Hp & Hd & _).
  pose proof (inv_posted _ I) as Hall. rewrite Hq in Hall.
  apply Forall_cons in Hall as [Hok Hrest].
  rewrite (call_result_ok _ _ I Hok) in Hd.
  set (s' := dispatch s) in *.
  assert (Hjp : jobs s `prefix_of` jobs s') by (by rewrite Hj).
  assert (Hf : fresh s' = fresh s) by (unfold fresh; by rewrite Hj).
  destruct Hok as (Hid & Hfin & Hprog).
  destruct c as [[id sl] e]. simpl in *.
  split; rewrite ?Hk, ?Hc, ?Ht, ?Hws, ?Hg, ?Hf; try apply I.
  - intros id' l Hl. rewrite Hj. by apply (inv_workers _ I).
  - rewrite Hp. eapply Forall_impl; [exact Hrest|].
    intros c. by apply posted_ok_mono.
  - rewrite Hd. apply Forall_app. split.
    + eapply Forall_impl; [apply (inv_delivered _ I)|].
      intros c. by apply delivered_ok_mono.
    + destruct (decide (sl = Forward Controller_finished)) as [->|Hsl].
      * apply Forall_singleton. split; [simpl; lia|].
        destruct (is_finished e) eqn:Hfe.
        -- split; [unfold slot_for; simpl; by rewrite Hfe|].
           intros _. eapply job_emission_mono; [exact Hjp|]. by apply Hfin.
        -- by specialize (Hprog eq_refl).
      * destruct (is_finished e) eqn:Hfe; [constructor|].
        apply Forall_singleton. split; [simpl; lia|].
        split; [unfold slot_for; simpl; rewrite Hfe; by apply Hprog|].
        simpl. congruence.
  - intros id' Hid'.
    pose proof (inv_count _ I id' Hid') as Hcnt.
    unfold terminal_delivered, terminal_posted, terminal_pending in *.
    rewrite Hq in Hcnt. rewrite Hd, Hp, Hws, filter_app, length_app.
    destruct (decide (sl = Forward Controller_finished)) as [->|Hsl].
    + assert (Hfe : is_finished e = true).
      { destruct (is_finished e) eqn:Hfe; [reflexivity|].
        by specialize (Hprog eq_refl). }
      destruct (decide (id' = id)) as [->|Hne].
      * rewrite filter_cons_True in Hcnt by done.
        rewrite (filter_cons_True _ _ []) by done. simpl in *. lia.
      * rewrite filter_cons_False in Hcnt
          by (intros (? & _); simpl in *; congruence).
        rewrite (filter_cons_False _ _ [])
          by (intros (? & _); simpl in *; congruence).
        simpl in *. lia.
    + rewrite filter_cons_False in Hcnt
        by (intros (_ & ? & _); simpl in *; congruence).
      destruct (is_finished e) eqn:Hfe.
      * simpl. lia.
      * rewrite (filter_cons_False _ _ [])
          by (intros (_ & _ & ?); simpl in *; congruence).
        simpl. lia.
Qed.

Lemma inv_step s (a : action R) : inv s -> inv (step s a).
Proof.
  intros I. unfold step. destruct (aborted s); [exact I|].
  destruct a.
  - by apply inv_start.
  - by apply inv_stop.
  - by apply inv_worker_step.
  - by apply inv_thread_step.
  - by apply inv_dispatch.
  - by apply inv_reap.
Qed.

Lemma inv_exec_from s acts : inv s -> inv (exec s acts).
Proof.
  revert s. induction acts as [|a acts IH]; intros s I; [exact I|].
  cbn [exec foldl]. apply IH. by apply inv_step.
Qed.

(** Every state a run reaches from a freshly built tab satisfies the
    invariant. *)
Lemma inv_exec acts : inv (exec init acts).
Proof. apply inv_exec_from, inv_init. Qed.

(** ** Calls made in the interactive thread *)

(** A [stop] that returns leaves the process as alive as it was, and no
    [stop] starts a job or hands anything to the tab. *)
Lemma stop_keeps s :
  jobs (snd (stop s)) = jobs s
  /\ delivered (snd (stop s)) = delivered s
  /\ workers (snd (stop s)) = workers s
  /\ (fst (stop s) = Done -> aborted (snd (stop s)) = aborted s).
Proof.
  unfold stop, release_worker.
  destruct (_thread (controller s)) as [th|].
  - destruct (threads s !! th) as [[]|]; cbn [fst snd]; try done.
    cbn [destroy quit controller].
    destruct (_worker (controller s)) as [w|]; [|done].
    by destruct (decide _).
  - cbn [fst snd]. destruct (_worker (controller s)) as [w|]; [|done].
    by destruct (decide _).
Qed.

Lemma stop_running s (a : nat) :
  _thread (controller s) = Some a ->
  threads s !! a = Some Running ->
  stop s = (Aborted, abort (quit a s)).
Proof. intros Ha Hr. unfold stop. by rewrite Ha, Hr. Qed.

Lemma stop_destroyed s (a : nat) :
  _thread (controller s) = Some a ->
  threads s !! a = Some Destroyed ->
  stop s = (RuntimeError, s).
Proof. intros Ha Hr. unfold stop. by rewrite Ha, Hr. Qed.

Lemma start_not_done s (fn : M R) (w : World) :
  fst (stop s) <> Done -> start fn w s = stop s.
Proof. unfold start. by destruct (stop s) as [[] s1]. Qed.

(** A [start] that returns has started the job: the controller tracks
    it, and its thread runs. *)
Lemma start_done s (fn : M R) (w : World) :
  fst (start fn w s) = Done ->
  let s1 := snd (start fn w s) in
  _thread (controller s1) = Some (fresh s)
  /\ jobs s1 = jobs s ++ [(fn, w)]
  /\ threads s1 !! fresh s = Some Running
  /\ aborted s1 = aborted s.
Proof.
  unfold start. destruct (stop_keeps s) as (Hj & _ & _ & Ha).
  destruct (stop s) as [[] s1]; cbn [fst snd] in *; try discriminate.
  intros _. unfold fresh. rewrite Hj.
  split; [reflexivity|]. split; [reflexivity|].
  split; [apply lookup_insert_eq | by apply Ha].
Qed.

Lemma step_alive s (a : action R) :
  aborted s = false ->
  step s a = match a with
             | Start fn w => snd (start fn w s)
             | Stop => snd (stop s)
             | WorkerStep id => worker_step id s
             | ThreadStep id => thread_step id s
             | Dispatch => dispatch s
             | Reap id => reap id s
             end.
Proof. unfold step. by intros ->. Qed.

Lemma exec_cons s (a : action R) acts :
  exec s (a :: acts) = exec (step s a) acts.
Proof. reflexivity. Qed.

(** Running the worker of job [id] until it has nothing left. *)
Lemma worker_runs_out (id : nat) (l : list (emission R)) :
  forall s, aborted s = false -> threads s !! id = Some Running ->
    workers s !! id = Some l ->
    let u := exec s (replicate (length l) (WorkerStep id)) in
    workers u !! id = Some [] /\ aborted u = false.
Proof.
  induction l as [|e rest IH]; intros s Ha Ht Hw; [by split|].
  cbn [length replicate]. rewrite exec_cons, (step_alive _ _ Ha).
  apply IH; rewrite (worker_step_fields _ _ _ _ Ht Hw);
    cbn [aborted threads workers]; try done.
  apply lookup_insert_eq.
Qed.

(** Draining the queue hands every posted call to its slot, in
    order. *)
Lemma drain_spec s :
  inv s -> aborted s = false ->
  posted (drain s) = []
  /\ workers (drain s) = workers s
  /\ jobs (drain s) = jobs s
  /\ aborted (drain s) = false.
Proof.
  unfold drain. remember (posted s) as q eqn:Hq.
  revert s Hq. induction q as [|c rest IH]; intros s Hq I Ha.
  - by cbn.
  - cbn [length replicate]. rewrite exec_cons, (step_alive _ _ Ha).
    destruct (dispatch_cons s c rest I (eq_sym Hq))
      as (_ & _ & Hj & _ & Hw & _ & Hp & _ & Ha').
    destruct (IH (dispatch s) (eq_sym Hp) (inv_dispatch _ I))
      as (Hp' & Hw' & Hj' & Ha''); [by rewrite Ha'|].
    by rewrite Hw', Hj', Hw, Hj.
Qed.

(** C4.  [Worker.run] has exactly one terminal event for a job, but a
    job that is superseded while its thread runs never reports it.  Let
    the controller track job [a], its thread running and its terminal
    event not yet received by the tab, when [start] is called for another
    job: the process is aborted under that call, so whatever is attempted
    afterwards the tab has received no terminal event of [a], although
    there is exactly one, queued or still to be emitted; and the other
    job is never started. *)
Theorem superseded_job_never_reports acts (a : nat) (fn fnB : M R)
    (w wB : World) (more : list (action R)) :
  let s := exec init acts in
  let u := exec (step s (Start fnB wB)) more in
  jobs s !! a = Some (fn, w) ->
  aborted s = false ->
  _thread (controller s) = Some a ->
  threads s !! a = Some Running ->
  terminal_delivered a s = 0%nat ->
  (exists evs, fst (Worker_run fn w)
               = map Emit_progressed evs ++ [outcome_emission (fst (fn w))])
  /\ aborted u = true
  /\ terminal_delivered a u = 0%nat
  /\ (terminal_posted a u + terminal_pending a u = 1)%nat
  /\ jobs u = jobs s.
Proof.
  intros s u Hj Ha Ht Hr Hd.
  pose proof (inv_exec acts) as I. fold s in I.
  assert (Hs1 : step s (Start fnB wB) = abort (quit a s)).
  { rewrite (step_alive _ _ Ha). rewrite start_not_done;
      rewrite (stop_running s a Ht Hr); [reflexivity | discriminate]. }
  assert (Hu : u = abort (quit a s)).
  { unfold u. rewrite Hs1. by apply exec_aborted. }
  assert (Hid : (a < fresh s)%nat) by (eapply lookup_lt_Some, Hj).
  pose proof (inv_count _ I a Hid) as Hc.
  split; [eexists; apply Worker_run_trace|].
  rewrite Hu. split; [reflexivity|].
  unfold terminal_delivered, terminal_posted, terminal_pending in *.
  cbn [abort quit delivered posted workers jobs].
  split; [exact Hd|]. split; [lia | reflexivity].
Qed.

(** C1.  A [start] that returns leaves the thread of its job running and
    tracked by the controller.  Whenever the controller tracks a job
    whose thread runs, a call of [start] or [stop] does not return: the
    last reference to the running thread is dropped and the process is
    aborted.  The job superseding it is never started, and nothing is
    handed to the tab any more: no event of the old job is discarded,
    there is just no process left to deliver it. *)
Theorem superseding_start_aborts acts (fnA fnB : M R) (wA wB : World)
    (more : list (action R)) :
  let s := exec init acts in
  (aborted s = false -> fst (start fnA wA s) = Done ->
   _thread (controller (snd (start fnA wA s))) = Some (fresh s)
   /\ jobs (snd (start fnA wA s)) !! fresh s = Some (fnA, wA)
   /\ threads (snd (start fnA wA s)) !! fresh s = Some Running
   /\ aborted (snd (start fnA wA s)) = false)
  /\ (forall a,
        aborted s = false ->
        _thread (controller s) = Some a ->
        threads s !! a = Some Running ->
        fst (start fnB wB s) = Aborted
        /\ fst (stop s) = Aborted
        /\ aborted (step s (Start fnB wB)) = true
        /\ jobs (step s (Start fnB wB)) = jobs s
        /\ posted (step s (Start fnB wB)) = posted s
        /\ delivered (step s (Start fnB wB)) = delivered s
        /\ exec (step s (Start fnB wB)) more = step s (Start fnB wB)).
Proof.
  intros s. split.
  - intros Ha Hd. destruct (start_done s fnA wA Hd) as (Hk & Hj & Ht & Hab).
    split; [exact Hk|]. split; [|split; [exact Ht | by rewrite Hab]].
    rewrite Hj. by apply list_lookup_middle.
  - intros a Ha Ht Hr.
    assert (Hst : start fnB wB s = (Aborted, abort (quit a s))).
    { rewrite start_not_done; rewrite (stop_running s a Ht Hr);
        [reflexivity | discriminate]. }
    assert (Hs1 : step s (Start fnB wB) = abort (quit a s)).
    { by rewrite (step_alive _ _ Ha), Hst. }
    rewrite Hs1, Hst, (stop_running s a Ht Hr).
    repeat (split; [reflexivity|]). by apply exec_aborted.
Qed.

End WithResult.
End ControllerFacts.

(** * The properties on concrete inputs *)

Section Examples.
Existing Instance Demo.host.
Import JobController.

(** The specification's round-trip example. *)
Example probe_round_trip :
  fst (probe_file Demo.a_foo_mp3 Demo.w0)
  = Returned (AudioInfo.mk Demo.a_foo_mp3 (Demo.mkDecimal 125 1)
                (Some 44100) (Some 2) (JStr "pcm_s16le") None).
Proof. vm_compute. reflexivity. Qed.

(** The specification's naming example. *)
Example output_naming :
  fst (convert_file Demo.foo_mp3 Demo.opts_wav Demo.w0)
  = Returned (PurePath.parse "out/foo.wav")
  /\ fst (convert_file Demo.foo_mp3 Demo.opts_keep16 Demo.w0)
     = Returned (PurePath.parse "out/foo.mp3").
Proof. split; vm_compute; reflexivity. Qed.

(** C5, as stated, fails: without [force_wav] and for an input that is
    not a [.wav] file, a bit depth of 8 is not rejected; the tool is
    spawned with [-c:a copy] and the conversion returns.  A bit depth of
    16 gets [copy] as well, not [pcm_s16le]. *)
Lemma convert_file_copy_ignores_bit_depth :
  _pcm_codec 8 = Raised (ValueError "bit_depth must be one of 16, 24, 32")
  /\ fst (convert_file Demo.foo_mp3 Demo.opts_keep8 Demo.w0)
     = Returned (PurePath.parse "out/foo.mp3")
  /\ log (snd (convert_file Demo.foo_mp3 Demo.opts_keep8 Demo.w0))
     = [Mkdir (PurePath.parse "out");
        Spawn ["ffmpeg"; "-n"; "-i"; "foo.mp3"; "-vn"; "-ac"; "1"; "-ar";
               "48000"; "-c:a"; "copy"; "out/foo.mp3"]]
  /\ log (snd (convert_file Demo.foo_mp3 Demo.opts_keep16 Demo.w0))
     = [Mkdir (PurePath.parse "out");
        Spawn ["ffmpeg"; "-n"; "-i"; "foo.mp3"; "-vn"; "-ac"; "1"; "-ar";
               "48000"; "-c:a"; "copy"; "out/foo.mp3"]].
Proof. repeat split; vm_compute; reflexivity. Qed.

(** [foo.mp3] converted under [force_wav]: the result lies in the
    output directory and is named [foo.wav]. *)
Lemma convert_file_output_path_witness :
  convert_file Demo.foo_mp3 Demo.opts_wav Demo.w0
  = (Returned (PurePath.parse "out/foo.wav"),
     snd (convert_file Demo.foo_mp3 Demo.opts_wav Demo.w0))
  /\ PurePath.parse "out/foo.wav"
     = PurePath.joinpath (out_dir Demo.opts_wav)
         (PurePath.stem Demo.foo_mp3
          +:+ (if force_wav Demo.opts_wav then ".wav"
               else PurePath.suffix Demo.foo_mp3)).
Proof.
  assert (Hc : convert_file Demo.foo_mp3 Demo.opts_wav Demo.w0
               = (Returned (PurePath.parse "out/foo.wav"),
                  snd (convert_file Demo.foo_mp3 Demo.opts_wav Demo.w0)))
    by (vm_compute; reflexivity).
  split; [exact Hc|].
  exact (proj1 (convert_file_output_path (H:=Demo.host) Demo.foo_mp3 Demo.opts_wav Demo.w0
                  _ _ Hc)).
Defined.

(** A bit depth of 8 under [force_wav]: the conversion fails, and the
    output directory exists all the same. *)
Lemma convert_file_mkdir_survives_failure_witness :
  convert_file Demo.foo_mp3 Demo.opts_wav8 Demo.w0
  = (Raised (ValueError "bit_depth must be one of 16, 24, 32"),
     snd (convert_file Demo.foo_mp3 Demo.opts_wav8 Demo.w0))
  /\ out_dir Demo.opts_wav8
     ∈ dirs (snd (convert_file Demo.foo_mp3 Demo.opts_wav8 Demo.w0)).
Proof.
  assert (Hc : convert_file Demo.foo_mp3 Demo.opts_wav8 Demo.w0
               = (Raised (ValueError "bit_depth must be one of 16, 24, 32"),
                  snd (convert_file Demo.foo_mp3 Demo.opts_wav8 Demo.w0)))
    by (vm_compute; reflexivity).
  split; [exact Hc|].
  exact (proj1 (proj2 (proj2
           (convert_file_mkdir_survives_failure (H:=Demo.host) Demo.foo_mp3 Demo.opts_wav8
              Demo.w0 _ _ Hc (or_introl (ex_intro _ _ eq_refl)))))).
Defined.

(** [a/foo.mp3] and [b/foo.flac] are distinct and have the same stem:
    a batch over both returns one output path twice. *)
Lemma convert_file_same_stem_same_output_witness :
  Demo.a_foo_mp3 <> Demo.b_foo_flac
  /\ PurePath.stem Demo.a_foo_mp3 = PurePath.stem Demo.b_foo_flac
  /\ exists o,
       fst (ConvertTab_fn [Demo.a_foo_mp3; Demo.b_foo_flac] Demo.opts_wav Demo.w0)
       = Returned [o; o].
Proof.
  split; [discriminate|]. split; [vm_compute; reflexivity|].
  assert (Hr : ConvertTab_fn [Demo.a_foo_mp3; Demo.b_foo_flac] Demo.opts_wav Demo.w0
               = (Returned [PurePath.parse "out/foo.wav"; PurePath.parse "out/foo.wav"],
                  snd (ConvertTab_fn [Demo.a_foo_mp3; Demo.b_foo_flac]
                         Demo.opts_wav Demo.w0)))
    by (vm_compute; reflexivity).
  destruct (proj2 (convert_file_same_stem_same_output (H:=Demo.host) Demo.a_foo_mp3
                     Demo.b_foo_flac Demo.opts_wav eq_refl (or_introl eq_refl))
              _ _ _ Hr) as [o Ho].
  exists o. rewrite Hr. simpl. by rewrite Ho.
Defined.

(** A bit depth of 8 under [force_wav] is rejected. *)
Lemma convert_file_codec_for_wav_witness :
  ~ blocked (out_dir Demo.opts_wav8) Demo.w0
  /\ fst (convert_file Demo.foo_mp3 Demo.opts_wav8 Demo.w0)
     = Raised (ValueError "bit_depth must be one of 16, 24, 32").
Proof.
  assert (Hb : ~ blocked (out_dir Demo.opts_wav8) Demo.w0).
  { unfold blocked. apply (bool_decide_eq_false_1 _). vm_compute. reflexivity. }
  split; [exact Hb|].
  apply (convert_file_codec_for_wav (H:=Demo.host) Demo.foo_mp3 Demo.opts_wav8 Demo.w0 Hb
           (or_introl eq_refl)).
  intros Hin. repeat (apply elem_of_cons in Hin as [Hin|Hin]; [discriminate|]).
  by apply elem_of_nil in Hin.
Defined.

(** A batch of two files that both succeed. *)
Lemma batch_success_ordered_witness :
  [Demo.a_foo_mp3; Demo.a_mixed_mkv] <> []
  /\ succeed_in_turn probe_file "Probed" 2 1
       [Demo.a_foo_mp3; Demo.a_mixed_mkv] Demo.w0
  /\ exists res w',
       ProbeTab_fn [Demo.a_foo_mp3; Demo.a_mixed_mkv] Demo.w0 = (Returned res, w')
       /\ Forall2 (produced probe_file) [Demo.a_foo_mp3; Demo.a_mixed_mkv] res
       /\ ordered_progress "Probed" [Demo.a_foo_mp3; Demo.a_mixed_mkv]
            (progress_of (since Demo.w0 w')).
Proof.
  assert (Hne : [Demo.a_foo_mp3; Demo.a_mixed_mkv] <> []) by discriminate.
  assert (Hs : succeed_in_turn probe_file "Probed" 2 1
                 [Demo.a_foo_mp3; Demo.a_mixed_mkv] Demo.w0).
  { eapply succeed_cons; [vm_compute; reflexivity|].
    eapply succeed_cons; [vm_compute; reflexivity|].
    apply succeed_nil. }
  split; [exact Hne|]. split; [exact Hs|].
  exact (proj1 (batch_success_ordered (H:=Demo.host) _ Demo.opts_wav Demo.w0 Hne)
           Hs).
Defined.

(** A batch of three whose second item makes the tool fail with
    ["boom"]. *)
Lemma batch_stops_at_first_failure_witness :
  returncode Demo.boom <> 0
  /\ fst (ProbeTab_fn Demo.three Demo.w0) = Raised (FFprobeError "boom")
  /\ length (progress_of (since Demo.w0 (snd (ProbeTab_fn Demo.three Demo.w0))))
     = 1%nat
  /\ fst (ConvertTab_fn Demo.three Demo.opts_wav Demo.w0)
     = Raised (FFmpegError "boom").
Proof.
  assert (Hrc : returncode Demo.boom <> 0) by discriminate.
  split; [exact Hrc|].
  assert (Hp : exists outs,
             batch_loop probe_file "Probed" 3 1 [Demo.a_foo_mp3] [] Demo.w0
             = (Returned outs,
                snd (batch_loop probe_file "Probed" 3 1 [Demo.a_foo_mp3] []
                       Demo.w0)))
    by (eexists; vm_compute; reflexivity).
  assert (Hc : exists outs,
             batch_loop (fun q => convert_file q Demo.opts_wav) "Converted" 3 1
               [Demo.a_foo_mp3] [] Demo.w0
             = (Returned outs,
                snd (batch_loop (fun q => convert_file q Demo.opts_wav)
                       "Converted" 3 1 [Demo.a_foo_mp3] [] Demo.w0)))
    by (eexists; vm_compute; reflexivity).
  destruct Hp as [outp Hp]. destruct Hc as [outc Hc].
  pose proof (proj1 (batch_stops_at_first_failure (H:=Demo.host) [Demo.a_foo_mp3]
                       Demo.a_bad_mp3 [Demo.a_later_mp3] Demo.opts_wav
                       Demo.w0 _ Demo.boom Hrc) outp Hp eq_refl) as Hprobe.
  assert (Hb : ~ blocked (out_dir Demo.opts_wav)
                   (snd (batch_loop (fun q => convert_file q Demo.opts_wav)
                           "Converted" 3 1 [Demo.a_foo_mp3] [] Demo.w0))).
  { unfold blocked. apply (bool_decide_eq_false_1 _). vm_compute. reflexivity. }
  pose proof (proj2 (batch_stops_at_first_failure (H:=Demo.host) [Demo.a_foo_mp3]
                       Demo.a_bad_mp3 [Demo.a_later_mp3] Demo.opts_wav
                       Demo.w0 _ Demo.boom Hrc) outc "pcm_s16le" Hc Hb
                eq_refl eq_refl) as Hconv.
  cbv zeta in Hprobe, Hconv.
  destruct Hprobe as (Hpr & _ & _ & _ & _ & Hlen).
  destruct Hconv as (Hcr & _).
  split; [|split].
  - change Demo.three
      with ([Demo.a_foo_mp3] ++ Demo.a_bad_mp3 :: [Demo.a_later_mp3]).
    rewrite Hpr. reflexivity.
  - change Demo.three
      with ([Demo.a_foo_mp3] ++ Demo.a_bad_mp3 :: [Demo.a_later_mp3]).
    rewrite Hpr. exact Hlen.
  - change Demo.three
      with ([Demo.a_foo_mp3] ++ Demo.a_bad_mp3 :: [Demo.a_later_mp3]).
    rewrite Hcr. reflexivity.
Defined.

(** A document with streams and no duration; a document with nothing
    but a duration. *)
Lemma probe_file_needs_duration_witness :
  subprocess_run Demo.w0 (ffprobe_cmd Demo.a_nodur_mkv)
  = Returned (Demo.printed Demo.doc_no_duration)
  /\ fst (probe_file Demo.a_nodur_mkv Demo.w0)
     = Raised (FFprobeError "Could not determine duration")
  /\ fst (probe_file Demo.a_bare_mkv Demo.w0)
     = Returned (AudioInfo.mk Demo.a_bare_mkv (Demo.mkDecimal 7 0)
                   None None JNull None).
Proof.
  split; [vm_compute; reflexivity|]. split.
  - apply (probe_file_needs_duration (H:=Demo.host) Demo.a_nodur_mkv Demo.w0
             (Demo.printed Demo.doc_no_duration)
             (Demo.fields Demo.doc_no_duration)
             [("bit_rate", JStr "128000")]);
      vm_compute; reflexivity.
  - apply (proj2 (probe_file_needs_duration (H:=Demo.host) Demo.a_bare_mkv Demo.w0
                    (Demo.printed Demo.doc_bare)
                    (Demo.fields Demo.doc_bare)
                    [("duration", JInt 7)]
                    ltac:(vm_compute; reflexivity) eq_refl
                    ltac:(vm_compute; reflexivity) eq_refl)
                 (Demo.mkDecimal 7 0) eq_refl);
      reflexivity.
Defined.

(** A video stream, then an audio stream whose sample rate is not a
    number, then another audio stream. *)
Lemma probe_file_first_audio_stream_witness :
  subprocess_run Demo.w0 (ffprobe_cmd Demo.a_mixed_mkv)
  = Returned (Demo.printed Demo.doc_mixed)
  /\ fst (probe_file Demo.a_mixed_mkv Demo.w0)
     = Returned (AudioInfo.mk Demo.a_mixed_mkv (Demo.mkDecimal 325 2)
                   None (Some 6) (JStr "aac") (Some 128000)).
Proof.
  split; [vm_compute; reflexivity|].
  apply (proj1 (probe_file_first_audio_stream (H:=Demo.host) Demo.a_mixed_mkv Demo.w0
                  (Demo.printed Demo.doc_mixed)
                  (Demo.fields Demo.doc_mixed)
                  [("duration", JStr "3.25"); ("bit_rate", JStr "128000")]
                  [JObj [("codec_type", JStr "video"); ("codec_name", JStr "h264")];
                   JObj [("codec_type", JStr "audio"); ("sample_rate", JStr "n/a");
                         ("channels", JInt 6); ("codec_name", JStr "aac")];
                   JObj [("codec_type", JStr "audio"); ("sample_rate", JStr "8000");
                         ("codec_name", JStr "mp3")]]
                  (Demo.mkDecimal 325 2)
                  ltac:(vm_compute; reflexivity) eq_refl
                  ltac:(vm_compute; reflexivity) eq_refl
                  ltac:(vm_compute; reflexivity) eq_refl)
               [JObj [("codec_type", JStr "video"); ("codec_name", JStr "h264")]]
               [("codec_type", JStr "audio"); ("sample_rate", JStr "n/a");
                ("channels", JInt 6); ("codec_name", JStr "aac")]
               [JObj [("codec_type", JStr "audio"); ("sample_rate", JStr "8000");
                      ("codec_name", JStr "mp3")]]
               eq_refl).
  - constructor; [|constructor]. split; [by eexists | reflexivity].
  - reflexivity.
Defined.

(** Job 0 has reported its progress and not its completion when [start]
    is called for another job. *)
Lemma superseded_job_never_reports_witness :
  jobs (exec init DemoUI.run_busy) !! 0%nat = Some (Demo.jobA, Demo.w0)
  /\ _thread (controller (exec init DemoUI.run_busy)) = Some 0%nat
  /\ threads (exec init DemoUI.run_busy) !! 0%nat = Some Running
  /\ terminal_delivered 0 (exec init DemoUI.run_busy) = 0%nat
  /\ terminal_delivered 0
       (exec (step (exec init DemoUI.run_busy) (Start Demo.jobB Demo.w0))
             [WorkerStep 0; Dispatch; Dispatch; WorkerStep 1]) = 0%nat
  /\ jobs (exec (step (exec init DemoUI.run_busy) (Start Demo.jobB Demo.w0))
                [WorkerStep 0; Dispatch; Dispatch; WorkerStep 1])
     = jobs (exec init DemoUI.run_busy).
Proof.
  assert (Hj : jobs (exec init DemoUI.run_busy) !! 0%nat
               = Some (Demo.jobA, Demo.w0)) by reflexivity.
  assert (Ha : aborted (exec init DemoUI.run_busy) = false)
    by (vm_compute; reflexivity).
  assert (Ht : _thread (controller (exec init DemoUI.run_busy)) = Some 0%nat)
    by (vm_compute; reflexivity).
  assert (Hr : threads (exec init DemoUI.run_busy) !! 0%nat = Some Running)
    by (vm_compute; reflexivity).
  assert (Hd : terminal_delivered 0 (exec init DemoUI.run_busy) = 0%nat)
    by (vm_compute; reflexivity).
  destruct (ControllerFacts.superseded_job_never_reports DemoUI.run_busy
              0%nat Demo.jobA Demo.jobB Demo.w0 Demo.w0
              [WorkerStep 0; Dispatch; Dispatch; WorkerStep 1]
              Hj Ha Ht Hr Hd) as (_ & _ & Hu & _ & Hjobs).
  split; [exact Hj|]. split; [exact Ht|]. split; [exact Hr|].
  split; [exact Hd|]. split; [exact Hu | exact Hjobs].
Defined.

(** The same moment: the call of [start] does not return. *)
Lemma superseding_start_aborts_witness :
  _thread (controller (exec init DemoUI.run_busy)) = Some 0%nat
  /\ threads (exec init DemoUI.run_busy) !! 0%nat = Some Running
  /\ fst (start Demo.jobB Demo.w0 (exec init DemoUI.run_busy)) = Aborted
  /\ aborted (step (exec init DemoUI.run_busy) (Start Demo.jobB Demo.w0))
     = true
  /\ exec (step (exec init DemoUI.run_busy) (Start Demo.jobB Demo.w0))
          [WorkerStep 0; Dispatch]
     = step (exec init DemoUI.run_busy) (Start Demo.jobB Demo.w0).
Proof.
  assert (Ha : aborted (exec init DemoUI.run_busy) = false)
    by (vm_compute; reflexivity).
  assert (Ht : _thread (controller (exec init DemoUI.run_busy)) = Some 0%nat)
    by (vm_compute; reflexivity).
  assert (Hr : threads (exec init DemoUI.run_busy) !! 0%nat = Some Running)
    by (vm_compute; reflexivity).
  destruct (proj2 (ControllerFacts.superseding_start_aborts DemoUI.run_busy
                     Demo.jobA Demo.jobB Demo.w0 Demo.w0
                     [WorkerStep 0; Dispatch]) 0%nat Ha Ht Hr)
    as (H1 & _ & H3 & _ & _ & _ & H7).
  split; [exact Ht|]. split; [exact Hr|]. split; [exact H1|].
  split; [exact H3 | exact H7].
Defined.

End Examples.

(** * Further properties of the code *)

(** ** Messages of a failing tool *)

Lemma lstrip_cases (s : string) :
  (Str.blank s = true /\ Str.lstrip s = "")
  \/ (Str.blank s = false
      /\ exists c r, Str.lstrip s = String c r /\ Str.isspace c = false).
Proof.
  induction s as [|c s IH]; [by left|].
  simpl. destruct (Str.isspace c) eqn:Hc.
  - exact IH.
  - right. split; [reflexivity|]. by exists c, s.
Qed.

Lemma rstrip_keeps_head (c : ascii) (r : string) :
  Str.isspace c = false -> Str.rstrip (String c r) <> "".
Proof.
  intros Hc. simpl. destruct (Str.rstrip r); [by rewrite Hc | discriminate].
Qed.

Lemma strip_empty_iff_blank (s : string) :
  Str.strip s = "" <-> Str.blank s = true.
Proof.
  unfold Str.strip.
  destruct (lstrip_cases s) as [[Hb ->] | (Hb & c & r & -> & Hc)].
  - by split.
  - rewrite Hb. split; [|discriminate].
    intros E. by apply rstrip_keeps_head in E.
Qed.

Section MoreProbe.
Context `{Host}.

(** X1. Whatever its outcome, [probe_file] runs exactly one command, the
    fixed [ffprobe] argument vector ending with the path, and leaves the
    directories and files as they were. *)
Theorem probe_file_one_command (path : Path) (w : World) :
  since w (snd (probe_file path w))
  = [Spawn ["ffprobe"; "-v"; "error"; "-print_format"; "json";
            "-show_format"; "-show_streams"; PurePath.str path]]
  /\ dirs (snd (probe_file path w)) = dirs w
  /\ files (snd (probe_file path w)) = files w.
Proof.
  rewrite probe_file_eq. cbv zeta.
  assert (Hx : forall o : outcome (AudioInfo.t pyfloat),
             since w (snd (o, record (Spawn (ffprobe_cmd path)) w))
             = [Spawn (ffprobe_cmd path)]).
  { intros o. apply since_extends, extends_record. }
  destruct (subprocess_run w (ffprobe_cmd path)) as [cp|e];
    [destruct (negb _); [|destruct (json_loads _)]|];
    (split; [apply Hx | split; reflexivity]).
Qed.

(** X2. [probe_file] passes on, unwrapped, what goes wrong outside its own
    two checks: the exception of a process that cannot be created, the
    [JSONDecodeError] of output that is not JSON, the [AttributeError] of
    JSON that is not an object, and the [TypeError] of a [streams] entry
    that is [null] (where a missing entry is read as no streams). *)
Theorem probe_file_unwrapped_errors (path : Path) (w : World) :
  (forall e, subprocess_run w (ffprobe_cmd path) = Raised e ->
             fst (probe_file path w) = Raised e)
  /\ (forall cp, subprocess_run w (ffprobe_cmd path) = Returned cp ->
                 returncode cp = 0 ->
        (json_loads (stdout cp) = None ->
         fst (probe_file path w) = Raised JSONDecodeError)
        /\ (forall data, json_loads (stdout cp) = Some data ->
                         ~ is_object data ->
                         fst (probe_file path w) = Raised AttributeError)
        /\ (forall d f x, json_loads (stdout cp) = Some (JObj d) ->
              Py.or_ (default JNull (Py.lookup "format" d)) (JObj []) = JObj f ->
              Py.lookup "duration" f ≫= Py.float = Some x ->
              (Py.lookup "streams" d = Some JNull ->
               fst (probe_file path w) = Raised TypeError)
              /\ (Py.lookup "streams" d = None ->
                  fst (probe_file path w)
                  = Returned (AudioInfo.mk path x None None JNull
                                (Py.lookup "bit_rate" f ≫= Py.int))))).
Proof.
  split.
  - intros e He. rewrite probe_file_eq. cbv zeta. by rewrite He.
  - intros cp Hrun Hrc. split; [|split].
    + intros Hjs. rewrite probe_file_eq. cbv zeta.
      by rewrite Hrun, Hrc, Hjs.
    + intros data Hjs Hobj.
      rewrite (probe_file_parsed _ _ _ _ Hrun Hrc Hjs). cbn [fst].
      destruct data; try reflexivity. exfalso. apply Hobj. by eexists.
    + intros d f x Hjs Hf Hx.
      rewrite (probe_file_parsed _ _ _ _ Hrun Hrc Hjs). cbn [fst].
      rewrite (probe_file_data_eq _ _ _ Hf), Hx.
      split; intros ->; reflexivity.
Qed.

(** X3. [_run] of [probe.py] returns the tool's standard output, whatever
    was written to standard error, when the exit status is 0.  Otherwise
    it raises [FFprobeError]: with the text ["ffprobe failed"] when
    standard error holds nothing but white space, and else with standard
    error stripped, which is then not empty. *)
Theorem run_outcomes (cmd : list string) (w : World) (cp : CompletedProcess) :
  subprocess_run w cmd = Returned cp ->
  (returncode cp = 0 -> fst (_run cmd w) = Returned (stdout cp))
  /\ (returncode cp <> 0 -> Str.blank (stderr cp) = true ->
      fst (_run cmd w) = Raised (FFprobeError "ffprobe failed"))
  /\ (returncode cp <> 0 -> Str.blank (stderr cp) = false ->
      fst (_run cmd w) = Raised (FFprobeError (Str.strip (stderr cp)))
      /\ Str.strip (stderr cp) <> "").
Proof.
  intros Hrun. unfold _run, bind, run_process. rewrite Hrun.
  split; [|split].
  - intros ->. reflexivity.
  - intros Hrc Hb. apply Z.eqb_neq in Hrc. rewrite Hrc. cbn [negb fst raise].
    apply strip_empty_iff_blank in Hb. by rewrite Hb.
  - intros Hrc Hb. apply Z.eqb_neq in Hrc. rewrite Hrc. cbn [negb fst raise].
    assert (Hne : Str.strip (stderr cp) <> "").
    { intros E. apply strip_empty_iff_blank in E. congruence. }
    split; [|exact Hne].
    destruct (Str.strip (stderr cp)); [congruence | reflexivity].
Qed.

End MoreProbe.

(** ** More on conversion *)

Section MoreConvert.
Context `{Host}.

Lemma codec_arg_values (in_path : Path) (opts : ConvertOptions) (c : string) :
  codec_arg in_path opts = Returned c ->
  c ∈ ["pcm_s16le"; "pcm_s24le"; "pcm_s32le"; "copy"].
Proof.
  unfold codec_arg. destruct (String.eqb _ _).
  - rewrite pcm_codec_valid.
    destruct (_ =? 16); [intros [= <-]; repeat constructor|].
    destruct (_ =? 24); [intros [= <-]; repeat constructor|].
    destruct (_ =? 32); [intros [= <-]; repeat constructor|].
    discriminate.
  - intros [= <-]. repeat constructor.
Qed.

(** X4. [convert_file] returns exactly when the output directory can be
    created, the codec selection succeeds, and the tool can be run and
    exits with status 0. *)
Theorem convert_file_returns_iff (in_path : Path) (opts : ConvertOptions)
    (w : World) :
  (exists out w', convert_file in_path opts w = (Returned out, w'))
  <-> (~ blocked (out_dir opts) w
       /\ exists c cp,
            codec_arg in_path opts = Returned c
            /\ subprocess_run (made (out_dir opts) w) (ffmpeg_cmd in_path opts c)
               = Returned cp
            /\ returncode cp = 0).
Proof.
  rewrite convert_file_eq. split.
  - intros (out & w' & Hc).
    destruct (bool_decide (blocked (out_dir opts) w)) eqn:Hb; [discriminate|].
    apply bool_decide_eq_false in Hb. split; [exact Hb|].
    cbv zeta in Hc. destruct (codec_arg in_path opts) as [c|]; [|discriminate].
    destruct (subprocess_run _ _) as [cp|] eqn:Hrun; [|discriminate].
    destruct (Z.eqb_spec (returncode cp) 0) as [Hz|Hnz]; [|discriminate].
    by exists c, cp.
  - intros (Hb & c & cp & Hcodec & Hrun & Hrc).
    rewrite bool_decide_false by exact Hb. cbv zeta.
    rewrite Hcodec, Hrun, Hrc. by eexists _, _.
Qed.

(** X5. When a regular file stands where the output directory or one of
    its ancestors should be, [convert_file] fails with the error of
    [mkdir]: the bit depth is not looked at, nothing is spawned and no
    directory is created. *)
Theorem convert_file_blocked (in_path : Path) (opts : ConvertOptions)
    (w : World) :
  blocked (out_dir opts) w ->
  fst (convert_file in_path opts w) = Raised (OSError "mkdir")
  /\ since w (snd (convert_file in_path opts w)) = [Mkdir (out_dir opts)]
  /\ dirs (snd (convert_file in_path opts w)) = dirs w.
Proof.
  intros Hb. rewrite convert_file_eq, bool_decide_true by exact Hb.
  split; [reflexivity|]. split; [|reflexivity].
  apply since_extends, extends_record.
Qed.

(** X6. A command [convert_file] spawns is the only one of the call and
    has this form: [ffmpeg], [-y] when [overwrite] is set and [-n]
    otherwise, the input, [-vn], the channel count, the sample rate, a
    codec that is [copy] or one of the three PCM codecs, and the output
    path last. *)
Theorem convert_file_command (in_path : Path) (opts : ConvertOptions)
    (w : World) (cmd : list string) :
  Spawn cmd ∈ since w (snd (convert_file in_path opts w)) ->
  since w (snd (convert_file in_path opts w)) = [Mkdir (out_dir opts); Spawn cmd]
  /\ exists c,
       c ∈ ["pcm_s16le"; "pcm_s24le"; "pcm_s32le"; "copy"]
       /\ cmd = ["ffmpeg"; if overwrite opts then "-y" else "-n";
                 "-i"; PurePath.str in_path; "-vn";
                 "-ac"; Str.of_Z (channels opts);
                 "-ar"; Str.of_Z (sample_rate opts);
                 "-c:a"; c;
                 PurePath.str (PurePath.joinpath (out_dir opts)
                    (PurePath.stem in_path
                     +:+ (if force_wav opts then ".wav"
                          else PurePath.suffix in_path)))].
Proof.
  rewrite convert_file_eq.
  assert (Hone : forall o : outcome Path,
             since w (snd (o, record (Mkdir (out_dir opts)) w))
             = [Mkdir (out_dir opts)]).
  { intros o. apply since_extends, extends_record. }
  assert (Hno : Spawn cmd ∈ [Mkdir (out_dir opts)] -> False).
  { intros Hin. apply list_elem_of_singleton in Hin. discriminate. }
  destruct (bool_decide _).
  { rewrite Hone. intros Hin. by destruct (Hno Hin). }
  cbv zeta. destruct (codec_arg in_path opts) as [c|e] eqn:Hcodec.
  2:{ assert (Hs : since w (snd (Raised (A:=Path) e, made (out_dir opts) w))
                   = [Mkdir (out_dir opts)]) by by apply since_extends.
      rewrite Hs. intros Hin. by destruct (Hno Hin). }
  assert (Htwo : forall o : outcome Path,
             since w (snd (o, record (Spawn (ffmpeg_cmd in_path opts c))
                                (made (out_dir opts) w)))
             = [Mkdir (out_dir opts); Spawn (ffmpeg_cmd in_path opts c)]).
  { intros o. apply since_extends. unfold extends. simpl.
    by rewrite <- app_assoc. }
  assert (Hgoal : Spawn cmd ∈ [Mkdir (out_dir opts);
                               Spawn (ffmpeg_cmd in_path opts c)] ->
                  cmd = ffmpeg_cmd in_path opts c).
  { intros Hin. apply elem_of_cons in Hin as [Hin|Hin]; [discriminate|].
    apply list_elem_of_singleton in Hin. by injection Hin. }
  destruct (subprocess_run _ _) as [cp|e]; [destruct (negb _)|];
    rewrite Htwo; intros Hin; apply Hgoal in Hin; subst cmd;
    (split; [reflexivity|]); exists c;
    (split; [by eapply codec_arg_values | reflexivity]).
Qed.

(** X7. [convert_file] never removes a directory, and a second conversion
    into the same output directory leaves the directories as the first
    one left them. *)
Theorem convert_file_mkdir_idempotent (in1 in2 : Path) (opts : ConvertOptions)
    (w : World) :
  dirs w ⊆ dirs (snd (convert_file in1 opts w))
  /\ (~ blocked (out_dir opts) w ->
      dirs (snd (convert_file in2 opts (snd (convert_file in1 opts w))))
      = dirs (snd (convert_file in1 opts w))).
Proof.
  assert (Hd : forall p w0,
             dirs (snd (convert_file p opts w0))
             = if bool_decide (blocked (out_dir opts) w0) then dirs w0
               else dirs w0 ∪ list_to_set (PurePath.chain (out_dir opts))).
  { intros p w0. rewrite convert_file_eq. destruct (bool_decide _); [reflexivity|].
    cbv zeta. destruct (codec_arg p opts); [|reflexivity].
    destruct (subprocess_run _ _); [destruct (negb _)|]; reflexivity. }
  assert (Hf : forall p w0, files (snd (convert_file p opts w0)) = files w0).
  { intros p w0. rewrite convert_file_eq. destruct (bool_decide _); [reflexivity|].
    cbv zeta. destruct (codec_arg p opts); [|reflexivity].
    destruct (subprocess_run _ _); [destruct (negb _)|]; reflexivity. }
  split.
  - rewrite Hd. destruct (bool_decide _); [reflexivity|].
    apply union_subseteq_l.
  - intros Hb. rewrite (Hd in2), (Hd in1).
    rewrite (bool_decide_false _ Hb).
    assert (Hb' : ~ blocked (out_dir opts) (snd (convert_file in1 opts w))).
    { unfold blocked in *. by rewrite Hf. }
    rewrite (bool_decide_false _ Hb').
    rewrite <- (assoc_L (∪)). by rewrite (idemp_L (∪)).
Qed.

End MoreConvert.

(** ** [probe_files] and [convert_files] *)

Section MoreCollect.
Context {A : Type} (op : Path -> M A).

Lemma collect_app (pre : list Path) :
  forall rest out w out' wk,
    collect op pre out w = (Returned out', wk) ->
    collect op (pre ++ rest) out w = collect op rest out' wk.
Proof.
  induction pre as [|q pre IH]; intros rest out w out' wk.
  - by intros [= <- <-].
  - rewrite <- app_comm_cons. cbn [collect]. unfold bind.
    destruct (op q w) as [[x|e] w1]; [|discriminate]. apply IH.
Qed.

Lemma collect_raised (pre : list Path) (p : Path) (post : list Path) :
  forall out w out' wk e w',
    collect op pre out w = (Returned out', wk) ->
    op p wk = (Raised e, w') ->
    collect op (pre ++ p :: post) out w = (Raised e, w').
Proof.
  intros out w out' wk e w' Hpre Hop.
  rewrite (collect_app _ _ _ _ _ _ Hpre). simpl. unfold bind at 1.
  by rewrite Hop.
Qed.

End MoreCollect.

Section MoreFiles.
Context `{Host}.

(** X8. [probe_files] and [convert_files] stop at the first file that
    fails, in the world where it failed: the exception is the outcome,
    the results of the earlier files are lost and the later files are not
    touched.  On an empty list both return the empty list and do
    nothing. *)
Theorem files_stop_at_first_failure (pre : list Path) (p : Path)
    (post : list Path) (opts : ConvertOptions) (w wk w' : World) (e : exn) :
  (forall outs,
      probe_files pre w = (Returned outs, wk) ->
      probe_file p wk = (Raised e, w') ->
      probe_files (pre ++ p :: post) w = (Raised e, w'))
  /\ (forall outs,
         convert_files pre opts w = (Returned outs, wk) ->
         convert_file p opts wk = (Raised e, w') ->
         convert_files (pre ++ p :: post) opts w = (Raised e, w'))
  /\ probe_files [] w = (Returned [], w)
  /\ convert_files [] opts w = (Returned [], w).
Proof.
  split; [|split; [|split; reflexivity]].
  - intros outs Hpre Hop. unfold probe_files in *.
    by eapply collect_raised.
  - intros outs Hpre Hop. unfold convert_files in *.
    by eapply (collect_raised (fun q => convert_file q opts)).
Qed.

End MoreFiles.

(** ** More on the job controller *)

Module MoreController.
Import JobController.
Import ControllerFacts.

Section WithResult.
Context {R : Type}.
Implicit Types (s : System R) (acts : list (action R)).

(** A controller whose tracked thread was destroyed stays as it is. *)
Lemma stuck_step s (a : nat) (x : action R) :
  inv s -> aborted s = false ->
  _thread (controller s) = Some a ->
  threads s !! a = Some Destroyed ->
  controller (step s x) = controller s
  /\ jobs (step s x) = jobs s
  /\ aborted (step s x) = false
  /\ threads (step s x) !! a = Some Destroyed.
Proof.
  intros I Ha Ht Hd. rewrite (step_alive _ _ Ha).
  destruct x as [fn w| |id|id| |id].
  - rewrite start_not_done; rewrite (stop_destroyed s a Ht Hd);
      [done | discriminate].
  - by rewrite (stop_destroyed s a Ht Hd).
  - destruct (decide (threads s !! id = Some Running)) as [Hr|Hr];
      [|by rewrite worker_step_idle by auto].
    destruct (workers s !! id) as [[|e rest]|] eqn:Hw.
    1,3: by rewrite worker_step_idle by auto.
    by rewrite (worker_step_fields _ _ _ _ Hr Hw).
  - unfold thread_step.
    destruct (threads s !! id) as [[]|] eqn:Hr; try done.
    destruct (workers s !! id) as [[|e rest]|]; try done.
    destruct (decide _); [done|]. destruct (decide _); [|done].
    cbn [controller jobs aborted threads].
    rewrite lookup_insert_ne by congruence. done.
  - destruct (posted s) as [|c rest] eqn:Hq.
    { by rewrite dispatch_idle by exact Hq. }
    destruct (dispatch_cons s c rest I Hq)
      as (-> & _ & -> & -> & _ & _ & _ & _ & ->). done.
  - unfold reap. destruct (threads s !! id) as [[]|] eqn:Hr; try done.
    destruct (decide _); [|done].
    cbn [destroy controller jobs aborted threads].
    rewrite lookup_insert_ne by congruence. done.
Qed.

Lemma stuck_exec s (a : nat) acts :
  inv s -> aborted s = false ->
  _thread (controller s) = Some a ->
  threads s !! a = Some Destroyed ->
  controller (exec s acts) = controller s
  /\ jobs (exec s acts) = jobs s
  /\ aborted (exec s acts) = false
  /\ threads (exec s acts) !! a = Some Destroyed.
Proof.
  revert s. induction acts as [|x acts IH]; intros s I Ha Ht Hd; [done|].
  rewrite exec_cons.
  destruct (stuck_step s a x I Ha Ht Hd) as (Hk & Hj & Ha' & Hd').
  destruct (IH (step s x)) as (Hk2 & Hj2 & Ha2 & Hd2);
    [by apply inv_step | done | by rewrite Hk | done |].
  by rewrite Hk2, Hj2, Hk, Hj.
Qed.

(** X9. Once the thread of the job the controller tracks has been
    destroyed, which its own [deleteLater] does after the job has ended,
    [start] and [stop] raise [RuntimeError] and change nothing: no job is
    started and the two fields keep the dead references.  This stays so
    whatever happens next: the controller can run no second job. *)
Theorem restart_after_finished_raises acts (a : nat) (fn fn' : M R)
    (w w' : World) (more : list (action R)) :
  let s := exec init acts in
  aborted s = false ->
  _thread (controller s) = Some a ->
  threads s !! a = Some Destroyed ->
  start fn w s = (RuntimeError, s)
  /\ stop s = (RuntimeError, s)
  /\ controller (exec s more) = controller s
  /\ jobs (exec s more) = jobs s
  /\ start fn' w' (exec s more) = (RuntimeError, exec s more).
Proof.
  intros s Ha Ht Hd. pose proof (inv_exec acts) as I. fold s in I.
  destruct (stuck_exec s a more I Ha Ht Hd) as (Hk & Hj & _ & Hd').
  assert (Hst : forall (t : System R) (f : M R) (v : World),
                  _thread (controller t) = Some a ->
                  threads t !! a = Some Destroyed ->
                  start f v t = (RuntimeError, t)).
  { intros t f v Hta Htd.
    rewrite start_not_done; rewrite (stop_destroyed t a Hta Htd);
      [reflexivity | discriminate]. }
  split; [by apply Hst|]. split; [by apply stop_destroyed with a|].
  split; [exact Hk|]. split; [exact Hj|].
  apply Hst; [by rewrite Hk | exact Hd'].
Qed.

Lemma stop_idle s :
  _thread (controller s) = None -> _worker (controller s) = None ->
  stop s = (Done, s).
Proof.
  intros Ht Hw. unfold stop, release_worker. rewrite Ht, Hw.
  destruct s as [[t wk] ? ? ? ? ? ? ? ? ?]. cbn in *. by subst.
Qed.

(** X10. In every state a run reaches, the controller's thread and worker
    fields agree: both are unset, or both name the job started last.  A
    [start] that does not return starts no job, and [stop] on a
    controller that tracks nothing changes nothing. *)
Theorem controller_tracks_last_job acts (fn : M R) (w : World) :
  let s := exec init acts in
  _thread (controller s) = _worker (controller s)
  /\ (forall a, _worker (controller s) = Some a ->
                S a = fresh s /\ is_Some (jobs s !! a))
  /\ (fst (start fn w s) <> Done -> jobs (snd (start fn w s)) = jobs s)
  /\ (fst (start fn w s) = RuntimeError -> snd (start fn w s) = s)
  /\ (_thread (controller s) = None -> stop s = (Done, s)).
Proof.
  intros s. pose proof (inv_exec acts) as I. fold s in I.
  split; [apply I|]. split; [|split; [|split]].
  - intros a Ha. rewrite <- (inv_fields _ I) in Ha.
    pose proof (inv_tracked _ I a Ha) as Hf. split; [exact Hf|].
    apply lookup_lt_is_Some. unfold fresh in Hf. lia.
  - intros Hn. rewrite (start_not_done _ _ _); [apply stop_keeps|].
    intros Hd. apply Hn. unfold start. by destruct (stop s) as [[] s1].
  - unfold start, stop.
    destruct (_thread (controller s)) as [th|]; [|discriminate].
    destruct (threads s !! th) as [[]|]; cbn [fst snd]; done.
  - intros Hn. apply stop_idle; [exact Hn|].
    by rewrite <- (inv_fields _ I).
Qed.

(** ** The order of what the tab receives *)

Lemma carried_app id (l1 l2 : list (call (R:=R))) :
  carried id (l1 ++ l2) = carried id l1 ++ carried id l2.
Proof. unfold carried. by rewrite filter_app, map_app. Qed.

Lemma carried_fresh (n : nat) (l : list (call (R:=R))) :
  Forall (fun c => (fst (fst c) < n)%nat) l -> carried n l = [].
Proof.
  unfold carried. induction 1 as [|c l Hc _ IH]; [reflexivity|].
  rewrite filter_cons_False; [exact IH|]. intros [Hn _]. lia.
Qed.

Lemma carried_cons id (c : call (R:=R)) l :
  carried id (c :: l)
  = (if decide (fst (fst c) = id)
     then if relays (snd (fst c)) then [snd c] else []
     else []) ++ carried id l.
Proof.
  unfold carried. destruct (decide (fst (fst c) = id)) as [Hid|Hid].
  - destruct (relays (snd (fst c))) eqn:Hr.
    + by rewrite filter_cons_True by (by split).
    + rewrite filter_cons_False; [reflexivity|]. intros [_ Hr']. congruence.
  - rewrite filter_cons_False; [reflexivity|]. by intros [? _].
Qed.

Lemma carried_calls_of id id0 (e : emission R) :
  carried id (calls_of id0 e) = if decide (id0 = id) then [e] else [].
Proof.
  unfold calls_of. destruct (is_finished e);
    rewrite ?carried_cons; cbn [fst snd relays];
    destruct (decide (id0 = id)); reflexivity.
Qed.

(** Destroying a thread or a worker takes nothing away that is on its way
    to the tab. *)
Lemma carried_unpost id (o : object) (q : list (call (R:=R))) :
  o <> Controller_obj -> o <> Tab_obj ->
  carried id (unpost o q) = carried id q.
Proof.
  intros Hc Ht. unfold unpost. induction q as [|c q IH]; [reflexivity|].
  rewrite filter_cons. destruct (decide _) as [Hk|Hk].
  - by rewrite !carried_cons, IH.
  - rewrite carried_cons, IH.
    destruct (decide _); [|reflexivity].
    destruct (relays (snd (fst c))) eqn:Hr; [|reflexivity].
    exfalso. apply Hk. intros Ho. destruct c as [[i sl] em]. cbn in *.
    destruct sl as [| | | |[]| |]; cbn in *; congruence.
Qed.

Lemma carried_call_result s (c : call (R:=R)) id :
  inv s -> posted_ok s c ->
  carried id (call_result (connections s) c) = carried id [c].
Proof.
  intros Hinv Hc. rewrite (call_result_ok _ _ Hinv Hc).
  destruct c as [[id0 sl] e]. destruct Hc as (_ & Hfin & Hprog).
  cbn [fst snd] in *. rewrite !carried_cons. cbn [fst snd].
  destruct (decide (sl = Forward Controller_finished)) as [->|Hsl].
  - rewrite carried_cons. cbn [fst snd relays]. reflexivity.
  - destruct (is_finished e) eqn:He.
    + destruct (Hfin eq_refl) as [Hin _].
      destruct (decide (id0 = id)); [|reflexivity].
      apply elem_of_cons in Hin as [->|Hin]; [done|].
      apply elem_of_cons in Hin as [->|Hin]; [reflexivity|].
      by apply elem_of_nil in Hin.
    + rewrite (Hprog eq_refl), carried_cons. reflexivity.
Qed.

Lemma in_order_same s s' :
  jobs s' = jobs s -> workers s' = workers s ->
  delivered s' = delivered s ->
  (forall id, carried id (posted s') = carried id (posted s)) ->
  in_order s -> in_order s'.
Proof.
  intros Hj Hw Hd Hp Ho id fn w. rewrite Hj, Hw, Hd, Hp. apply Ho.
Qed.

Lemma in_order_destroy s (o : object) :
  o <> Controller_obj -> o <> Tab_obj ->
  in_order s -> in_order (destroy o s).
Proof.
  intros Hc Ht. apply in_order_same; try reflexivity.
  intros id. cbn [destroy posted]. by apply carried_unpost.
Qed.

Lemma in_order_quit s th : in_order s -> in_order (quit th s).
Proof. apply in_order_same; reflexivity. Qed.

Lemma in_order_abort s : in_order s -> in_order (abort s).
Proof. apply in_order_same; reflexivity. Qed.

Lemma in_order_clear s : in_order s -> in_order (clear s).
Proof. apply in_order_same; reflexivity. Qed.

Lemma in_order_release_worker s : in_order s -> in_order (release_worker s).
Proof.
  intros Ho. unfold release_worker.
  destruct (_worker (controller s)) as [wk|]; [|exact Ho].
  destruct (decide _); [exact Ho|]. by apply in_order_destroy.
Qed.

Lemma in_order_stop s : in_order s -> in_order (snd (stop s)).
Proof.
  intros Ho. unfold stop.
  destruct (_thread (controller s)) as [th|].
  - destruct (threads s !! th) as [[]|]; cbn [snd]; try exact Ho.
    apply in_order_clear, in_order_release_worker, in_order_destroy;
      try discriminate.
    by apply (in_order_quit s th).
  - cbn [snd]. by apply in_order_clear, in_order_release_worker.
Qed.

Lemma in_order_step s (a : action R) :
  inv s -> in_order s -> in_order (step s a).
Proof.
  intros I Ho. unfold step. destruct (aborted s); [exact Ho|].
  destruct a as [fn w| |id0|id0| |id0].
  - unfold start. pose proof (in_order_stop s Ho) as Ho1.
    pose proof (inv_stop s I) as I1.
    destruct (stop s) as [[] s1]; cbn [snd] in *; try exact Ho1.
    intros id fn' w' Hs. cbn [jobs workers posted delivered] in *.
    destruct (decide (id < fresh s1)%nat) as [Hlt|Hge].
    + rewrite lookup_app_l in Hs by exact Hlt.
      destruct (Ho1 _ _ _ Hs) as (rest & Hw & Heq).
      exists rest. split; [|exact Heq].
      rewrite lookup_insert_ne by lia. exact Hw.
    + unfold fresh in Hge. rewrite lookup_app_r in Hs by lia.
      destruct (id - length (jobs s1))%nat as [|k] eqn:Hk;
        [|by destruct k].
      injection Hs as <- <-.
      assert (id = fresh s1) as -> by (unfold fresh; lia).
      exists (fst (Worker_run fn w)). split.
      * apply lookup_insert_eq.
      * rewrite !carried_fresh; [reflexivity| |].
        -- eapply Forall_impl; [exact (inv_posted _ I1)|].
           by intros c (? & _).
        -- eapply Forall_impl; [exact (inv_delivered _ I1)|].
           by intros c (? & _).
  - by apply in_order_stop.
  - destruct (decide (threads s !! id0 = Some Running)) as [Hr|Hr];
      [|by rewrite worker_step_idle by auto].
    destruct (workers s !! id0) as [[|e rest0]|] eqn:Hw0.
    1,3: by rewrite worker_step_idle by auto.
    destruct (worker_step_posts _ _ _ _ I Hr Hw0) as (Hp & _ & _).
    intros id fn w Hs. rewrite Hp.
    rewrite (worker_step_fields _ _ _ _ Hr Hw0) in *.
    cbn [jobs workers delivered] in *.
    destruct (Ho _ _ _ Hs) as (rest & Hw & Heq).
    rewrite carried_app, carried_calls_of.
    destruct (decide (id0 = id)) as [->|Hne].
    + rewrite Hw0 in Hw. injection Hw as <-.
      exists rest0. split; [apply lookup_insert_eq|].
      rewrite <- Heq, <- !app_assoc. reflexivity.
    + exists rest. split; [by rewrite lookup_insert_ne|].
      by rewrite app_nil_r.
  - unfold thread_step.
    destruct (threads s !! id0) as [[]|]; try exact Ho.
    destruct (workers s !! id0) as [[|e rest]|]; try exact Ho.
    destruct (decide _); [by apply in_order_destroy|].
    destruct (decide _); [|exact Ho].
    revert Ho. by apply in_order_same.
  - destruct (posted s) as [|c restq] eqn:Hq.
    { by rewrite dispatch_idle by exact Hq. }
    destruct (dispatch_cons s c restq I Hq)
      as (_ & _ & Hj & _ & Hw & _ & Hp & Hd & _).
    pose proof (inv_posted _ I) as Hpo. rewrite Hq in Hpo.
    apply Forall_cons in Hpo as [Hc _].
    intros id fn w Hs. rewrite Hj in Hs. rewrite Hw, Hp, Hd.
    destruct (Ho _ _ _ Hs) as (rest & Hwk & Heq).
    exists rest. split; [exact Hwk|].
    rewrite carried_app, (carried_call_result _ _ _ I Hc).
    rewrite <- Heq, Hq. change (c :: restq) with ([c] ++ restq).
    rewrite carried_app, <- !app_assoc. reflexivity.
  - unfold reap. destruct (threads s !! id0) as [[]|]; try exact Ho.
    destruct (decide _); [|exact Ho]. by apply in_order_destroy.
Qed.

Lemma in_order_exec acts : in_order (R:=R) (exec init acts).
Proof.
  induction acts as [|a acts IH] using rev_ind.
  - intros id fn w Hs. discriminate.
  - rewrite exec_app. apply in_order_step; [apply inv_exec | exact IH].
Qed.

Lemma received_carried acts (id : nat) :
  received id (exec init acts) = carried (R:=R) id (delivered (exec init acts)).
Proof.
  unfold received, carried.
  pose proof (inv_delivered _ (inv_exec (R:=R) acts)) as Hd.
  induction Hd as [|c l Hc _ IH]; [reflexivity|].
  destruct Hc as (_ & Hsl & _).
  assert (Hr : relays (snd (fst c)) = true).
  { rewrite Hsl. unfold slot_for. by destruct (is_finished (snd c)). }
  destruct (decide (fst (fst c) = id)) as [Hid|Hid].
  - rewrite !filter_cons_True by (by try split). cbn [map]. f_equal. exact IH.
  - rewrite !filter_cons_False; [exact IH| |]; [by intros [? _]|exact Hid].
Qed.

(** X11. The relay keeps the order of a job's emissions: at every moment
    what the tab has received from a job, what is still queued for it and
    what the worker has still to emit make up, in this order, exactly
    what [Worker.run] emits for the job.  So the tab receives a prefix of
    the worker's emissions, nothing lost, repeated or reordered, and each
    on the slot meant for it. *)
Theorem relay_keeps_order acts (id : nat) (fn : M R) (w : World) :
  jobs (exec init acts) !! id = Some (fn, w) ->
  (exists rest,
      workers (exec init acts) !! id = Some rest
      /\ received id (exec init acts)
          ++ carried id (posted (exec init acts)) ++ rest
         = fst (Worker_run fn w))
  /\ received id (exec init acts) `prefix_of` fst (Worker_run fn w)
  /\ Forall (fun c => snd (fst c) = slot_for (snd c))
            (delivered (R:=R) (exec init acts)).
Proof.
  intros Hs. destruct (in_order_exec acts id fn w Hs) as (rest & Hw & Heq).
  rewrite received_carried. split; [eauto|]. split.
  - rewrite <- Heq. by eexists.
  - eapply Forall_impl; [exact (inv_delivered _ (inv_exec acts))|].
    by intros c (_ & ? & _).
Qed.

(** X12. The completion event is the last thing a job delivers: once the
    tab has received a job's completion, it has received everything the
    worker emitted for the job, in the worker's order, and nothing of the
    job is queued or still to be emitted. *)
Theorem completion_is_delivered_last acts (id : nat) (fn : M R) (w : World) :
  jobs (exec init acts) !! id = Some (fn, w) ->
  (1 <= terminal_delivered id (exec init acts))%nat ->
  received id (exec init acts) = fst (Worker_run fn w)
  /\ carried id (posted (exec init acts)) = []
  /\ workers (exec init acts) !! id = Some [].
Proof.
  intros Hs Ht. destruct (in_order_exec acts id fn w Hs) as (rest & Hw & Heq).
  rewrite received_carried.
  assert (He : exists e, e ∈ carried id (delivered (exec init acts))
                         /\ is_finished e = true).
  { unfold terminal_delivered in Ht.
    destruct (filter (terminal_call id Tab_on_finished)
                (delivered (exec init acts))) as [|c l] eqn:Hf;
      [simpl in Ht; lia|].
    assert (Hc : c ∈ filter (terminal_call id Tab_on_finished)
                   (delivered (exec init acts)))
      by (rewrite Hf; left).
    apply list_elem_of_filter in Hc as [(Hid & Hsl & Hfin) Hin].
    exists (snd c). split; [|exact Hfin].
    unfold carried. apply list_elem_of_In, in_map, list_elem_of_In.
    apply list_elem_of_filter. split; [|exact Hin].
    split; [exact Hid|]. by rewrite Hsl. }
  destruct He as (e & Hin & Hfin).
  pose proof (Worker_run_trace fn w) as Htr.
  assert (Hnil : carried id (posted (exec init acts)) ++ rest = []).
  { remember (carried id (posted (exec init acts)) ++ rest) as tl eqn:Hl.
    clear Hl. destruct tl as [|x l _] using rev_ind; [reflexivity|].
    exfalso. rewrite Htr, app_assoc in Heq.
    apply app_inj_tail in Heq as [Heq _].
    assert (Hm : e ∈ map (@Emit_progressed R)
                       (progress_of (since w (snd (fn w))))).
    { rewrite <- Heq. apply elem_of_app. by left. }
    apply list_elem_of_In, in_map_iff in Hm as (ev & <- & _).
    discriminate. }
  apply app_eq_nil in Hnil as [Hp ->].
  rewrite Hp, !app_nil_r in Heq. by rewrite Heq, Hp.
Qed.

(** No step forgets a job. *)
Lemma step_jobs s (a : action R) : jobs s `prefix_of` jobs (step s a).
Proof.
  unfold step. destruct (aborted s); [reflexivity|].
  destruct a as [fn w| |id|id| |id].
  - unfold start. destruct (stop_keeps s) as (Hj & _).
    destruct (stop s) as [[] s1]; cbn [snd] in *; rewrite <- ?Hj;
      [by eexists | reflexivity | reflexivity].
  - destruct (stop_keeps s) as (-> & _). reflexivity.
  - unfold worker_step. destruct (threads s !! id) as [[]|]; try reflexivity.
    by destruct (workers s !! id) as [[|e rest]|].
  - unfold thread_step. destruct (threads s !! id) as [[]|]; try reflexivity.
    destruct (workers s !! id) as [[|e rest]|]; try reflexivity.
    destruct (decide _); [reflexivity|]. by destruct (decide _).
  - unfold dispatch. destruct (posted s) as [|[[id sl] e] rest];
      [reflexivity|].
    destruct sl; try reflexivity. unfold destroy_thread. cbn [threads].
    by destruct (threads s !! t0) as [[]|].
  - unfold reap. destruct (threads s !! id) as [[]|]; try reflexivity.
    by destruct (decide _).
Qed.

Lemma exec_jobs s acts : jobs s `prefix_of` jobs (exec s acts).
Proof.
  revert s. induction acts as [|a acts IH]; intros s; [reflexivity|].
  rewrite exec_cons. etrans; [apply step_jobs | apply IH].
Qed.

(** X21. As long as the process is not aborted, every job reports exactly
    once.  In every state a run reaches, the terminal events of a job
    that the tab has received, those queued and those the worker has
    still to emit add up to one, so the tab has received at most one; a
    terminal event the tab received from the job is the outcome of its
    [fn], the result if it returned and the exception if it raised, on the
    tab's [_on_finished]; and while the process lives, the run can be
    continued until the tab has received it. *)
Theorem job_reports_once_while_alive acts (id : nat) (fn : M R) (w : World) :
  let s := exec init acts in
  jobs s !! id = Some (fn, w) ->
  (terminal_delivered id s + terminal_posted id s + terminal_pending id s
   = 1)%nat
  /\ (forall c, c ∈ delivered s -> fst (fst c) = id ->
                is_finished (snd c) = true ->
                c = (id, Tab_on_finished, outcome_emission (fst (fn w))))
  /\ (aborted s = false ->
      exists more, terminal_delivered id (exec s more) = 1%nat
                   /\ aborted (exec s more) = false).
Proof.
  intros s Hs. pose proof (inv_exec acts) as I. fold s in I.
  assert (Hid : (id < fresh s)%nat) by (eapply lookup_lt_Some, Hs).
  split; [by apply (inv_count _ I)|]. split.
  - intros c Hc Hcid Hfin.
    pose proof (inv_delivered _ I) as Hall.
    rewrite Forall_forall in Hall.
    destruct (Hall c Hc) as (_ & Hsl & Hje).
    destruct (Hje Hfin) as (fn' & w' & Hs' & He).
    rewrite Hcid in Hs'.
    assert (E : Some (fn, w) = Some (fn', w')) by (rewrite <- Hs; exact Hs').
    injection E as <- <-.
    destruct c as [[id' sl] e]. simpl in *.
    unfold slot_for in Hsl. rewrite Hfin in Hsl. by subst.
  - intros Ha. destruct (inv_started _ I id Hid) as [[l Hl] _].
    set (k := replicate (length l) (WorkerStep id) : list (action R)).
    assert (Hk : workers (exec s k) !! id = Some [] /\ aborted (exec s k) = false).
    { destruct l as [|e rest]; [by split|].
      destruct (inv_emitting _ I _ _ _ Hl) as [_ Hr].
      by apply (worker_runs_out id (e :: rest) s). }
    destruct Hk as [Hout Hak].
    pose proof (inv_exec_from s k I) as Ik.
    destruct (drain_spec (exec s k) Ik Hak) as (Hp & Hw & Hj & Had).
    exists (k ++ replicate (length (posted (exec s k))) Dispatch).
    rewrite exec_app. fold (drain (exec s k)). split; [|exact Had].
    pose proof (inv_exec_from _ (replicate (length (posted (exec s k))) Dispatch)
                  Ik) as I'.
    fold (drain (exec s k)) in I'.
    assert (Hid' : (id < fresh (drain (exec s k)))%nat).
    { unfold fresh. rewrite Hj.
      pose proof (fresh_mono _ _ (exec_jobs s k)). unfold fresh in *. lia. }
    pose proof (inv_count _ I' id Hid') as Hcnt.
    unfold terminal_posted, terminal_pending in Hcnt.
    rewrite Hp, Hw, Hout in Hcnt. simpl in Hcnt. lia.
Qed.

End WithResult.
End MoreController.

(** ** Paths and their text *)

Module MorePaths.
Import NameFacts.

Lemma split_app_sep (c : ascii) (x y : string) :
  Str.mem c x = false -> Str.split c (x +:+ String c y) = x :: Str.split c y.
Proof.
  induction x as [|a x IH]; intros Hm.
  - change ("" +:+ String c y) with (String c y). simpl.
    by rewrite Ascii.eqb_refl.
  - rewrite append_cons. simpl in Hm. apply orb_false_iff in Hm as [Ha Hx].
    simpl. rewrite Ha, (IH Hx). reflexivity.
Qed.

Lemma join_cons2 (sep x y : string) (l : list string) :
  Str.join sep (x :: y :: l) = x +:+ sep +:+ Str.join sep (y :: l).
Proof. reflexivity. Qed.

Lemma split_join (l : list string) :
  Forall PurePath.component l -> l <> [] ->
  Str.split PurePath.slash (Str.join "/" l) = l.
Proof.
  induction 1 as [|x l (_ & _ & Hx) Hl IH]; [done|]. intros _.
  destruct l as [|y l].
  - by apply split_no_sep.
  - rewrite join_cons2.
    change ("/" +:+ Str.join "/" (y :: l))
      with (String PurePath.slash (Str.join "/" (y :: l))).
    rewrite (split_app_sep _ _ _ Hx), IH by done. reflexivity.
Qed.

Lemma leading_slashes_join (l : list string) :
  Forall PurePath.component l ->
  PurePath.leading_slashes (Str.join "/" l) = O.
Proof.
  destruct 1 as [|x l (Hne & _ & Hx) _]; [reflexivity|].
  destruct x as [|a x]; [done|]. simpl in Hx.
  apply orb_false_iff in Hx as [Ha _].
  destruct l; [|rewrite join_cons2, append_cons]; simpl; by rewrite Ha.
Qed.

Lemma filter_components (l : list string) :
  Forall PurePath.component l ->
  filter (fun c : string => c <> "" /\ c <> ".") l = l.
Proof.
  induction 1 as [|x l (Hne & Hdot & _) _ IH]; [reflexivity|].
  rewrite filter_cons_True by done. by rewrite IH.
Qed.

Lemma split_join_any (l : list string) :
  Forall PurePath.component l ->
  filter (fun c : string => c <> "" /\ c <> ".")
         (Str.split PurePath.slash (Str.join "/" l)) = l.
Proof.
  intros Hl. destruct l as [|x l]; [reflexivity|].
  rewrite split_join by done. by apply filter_components.
Qed.

(** A path built by [pathlib] is read back from its text. *)
Lemma parse_str (p : Path) :
  PurePath.wf p -> PurePath.parse (PurePath.str p) = p.
Proof.
  destruct p as [r l]. intros [Hr Hl]. cbn [root parts] in *.
  pose proof (leading_slashes_join l Hl) as H0.
  pose proof (split_join_any l Hl) as Hs.
  apply elem_of_cons in Hr as [->|Hr];
    [|apply elem_of_cons in Hr as [->|Hr];
      [|apply list_elem_of_singleton in Hr as ->]].
  - unfold PurePath.str. cbn [root parts].
    destruct l as [|x l]; [reflexivity|].
    change ("" +:+ Str.join "/" (x :: l)) with (Str.join "/" (x :: l)).
    unfold PurePath.parse. by rewrite H0, Hs.
  - assert (PurePath.str (mkPath "/" l)
            = String PurePath.slash (Str.join "/" l)) as ->
      by (unfold PurePath.str; cbn [root parts]; by destruct l).
    unfold PurePath.parse.
    cbn [PurePath.leading_slashes Str.split].
    rewrite Ascii.eqb_refl, H0.
    rewrite filter_cons_False by (by intros [? _]). by rewrite Hs.
  - assert (PurePath.str (mkPath "//" l)
            = String PurePath.slash (String PurePath.slash (Str.join "/" l)))
      as -> by (unfold PurePath.str; cbn [root parts]; by destruct l).
    unfold PurePath.parse.
    cbn [PurePath.leading_slashes Str.split].
    rewrite Ascii.eqb_refl, H0.
    rewrite !filter_cons_False by (by intros [? _]). by rewrite Hs.
Qed.

End MorePaths.

(** ** The list of input paths *)

Module MoreWidgets.
Import PathListWidget.

Lemma add_loop_spec (paths : list Path) :
  forall (existing : gset Path) (rs : list item) (ch : bool),
  exists added,
    fst (add_loop paths existing rs ch) = rs ++ map row_of added
    /\ snd (add_loop paths existing rs ch)
       = ch || match added with [] => false | _ => true end
    /\ added `sublist_of` paths
    /\ NoDup added
    /\ (forall p, p ∈ added <-> p ∈ paths /\ p ∉ existing).
Proof.
  induction paths as [|p rest IH]; intros existing rs ch.
  - exists []. cbn [add_loop fst snd map].
    rewrite app_nil_r, orb_false_r.
    split; [done|]. split; [done|]. split; [done|]. split; [constructor|].
    intros p. split; [by intros ?%elem_of_nil|by intros [?%elem_of_nil _]].
  - cbn [add_loop]. destruct (decide (p ∈ existing)) as [Hin|Hout].
    + destruct (IH existing rs ch) as (added & Hf & Hs & Hsub & Hnd & Hm).
      exists added. split; [done|]. split; [done|].
      split; [by apply sublist_cons|]. split; [done|].
      intros q. rewrite Hm. split.
      * intros [? ?]. split; [by right|done].
      * intros [Hq Hne]. split; [|done].
        apply elem_of_cons in Hq as [->|Hq]; done.
    + destruct (IH ({[p]} ∪ existing) (rs ++ [row_of p]) true)
        as (added & Hf & Hs & Hsub & Hnd & Hm).
      exists (p :: added). fold (row_of p).
      split; [by rewrite Hf, <- app_assoc|].
      split; [by rewrite Hs, orb_true_r|].
      split; [by apply sublist_skip|].
      split.
      * constructor; [|done]. intros Hp. apply Hm in Hp as [_ Hp].
        apply Hp. apply elem_of_union_l. by apply elem_of_singleton.
      * intros q. split.
        -- intros Hq. apply elem_of_cons in Hq as [->|Hq]; [by split; [left|]|].
           apply Hm in Hq as [? Hq]. split; [by right|].
           intros Hq'. apply Hq. by apply elem_of_union_r.
        -- intros [Hq Hne]. destruct (decide (q = p)) as [->|Hqp]; [left|].
           right. apply Hm. apply elem_of_cons in Hq as [->|Hq]; [done|].
           split; [done|].
           intros [Hq'%elem_of_singleton|Hq']%elem_of_union; done.
Qed.

Lemma add_loop_nothing_new (paths : list Path) (existing : gset Path)
    (rs : list item) (ch : bool) :
  Forall (fun p => p ∈ existing) paths ->
  add_loop paths existing rs ch = (rs, ch).
Proof.
  induction 1 as [|p rest Hp _ IH]; [reflexivity|].
  cbn [add_loop]. by rewrite decide_True.
Qed.

Lemma get_paths_rows (rs : list item) (added : list Path) (n : nat) :
  Forall PurePath.wf added ->
  get_paths (mk (rs ++ map row_of added) n) = get_paths (mk rs n) ++ added.
Proof.
  intros Hwf. unfold get_paths. cbn [rows]. rewrite map_app. f_equal.
  induction Hwf as [|p l Hp _ IH]; [reflexivity|].
  cbn [map row_of text]. by rewrite MorePaths.parse_str, IH.
Qed.

Lemma add_paths_spec (paths : list Path) (w : t) :
  Forall PurePath.wf paths ->
  exists added,
    get_paths (add_paths paths w) = get_paths w ++ added
    /\ rows (add_paths paths w) = rows w ++ map row_of added
    /\ added `sublist_of` paths
    /\ NoDup added
    /\ (forall p, p ∈ added <-> p ∈ paths /\ p ∉ get_paths w).
Proof.
  intros Hwf.
  destruct (add_loop_spec paths (list_to_set (get_paths w)) (rows w) false)
    as (added & Hf & _ & Hsub & Hnd & Hm).
  assert (Hm' : forall p, p ∈ added <-> p ∈ paths /\ p ∉ get_paths w).
  { intros p. rewrite Hm. by rewrite elem_of_list_to_set. }
  assert (Hwa : Forall PurePath.wf added).
  { apply Forall_forall. intros p Hp. apply Hm' in Hp as [Hp _].
    by eapply Forall_forall in Hwf. }
  exists added. split; [|done].
  unfold add_paths. cbv zeta. rewrite Hf.
  rewrite (get_paths_rows _ _ _ Hwa). reflexivity.
Qed.

Lemma add_paths_present (paths : list Path) (w : t) (p : Path) :
  Forall PurePath.wf paths ->
  p ∈ paths -> p ∈ get_paths (add_paths paths w).
Proof.
  intros Hwf Hp. destruct (add_paths_spec paths w Hwf)
    as (added & -> & _ & _ & _ & Hm).
  apply elem_of_app. destruct (decide (p ∈ get_paths w)); [by left|].
  right. by apply Hm.
Qed.

(** X13. [add_paths] appends to the list, in the order given and once
    each, exactly the paths that are not in the list already; the rows
    that were there stay in place.  So [get_paths] afterwards holds every
    path given, and has no duplicates if it had none before. *)
Theorem add_paths_appends_new (paths : list Path) (w : t) :
  Forall PurePath.wf paths ->
  exists added,
    get_paths (add_paths paths w) = get_paths w ++ added
    /\ rows (add_paths paths w) = rows w ++ map row_of added
    /\ added `sublist_of` paths
    /\ NoDup added
    /\ (forall p, p ∈ added <-> p ∈ paths /\ p ∉ get_paths w)
    /\ (forall p, p ∈ paths -> p ∈ get_paths (add_paths paths w))
    /\ (NoDup (get_paths w) -> NoDup (get_paths (add_paths paths w))).
Proof.
  intros Hwf.
  destruct (add_paths_spec paths w Hwf)
    as (added & Hg & Hf & Hsub & Hnd & Hm).
  exists added. split; [exact Hg|]. split; [exact Hf|].
  split; [exact Hsub|]. split; [exact Hnd|]. split; [exact Hm|]. split.
  - intros p Hp. by apply add_paths_present.
  - intros Hw. rewrite Hg. apply NoDup_app. split; [done|].
    split; [|done]. intros p Hp Hq. by apply Hm in Hq as [_ Hq].
Qed.

(** X14. [add_paths] emits [changed] once when it adds a row and not at
    all when every path given is in the list already; adding the same
    paths a second time changes nothing. *)
Theorem add_paths_changed (paths : list Path) (w : t) :
  Forall PurePath.wf paths ->
  (changed (add_paths paths w)
   = if bool_decide (Forall (fun p => p ∈ get_paths w) paths)
     then changed w else S (changed w))
  /\ (Forall (fun p => p ∈ get_paths w) paths -> add_paths paths w = w)
  /\ add_paths paths (add_paths paths w) = add_paths paths w.
Proof.
  intros Hwf.
  assert (Hsame : forall v, Forall (fun p => p ∈ get_paths v) paths ->
                            add_paths paths v = v).
  { intros v Hall. unfold add_paths. cbv zeta.
    rewrite add_loop_nothing_new; [by destruct v|].
    eapply Forall_impl; [exact Hall|]. intros p Hp.
    by apply elem_of_list_to_set. }
  split; [|split; [apply Hsame|]].
  - case_bool_decide as Hall; [by rewrite Hsame|].
    destruct (add_loop_spec paths (list_to_set (get_paths w)) (rows w) false)
      as (added & _ & Hs & _ & _ & Hm).
    unfold add_paths. cbv zeta. cbn [changed]. rewrite Hs.
    destruct added as [|p added]; [|reflexivity].
    exfalso. apply Hall. apply Forall_forall. intros p Hp.
    destruct (decide (p ∈ get_paths w)) as [|Hn]; [done|].
    exfalso. eapply elem_of_nil. apply Hm. split; [exact Hp|].
    by rewrite elem_of_list_to_set.
  - apply Hsame. apply Forall_forall. intros p Hp.
    by apply add_paths_present.
Qed.

End MoreWidgets.

(** ** The search path of the tools *)

Module MorePatchPath.
Import NameFacts MorePaths.

Lemma patch_path_fixed (r : string) :
  "/opt/homebrew/bin" ∈ Str.split ":" r ->
  "/usr/local/bin" ∈ Str.split ":" r ->
  _patch_path (Some r) = r.
Proof.
  intros Ha Hb. unfold _patch_path. cbn [default from_option id].
  rewrite !filter_cons_False, filter_nil by (by intros [_ ?]).
  cbn [app Str.join].
  destruct (decide (r <> "")) as [_|Hr]; [reflexivity|].
  destruct r; [|by destruct Hr].
  apply list_elem_of_singleton in Ha. discriminate.
Qed.

(** X15. [_patch_path] puts in front of [PATH] those of the two
    directories that are not among its components, in their order, and
    keeps the components there were.  Afterwards both directories are
    components of [PATH], and patching a second time changes nothing. *)
Theorem patch_path_components (environ_PATH : option string) :
  Str.split ":" (_patch_path environ_PATH)
  = filter (fun p => p ∉ Str.split ":" (default "" environ_PATH))
           ["/opt/homebrew/bin"; "/usr/local/bin"]
    ++ (if decide (default "" environ_PATH = "") then []
        else Str.split ":" (default "" environ_PATH))
  /\ "/opt/homebrew/bin" ∈ Str.split ":" (_patch_path environ_PATH)
  /\ "/usr/local/bin" ∈ Str.split ":" (_patch_path environ_PATH)
  /\ _patch_path (Some (_patch_path environ_PATH)) = _patch_path environ_PATH.
Proof.
  set (cur := default "" environ_PATH).
  assert (Hsplit :
    Str.split ":" (_patch_path environ_PATH)
    = filter (fun p => p ∉ Str.split ":" cur)
             ["/opt/homebrew/bin"; "/usr/local/bin"]
      ++ (if decide (cur = "") then [] else Str.split ":" cur)).
  { unfold _patch_path. fold cur. rewrite !filter_cons, !filter_nil.
    destruct (decide (cur = "")) as [->|Hne].
    - vm_compute. reflexivity.
    - rewrite (decide_True (P:=cur <> "")) by done.
      destruct (decide ("/opt/homebrew/bin" ∈ Str.split ":" cur)) as [Ha|Ha];
        destruct (decide ("/usr/local/bin" ∈ Str.split ":" cur)) as [Hb|Hb].
      + rewrite !decide_False by (by intros [_ ?]).
        rewrite !decide_False by (by intros ?). reflexivity.
      + rewrite decide_False by (by intros [_ ?]).
        rewrite decide_True by done.
        rewrite decide_False by (by intros ?).
        rewrite decide_True by done.
        cbn [app Str.join].
        change (":" +:+ cur) with (String ":" cur).
        by rewrite split_app_sep.
      + rewrite decide_True by done.
        rewrite decide_False by (by intros [_ ?]).
        rewrite decide_True by done.
        rewrite decide_False by (by intros ?).
        cbn [app Str.join].
        change (":" +:+ cur) with (String ":" cur).
        by rewrite split_app_sep.
      + rewrite !decide_True by done.
        cbn [app Str.join].
        change (":" +:+ cur) with (String ":" cur).
        change (":" +:+ "/usr/local/bin" +:+ String ":" cur)
          with (String ":" ("/usr/local/bin" +:+ String ":" cur)).
        by rewrite !split_app_sep. }
  assert (Ha : "/opt/homebrew/bin" ∈ Str.split ":" (_patch_path environ_PATH)).
  { rewrite Hsplit, filter_cons.
    destruct (decide ("/opt/homebrew/bin" ∉ Str.split ":" cur)) as [Hn|Hn].
    - left.
    - apply dec_stable in Hn. apply elem_of_app. right.
      destruct (decide (cur = "")) as [E|_]; [|done].
      rewrite E in Hn. by apply list_elem_of_singleton in Hn. }
  assert (Hb : "/usr/local/bin" ∈ Str.split ":" (_patch_path environ_PATH)).
  { rewrite Hsplit, !filter_cons.
    destruct (decide ("/usr/local/bin" ∉ Str.split ":" cur)) as [Hn|Hn].
    - destruct (decide ("/opt/homebrew/bin" ∉ _)); [right|]; left.
    - apply dec_stable in Hn. apply elem_of_app. right.
      destruct (decide (cur = "")) as [E|_]; [|done].
      rewrite E in Hn. by apply list_elem_of_singleton in Hn. }
  split; [exact Hsplit|]. split; [exact Ha|]. split; [exact Hb|].
  by apply patch_path_fixed.
Qed.

End MorePatchPath.

(** ** The tabs' [_run] *)

Section MoreTabs.
Context `{Host}.

Lemma strip_eqb_blank (s : string) :
  String.eqb (Str.strip s) "" = Str.blank s.
Proof.
  destruct (Str.blank s) eqn:Hb.
  - apply strip_empty_iff_blank in Hb. by rewrite Hb.
  - apply String.eqb_neq. intros E. apply strip_empty_iff_blank in E.
    congruence.
Qed.

Lemma ConvertTab_run_eq (tab : ConvertTab.t) :
  ConvertTab._run tab
  = match PathListWidget.get_paths (ConvertTab.inputs tab) with
    | [] => ([Warning "Missing input" "Add at least one audio file."], None)
    | p :: rest =>
        if Str.blank (ConvertTab.out_dir_text tab)
        then ([Warning "Missing output" "Choose an output folder."], None)
        else ([Progress_setValue 0; Log "Converting..."],
              Some (ConvertTab_fn (p :: rest) (ConvertTab.options tab)))
    end.
Proof.
  unfold ConvertTab._run. cbv zeta. rewrite strip_eqb_blank.
  by destruct (PathListWidget.get_paths _).
Qed.


(** X17. The convert tab always builds its options with [force_wav]
    set, so the bit depth is checked for every job it starts: with a bit
    depth other than 16, 24 and 32 the job fails at its first file, with
    the error of [mkdir] when the output folder cannot be made and with
    [ValueError] otherwise, having run no tool and reported no progress.
    The worker then emits [finished] with that error, and nothing
    else. *)
Theorem convert_tab_bad_bit_depth (tab : ConvertTab.t) (fn : M (list Path))
    (w : World) :
  snd (ConvertTab._run tab) = Some fn ->
  ConvertTab.bit_depth_value tab ∉ [16; 24; 32] ->
  let dir := PurePath.parse (Str.strip (ConvertTab.out_dir_text tab)) in
  let e := if bool_decide (blocked dir w) then OSError "mkdir"
           else ValueError "bit_depth must be one of 16, 24, 32" in
  fn w = (Raised e,
          if bool_decide (blocked dir w) then record (Mkdir dir) w
          else made dir w)
  /\ since w (snd (fn w)) = [Mkdir dir]
  /\ fst (Worker_run fn w) = [Emit_finished None (Some e)].
Proof.
  intros Hrun Hbd dir e. rewrite ConvertTab_run_eq in Hrun.
  destruct (PathListWidget.get_paths (ConvertTab.inputs tab)) as [|p rest];
    [discriminate|].
  destruct (Str.blank (ConvertTab.out_dir_text tab)); [discriminate|].
  injection Hrun as <-.
  assert (Hfn : ConvertTab_fn (p :: rest) (ConvertTab.options tab) w
                = (Raised e,
                   if bool_decide (blocked dir w) then record (Mkdir dir) w
                   else made dir w)).
  { unfold ConvertTab_fn. cbv zeta. cbn [batch_loop]. unfold bind at 1.
    rewrite convert_file_eq. cbn [ConvertTab.options out_dir].
    fold dir. subst e. destruct (bool_decide (blocked dir w)); [reflexivity|].
    cbv zeta. unfold codec_arg, out_ext_of.
    cbn [force_wav bit_depth ConvertTab.options]. cbn [Str.lower String.eqb].
    replace (String.eqb (Str.lower ".wav") ".wav") with true by reflexivity.
    rewrite pcm_codec_valid.
    destruct (Z.eqb_spec (ConvertTab.bit_depth_value tab) 16) as [E|_];
      [exfalso; apply Hbd; rewrite E; repeat constructor|].
    destruct (Z.eqb_spec (ConvertTab.bit_depth_value tab) 24) as [E|_];
      [exfalso; apply Hbd; rewrite E; repeat constructor|].
    destruct (Z.eqb_spec (ConvertTab.bit_depth_value tab) 32) as [E|_];
      [exfalso; apply Hbd; rewrite E; repeat constructor|].
    reflexivity. }
  assert (Hs : since w (snd (ConvertTab_fn (p :: rest) (ConvertTab.options tab) w))
               = [Mkdir dir]).
  { rewrite Hfn. cbn [snd]. apply since_extends.
    by destruct (bool_decide (blocked dir w)). }
  split; [exact Hfn|]. split; [exact Hs|].
  rewrite Worker_run_trace, Hs, Hfn. reflexivity.
Qed.

(** X18. Whatever the extensions of the inputs, a job of the convert tab
    that returns has made, for the inputs in their order, the files
    named by their stems followed by [.wav] in the chosen folder; the tab
    has then been sent one progress event for each input, and the bit
    depth was one of 16, 24 and 32. *)
Theorem convert_tab_outputs (tab : ConvertTab.t) (fn : M (list Path))
    (w w' : World) (outs : list Path) :
  snd (ConvertTab._run tab) = Some fn ->
  fn w = (Returned outs, w') ->
  let dir := PurePath.parse (Str.strip (ConvertTab.out_dir_text tab)) in
  let paths := PathListWidget.get_paths (ConvertTab.inputs tab) in
  outs = map (fun p => PurePath.joinpath dir (PurePath.stem p +:+ ".wav")) paths
  /\ progress_of (since w w')
     = events "Converted" (Z.of_nat (length paths)) 1 paths
  /\ length (progress_of (since w w')) = length paths
  /\ ConvertTab.bit_depth_value tab ∈ [16; 24; 32].
Proof.
  intros Hrun Hfn dir paths. rewrite ConvertTab_run_eq in Hrun.
  fold paths in Hrun. destruct paths as [|p rest] eqn:Hp; [discriminate|].
  destruct (Str.blank (ConvertTab.out_dir_text tab)); [discriminate|].
  injection Hrun as <-. rewrite <- Hp in *.
  unfold ConvertTab_fn in Hfn. cbv zeta in Hfn.
  destruct (batch_loop_returned _ _ _ paths
              (convert_file_quiet (ConvertTab.options tab)) _ _ _ _ _ Hfn)
    as (xs & d & Hres & Hxs & Hd & Hev).
  cbn [app] in Hres. subst outs.
  rewrite (since_extends _ _ _ Hd), Hev.
  split; [|split; [reflexivity|split; [apply events_length|]]].
  - clear -Hxs. induction Hxs as [|q x l xs (wi & wi' & Hq) _ IH];
      [reflexivity|].
    cbn [map]. rewrite <- IH. f_equal.
    by apply convert_file_returns in Hq.
  - rewrite Hp in Hxs. inversion Hxs as [|? x ? ? (wi & wi' & Hq) _]; subst.
    rewrite convert_file_eq in Hq.
    destruct (bool_decide _); [discriminate|]. cbv zeta in Hq.
    unfold codec_arg, out_ext_of in Hq.
    cbn [force_wav bit_depth ConvertTab.options] in Hq.
    replace (String.eqb (Str.lower ".wav") ".wav") with true in Hq
      by reflexivity.
    rewrite pcm_codec_valid in Hq.
    destruct (Z.eqb_spec (ConvertTab.bit_depth_value tab) 16) as [->|_];
      [repeat constructor|].
    destruct (Z.eqb_spec (ConvertTab.bit_depth_value tab) 24) as [->|_];
      [repeat constructor|].
    destruct (Z.eqb_spec (ConvertTab.bit_depth_value tab) 32) as [->|_];
      [repeat constructor|].
    discriminate.
Qed.

End MoreTabs.

(** ** Files added through the dialog or dropped on the list *)

Module MoreAddFiles.
Import PathListWidget MorePaths MoreWidgets.

Lemma split_no_mem (c : ascii) (s : string) :
  Forall (fun x => Str.mem c x = false) (Str.split c s).
Proof.
  induction s as [|a s IH]; [by repeat constructor|].
  cbn [Str.split]. destruct (Ascii.eqb a c) eqn:Ha.
  - by constructor.
  - destruct (Str.split c s) as [|x xs].
    + repeat constructor. simpl. by rewrite Ha.
    + apply Forall_cons in IH as [Hx Hxs]. constructor; [|done].
      simpl. by rewrite Ha, Hx.
Qed.

(** What [Path(s)] builds is a path. *)
Lemma parse_wf (s : string) : PurePath.wf (PurePath.parse s).
Proof.
  split.
  - unfold PurePath.parse. cbn [root].
    destruct (PurePath.leading_slashes s) as [|[|[|n]]]; set_solver.
  - unfold PurePath.parse. cbn [parts]. apply Forall_forall. intros x Hx.
    apply list_elem_of_filter in Hx as [[Hne Hdot] Hx].
    split; [done|]. split; [done|].
    pose proof (split_no_mem PurePath.slash s) as Hs.
    by eapply Forall_forall in Hs.
Qed.

(** X19. Every file chosen in the dialog is in the list afterwards, as
    the path its name denotes; so is every file dropped on the list whose
    name is not empty.  Names denoting a path already listed add no row,
    the list keeps being free of duplicates, and choosing or dropping the
    same files again changes nothing. *)
Theorem chosen_files_are_listed (files : list string) (w : t) :
  (forall f, f ∈ files -> PurePath.parse f ∈ get_paths (_add_files files w))
  /\ (forall f, f ∈ files -> f <> "" ->
                PurePath.parse f ∈ get_paths (dropEvent files w))
  /\ (NoDup (get_paths w) ->
      NoDup (get_paths (_add_files files w))
      /\ NoDup (get_paths (dropEvent files w)))
  /\ _add_files files (_add_files files w) = _add_files files w
  /\ dropEvent files (dropEvent files w) = dropEvent files w
  /\ (Forall (fun f => PurePath.parse f ∈ get_paths w) files ->
      _add_files files w = w /\ dropEvent files w = w).
Proof.
  assert (Hwf : forall l : list string, Forall PurePath.wf (map PurePath.parse l)).
  { intros l. apply Forall_forall. intros p Hp.
    apply list_elem_of_In, in_map_iff in Hp as (f & <- & _). apply parse_wf. }
  assert (Hnd : forall l, NoDup (get_paths w) ->
                          NoDup (get_paths (add_paths (map PurePath.parse l) w))).
  { intros l Hw.
    destruct (add_paths_spec _ w (Hwf l)) as (added & -> & _ & _ & Ha & Hm).
    apply NoDup_app. split; [done|]. split; [|done].
    intros p Hp Hq. by apply Hm in Hq as [_ Hq]. }
  assert (Hsame : forall l v,
             Forall (fun p => p ∈ get_paths v) (map PurePath.parse l) ->
             add_paths (map PurePath.parse l) v = v).
  { intros l v Hall. unfold add_paths. cbv zeta.
    rewrite add_loop_nothing_new; [by destruct v|].
    eapply Forall_impl; [exact Hall|]. intros p Hp.
    by apply elem_of_list_to_set. }
  assert (Hagain : forall l,
             add_paths (map PurePath.parse l) (add_paths (map PurePath.parse l) w)
             = add_paths (map PurePath.parse l) w).
  { intros l. apply Hsame. apply Forall_forall. intros p Hp.
    by apply add_paths_present. }
  unfold _add_files, dropEvent.
  split; [|split; [|split; [|split; [|split]]]].
  - intros f Hf. apply add_paths_present; [apply Hwf|].
    by apply list_elem_of_In, in_map, list_elem_of_In.
  - intros f Hf Hne. apply add_paths_present; [apply Hwf|].
    apply list_elem_of_In, in_map, list_elem_of_In.
    by apply list_elem_of_filter.
  - intros Hw. split; by apply Hnd.
  - apply Hagain.
  - apply Hagain.
  - intros Hall. split; apply Hsame.
    + apply Forall_forall. intros p Hp.
      apply list_elem_of_In, in_map_iff in Hp as (f & <- & Hf).
      apply list_elem_of_In in Hf. by eapply Forall_forall in Hall.
    + apply Forall_forall. intros p Hp.
      apply list_elem_of_In, in_map_iff in Hp as (f & <- & Hf).
      apply list_elem_of_In, list_elem_of_filter in Hf as [_ Hf].
      by eapply Forall_forall in Hall.
Qed.

End MoreAddFiles.

(** ** A format entry that is not an object *)

Section MoreFormat.
Context `{Host}.

(** X20. When the [format] entry of the tool's output is not an object,
    [probe_file] never returns.  A falsy entry is read as an empty
    object, and a string or a list can be searched for the key but not
    indexed by it, which the [try] swallows: in these cases the duration
    is unknown and [FFprobeError] is raised.  A number or [true] cannot
    be searched: the [TypeError] of the test [in] escapes. *)
Theorem probe_file_format_not_object (path : Path) (w : World)
    (cp : CompletedProcess) (d : list (string * Py.value)) (v : Py.value) :
  subprocess_run w (ffprobe_cmd path) = Returned cp ->
  returncode cp = 0 ->
  json_loads (stdout cp) = Some (JObj d) ->
  Py.lookup "format" d = Some v ->
  ~ is_object v ->
  fst (probe_file path w)
  = if Py.truthy v
    then match v with
         | JStr _ | JArr _ =>
             Raised (FFprobeError "Could not determine duration")
         | _ => Raised TypeError
         end
    else Raised (FFprobeError "Could not determine duration").
Proof.
  intros Hrun Hrc Hjs Hv Hobj.
  rewrite (probe_file_parsed _ _ _ _ Hrun Hrc Hjs). cbn [fst].
  unfold probe_file_data. cbn [Py.get obind].
  unfold Py.value in *. rewrite Hv. cbn [default from_option id].
  unfold Py.or_. destruct (Py.truthy v) eqn:Ht.
  - destruct v as [| | | | | |f]; try reflexivity.
    + unfold optional_field. cbn [Py.contains obind Py.getitem Py.try_conv].
      by destruct (Str.contains _ _).
    + unfold optional_field. cbn [Py.contains obind Py.getitem Py.try_conv].
      by destruct (existsb _ _).
    + exfalso. apply Hobj. by eexists.
  - rewrite optional_field_object. reflexivity.
Qed.

End MoreFormat.

(** * The further properties on concrete inputs *)

Module MoreExamples.
Import JobController.

(** A tool that fails and writes a line break only. *)
Lemma run_outcomes_witness :
  subprocess_run (Host:=Demo.host_of Demo.mute) Demo.w0 ["ffprobe"]
  = Returned (mkCompletedProcess 1 "" (String "010" EmptyString))
  /\ fst (_run (H:=Demo.host_of Demo.mute) ["ffprobe"] Demo.w0)
     = Raised (FFprobeError "ffprobe failed").
Proof.
  split; [reflexivity|].
  refine (proj1 (proj2 (run_outcomes (H:=Demo.host_of Demo.mute) ["ffprobe"]
                          Demo.w0 _ eq_refl)) _ _).
  - discriminate.
  - reflexivity.
Defined.

(** Output that is not JSON. *)
Lemma probe_file_unwrapped_errors_witness :
  fst (probe_file (H:=Demo.host_of Demo.garbling) Demo.foo_mp3 Demo.w0)
  = Raised JSONDecodeError.
Proof.
  exact (proj1 (proj2 (probe_file_unwrapped_errors
                         (H:=Demo.host_of Demo.garbling) Demo.foo_mp3 Demo.w0)
                  _ eq_refl eq_refl) eq_refl).
Defined.

(** The output directory [out] where a regular file [out] stands. *)
Lemma convert_file_blocked_witness :
  blocked (out_dir Demo.opts_wav8) Demo.w_file
  /\ fst (convert_file (H:=Demo.host) Demo.foo_mp3 Demo.opts_wav8 Demo.w_file)
     = Raised (OSError "mkdir").
Proof.
  assert (Hb : blocked (out_dir Demo.opts_wav8) Demo.w_file).
  { unfold blocked. apply (bool_decide_eq_true_1 _). vm_compute. reflexivity. }
  split; [exact Hb|].
  exact (proj1 (convert_file_blocked (H:=Demo.host) Demo.foo_mp3
                  Demo.opts_wav8 Demo.w_file Hb)).
Defined.

(** [foo.mp3] converted to 16-bit PCM. *)
Lemma convert_file_command_witness :
  Spawn (ffmpeg_cmd Demo.foo_mp3 Demo.opts_wav "pcm_s16le")
    ∈ since Demo.w0
        (snd (convert_file (H:=Demo.host) Demo.foo_mp3 Demo.opts_wav Demo.w0))
  /\ since Demo.w0
       (snd (convert_file (H:=Demo.host) Demo.foo_mp3 Demo.opts_wav Demo.w0))
     = [Mkdir (out_dir Demo.opts_wav);
        Spawn (ffmpeg_cmd Demo.foo_mp3 Demo.opts_wav "pcm_s16le")].
Proof.
  assert (Hs : since Demo.w0
                 (snd (convert_file (H:=Demo.host) Demo.foo_mp3 Demo.opts_wav
                         Demo.w0))
               = [Mkdir (out_dir Demo.opts_wav);
                  Spawn (ffmpeg_cmd Demo.foo_mp3 Demo.opts_wav "pcm_s16le")])
    by (vm_compute; reflexivity).
  assert (Hin : Spawn (ffmpeg_cmd Demo.foo_mp3 Demo.opts_wav "pcm_s16le")
                  ∈ since Demo.w0
                      (snd (convert_file (H:=Demo.host) Demo.foo_mp3
                              Demo.opts_wav Demo.w0))).
  { rewrite Hs. right. left. }
  split; [exact Hin|].
  exact (proj1 (convert_file_command (H:=Demo.host) Demo.foo_mp3 Demo.opts_wav
                  Demo.w0 _ Hin)).
Defined.

(** Two conversions into [out], which does not exist at first. *)
Lemma convert_file_mkdir_idempotent_witness :
  ~ blocked (out_dir Demo.opts_wav) Demo.w0
  /\ dirs (snd (convert_file (H:=Demo.host) Demo.a_bad_mp3 Demo.opts_wav
                  (snd (convert_file (H:=Demo.host) Demo.foo_mp3 Demo.opts_wav
                          Demo.w0))))
     = dirs (snd (convert_file (H:=Demo.host) Demo.foo_mp3 Demo.opts_wav
                    Demo.w0)).
Proof.
  assert (Hb : ~ blocked (out_dir Demo.opts_wav) Demo.w0).
  { unfold blocked. apply (bool_decide_eq_false_1 _). vm_compute. reflexivity. }
  split; [exact Hb|].
  exact (proj2 (convert_file_mkdir_idempotent (H:=Demo.host) Demo.foo_mp3
                  Demo.a_bad_mp3 Demo.opts_wav Demo.w0) Hb).
Defined.

(** A batch of three whose second file makes the tool fail. *)
Lemma files_stop_at_first_failure_witness :
  fst (probe_files (H:=Demo.host) Demo.three Demo.w0)
  = Raised (FFprobeError "boom").
Proof.
  assert (Hpre : exists outs,
             probe_files (H:=Demo.host) [Demo.a_foo_mp3] Demo.w0
             = (Returned outs,
                snd (probe_files (H:=Demo.host) [Demo.a_foo_mp3] Demo.w0)))
    by (eexists; vm_compute; reflexivity).
  destruct Hpre as [outs Hpre].
  assert (Hp : probe_file (H:=Demo.host) Demo.a_bad_mp3
                 (snd (probe_files (H:=Demo.host) [Demo.a_foo_mp3] Demo.w0))
               = (Raised (FFprobeError "boom"),
                  snd (probe_file (H:=Demo.host) Demo.a_bad_mp3
                         (snd (probe_files (H:=Demo.host) [Demo.a_foo_mp3]
                                 Demo.w0)))))
    by (vm_compute; reflexivity).
  change Demo.three
    with ([Demo.a_foo_mp3] ++ Demo.a_bad_mp3 :: [Demo.a_later_mp3]).
  rewrite (proj1 (files_stop_at_first_failure (H:=Demo.host) [Demo.a_foo_mp3]
                    Demo.a_bad_mp3 [Demo.a_later_mp3] Demo.opts_wav
                    Demo.w0 _ _ _) _ Hpre Hp).
  reflexivity.
Defined.

(** A job whose thread has ended and been destroyed. *)
Lemma restart_after_finished_raises_witness :
  aborted (exec init DemoUI.run1) = false
  /\ _thread (controller (exec init DemoUI.run1)) = Some 0%nat
  /\ threads (exec init DemoUI.run1) !! 0%nat = Some Destroyed
  /\ start Demo.jobB Demo.w0 (exec init DemoUI.run1)
     = (RuntimeError, exec init DemoUI.run1).
Proof.
  assert (Ha : aborted (exec init DemoUI.run1) = false)
    by (vm_compute; reflexivity).
  assert (Ht : _thread (controller (exec init DemoUI.run1)) = Some 0%nat)
    by (vm_compute; reflexivity).
  assert (Hr : threads (exec init DemoUI.run1) !! 0%nat = Some Destroyed)
    by (vm_compute; reflexivity).
  split; [exact Ha|]. split; [exact Ht|]. split; [exact Hr|].
  exact (proj1 (MoreController.restart_after_finished_raises DemoUI.run1
                  0%nat Demo.jobB Demo.jobB Demo.w0 Demo.w0 [] Ha Ht Hr)).
Defined.

(** A job that has reported its progress. *)
Lemma relay_keeps_order_witness :
  jobs (exec init DemoUI.run_busy) !! 0%nat = Some (Demo.jobA, Demo.w0)
  /\ received 0 (exec init DemoUI.run_busy)
     `prefix_of` fst (Worker_run Demo.jobA Demo.w0).
Proof.
  split; [reflexivity|].
  exact (proj1 (proj2 (MoreController.relay_keeps_order DemoUI.run_busy 0%nat
                         Demo.jobA Demo.w0 eq_refl))).
Defined.

(** A job that has run to its end. *)
Lemma completion_is_delivered_last_witness :
  jobs (exec init DemoUI.run1) !! 0%nat = Some (Demo.jobA, Demo.w0)
  /\ (1 <= terminal_delivered 0 (exec init DemoUI.run1))%nat
  /\ received 0 (exec init DemoUI.run1) = fst (Worker_run Demo.jobA Demo.w0).
Proof.
  assert (Ht : (1 <= terminal_delivered 0 (exec init DemoUI.run1))%nat).
  { vm_compute. constructor. }
  split; [reflexivity|]. split; [exact Ht|].
  exact (proj1 (MoreController.completion_is_delivered_last DemoUI.run1 0%nat
                  Demo.jobA Demo.w0 eq_refl Ht)).
Defined.

(** A job that has reported its progress: one terminal event is still to
    come. *)
Lemma job_reports_once_while_alive_witness :
  jobs (exec init DemoUI.run_busy) !! 0%nat = Some (Demo.jobA, Demo.w0)
  /\ (terminal_delivered 0 (exec init DemoUI.run_busy)
      + terminal_posted 0 (exec init DemoUI.run_busy)
      + terminal_pending 0 (exec init DemoUI.run_busy) = 1)%nat.
Proof.
  split; [reflexivity|].
  exact (proj1 (MoreController.job_reports_once_while_alive DemoUI.run_busy
                  0%nat Demo.jobA Demo.w0 eq_refl)).
Defined.

(** A path that is listed and one that is not. *)
Lemma add_paths_appends_new_witness :
  Forall PurePath.wf [Demo.a_foo_mp3; Demo.a_later_mp3]
  /\ exists added,
       PathListWidget.get_paths
         (PathListWidget.add_paths [Demo.a_foo_mp3; Demo.a_later_mp3]
            DemoUI.list_ab)
       = PathListWidget.get_paths DemoUI.list_ab ++ added
       /\ NoDup added.
Proof.
  assert (Hwf : Forall PurePath.wf [Demo.a_foo_mp3; Demo.a_later_mp3]).
  { constructor; [exact (MoreAddFiles.parse_wf "a/foo.mp3")|].
    constructor; [exact (MoreAddFiles.parse_wf "a/later.mp3")|constructor]. }
  split; [exact Hwf|].
  destruct (MoreWidgets.add_paths_appends_new
              [Demo.a_foo_mp3; Demo.a_later_mp3] DemoUI.list_ab Hwf)
    as (added & Hg & _ & _ & Hnd & _).
  exists added. split; [exact Hg | exact Hnd].
Defined.

Lemma add_paths_changed_witness :
  Forall PurePath.wf [Demo.a_foo_mp3; Demo.a_later_mp3]
  /\ PathListWidget.add_paths [Demo.a_foo_mp3; Demo.a_later_mp3]
       (PathListWidget.add_paths [Demo.a_foo_mp3; Demo.a_later_mp3]
          DemoUI.list_ab)
     = PathListWidget.add_paths [Demo.a_foo_mp3; Demo.a_later_mp3]
         DemoUI.list_ab.
Proof.
  assert (Hwf : Forall PurePath.wf [Demo.a_foo_mp3; Demo.a_later_mp3]).
  { constructor; [exact (MoreAddFiles.parse_wf "a/foo.mp3")|].
    constructor; [exact (MoreAddFiles.parse_wf "a/later.mp3")|constructor]. }
  split; [exact Hwf|].
  exact (proj2 (proj2 (MoreWidgets.add_paths_changed
                         [Demo.a_foo_mp3; Demo.a_later_mp3] DemoUI.list_ab
                         Hwf))).
Defined.

(** The convert tab with a bit depth of 20. *)
Lemma convert_tab_bad_bit_depth_witness :
  snd (ConvertTab._run (H:=Demo.host) DemoUI.tab20)
  = Some (ConvertTab_fn (H:=Demo.host)
            (PathListWidget.get_paths DemoUI.list_ab)
            (ConvertTab.options DemoUI.tab20))
  /\ (ConvertTab.bit_depth_value DemoUI.tab20 ∉ [16; 24; 32])
  /\ fst (Worker_run
            (ConvertTab_fn (H:=Demo.host)
               (PathListWidget.get_paths DemoUI.list_ab)
               (ConvertTab.options DemoUI.tab20)) Demo.w0)
     = [Emit_finished None
          (Some (ValueError "bit_depth must be one of 16, 24, 32"))].
Proof.
  assert (Hbd : ConvertTab.bit_depth_value DemoUI.tab20 ∉ [16; 24; 32]).
  { intros Hin.
    repeat (apply elem_of_cons in Hin as [Hin|Hin]; [discriminate|]).
    by apply elem_of_nil in Hin. }
  split; [reflexivity|]. split; [exact Hbd|].
  exact (proj2 (proj2 (convert_tab_bad_bit_depth (H:=Demo.host) DemoUI.tab20
                         _ Demo.w0 eq_refl Hbd))).
Defined.

(** The convert tab with a bit depth of 16: both inputs have the stem
    [foo]. *)
Lemma convert_tab_outputs_witness :
  snd (ConvertTab._run (H:=Demo.host) DemoUI.tab16)
  = Some (ConvertTab_fn (H:=Demo.host)
            (PathListWidget.get_paths DemoUI.list_ab)
            (ConvertTab.options DemoUI.tab16))
  /\ [PurePath.parse "out/foo.wav"; PurePath.parse "out/foo.wav"]
     = map (fun p => PurePath.joinpath
                       (PurePath.parse
                          (Str.strip (ConvertTab.out_dir_text DemoUI.tab16)))
                       (PurePath.stem p +:+ ".wav"))
           (PathListWidget.get_paths (ConvertTab.inputs DemoUI.tab16)).
Proof.
  assert (Hr : ConvertTab_fn (H:=Demo.host)
                 (PathListWidget.get_paths DemoUI.list_ab)
                 (ConvertTab.options DemoUI.tab16) Demo.w0
               = (Returned [PurePath.parse "out/foo.wav";
                            PurePath.parse "out/foo.wav"],
                  snd (ConvertTab_fn (H:=Demo.host)
                         (PathListWidget.get_paths DemoUI.list_ab)
                         (ConvertTab.options DemoUI.tab16) Demo.w0)))
    by (vm_compute; reflexivity).
  split; [reflexivity|].
  exact (proj1 (convert_tab_outputs (H:=Demo.host) DemoUI.tab16 _ Demo.w0 _ _
                  eq_refl Hr)).
Defined.

(** A [format] entry that is the string ["duration"]. *)
Lemma probe_file_format_not_object_witness :
  ~ is_object (H:=DemoUI.host_text) (JStr "duration")
  /\ fst (probe_file (H:=DemoUI.host_text) Demo.foo_mp3 Demo.w0)
     = Raised (FFprobeError "Could not determine duration").
Proof.
  assert (Hobj : ~ is_object (H:=DemoUI.host_text) (JStr "duration")).
  { intros [s Hs]. discriminate. }
  split; [exact Hobj|].
  exact (probe_file_format_not_object (H:=DemoUI.host_text) Demo.foo_mp3
           Demo.w0 _ _ (JStr "duration") eq_refl eq_refl eq_refl eq_refl Hobj).
Defined.

End MoreExamples.
